(** * The workflow executor of ontos, embedded in Rocq

    Source: [src/backend/src/common/workflow_executor.py].

    The executor walks the step graph of a process workflow, dispatches each
    step to the handler registered for its kind, records the outcome through
    the execution repository and follows the [on_pass] / [on_fail] edge.

    The embedding keeps the shape of the Python code:
    - Python objects that are mutated through references (the entity
      dictionary and the dictionaries nested in it) live in a heap of
      dictionaries, so that aliasing between the caller's entity and the
      step context is visible;
    - everything that can raise is written in a small state-and-exception
      monad ([M]); [try ... except Exception] is [try_except];
    - the [while] loop runs on fuel, and running out of fuel is a result of
      its own ([OutOfFuel]), distinct from returning or raising;
    - collaborators that are not part of this file (the compliance DSL, the
      delivery service, [exec], [json], the clock) are gathered in the class
      [Externals]. *)

From stdpp Require Import gmap strings list fin_maps.
From Stdlib Require Import Ascii String DecimalString QArith.

Close Scope Q_scope.
Open Scope string_scope.

(** ** Python values *)

Definition loc := positive.

(** The values the executor inspects: [None], strings, and dictionaries held
    by reference.  Dictionary keys are strings, as in [Dict[str, Any]]. *)
Inductive value :=
  | VNone
  | VStr (s : string)
  | VDict (l : loc).

#[global] Instance value_eq_dec : EqDecision value.
Proof. solve_decision. Defined.

Abbreviation pydict := (gmap string value).
Abbreviation pyheap := (gmap loc (gmap string value)).

(** The dictionary a reference points to. *)
Definition deref (h : pyheap) (l : loc) : gmap string value :=
  default ∅ (h !! l).

Definition str_truthy (s : string) : bool := negb (String.eqb s "").

(** [bool(v)]. *)
Definition truthy (h : pyheap) (v : value) : bool :=
  match v with
  | VNone => false
  | VStr s => str_truthy s
  | VDict l => negb (bool_decide (deref h l = ∅))
  end.

(** [bool(o)] for an [Optional[str]]. *)
Definition opt_truthy (o : option string) : bool :=
  match o with
  | Some s => str_truthy s
  | None => false
  end.

Definition of_opt (o : option string) : value :=
  match o with
  | Some s => VStr s
  | None => VNone
  end.

(** [a or b]. *)
Definition py_or (h : pyheap) (a b : value) : value :=
  if truthy h a then a else b.

(** [v == s] for a string literal [s]. *)
Definition eq_str (v : value) (s : string) : bool :=
  match v with
  | VStr s' => String.eqb s' s
  | _ => false
  end.

(** [sub in s] on strings. *)
Definition contains (sub s : string) : bool :=
  match String.index 0 sub s with
  | Some _ => true
  | None => false
  end.

(** [s.split(',')]. *)
Fixpoint split_comma (s : string) : list string :=
  match s with
  | EmptyString => [EmptyString]
  | String c r =>
      if Ascii.eqb c ","%char then EmptyString :: split_comma r
      else match split_comma r with
           | x :: xs => String c x :: xs
           | [] => [String c EmptyString]
           end
  end.

(** [d.get(k)]: a missing key reads as [None]. *)
Definition dict_get (d : gmap string value) (k : string) : value :=
  default VNone (d !! k).

(** [d.get(k, dflt)]. *)
Definition dict_get_default (d : gmap string value) (k dflt : string) : value :=
  default (VStr dflt) (d !! k).

Definition nat_to_string (n : nat) : string :=
  NilEmpty.string_of_uint (Nat.to_uint n).

(** ** Exceptions *)

(** Faults raised by the Python runtime itself on the operations the handlers
    perform.  Their message texts depend on the interpreter version and are
    supplied by [Externals]. *)
Inductive fault :=
  | NoItemAssignment (v : value)      (* v[k] = x  on a non-dictionary *)
  | NoItemDeletion (v : value)        (* del v[k]  on a non-dictionary *)
  | Unhashable (v : value)            (* a dictionary used as a key *)
  | NotAContainer (v : value)         (* k in None *)
  | BadLeftOperand (v : value)        (* a non-string  in  a string *)
  | NoAttribute (v : value) (a : string)
  | JoinItem (i : nat) (v : value)    (* ', '.join of a non-string item *)
  | BadExecSource (v : value).        (* exec() of a non-string *)

(** Instances of [Exception]. *)
Inductive exn :=
  | Builtin (f : fault)
  | Raised (cls msg : string).

(** [type(e).__name__], as far as [except] clauses look at it. *)
Definition exn_class (e : exn) : string :=
  match e with
  | Builtin (NoAttribute _ _) => "AttributeError"
  | Builtin _ => "TypeError"
  | Raised cls _ => cls
  end.

(** ** Results of steps *)

(** An object of a collaborator that the executor only tests for truth and
    formats into messages. *)
Record foreign := Foreign { foreign_truth : bool; foreign_text : string }.

(** Entries of the [data] dictionaries the handlers build. *)
Inductive datum :=
  | DVal (v : value)
  | DInt (n : Z)
  | DBool (b : bool)
  | DStr (s : string)
  | DList (vs : list value)
  | DForeign (f : foreign).

Inductive payload :=
  | PDict (kvs : list (string * datum))
  | PForeign (f : foreign).

(** [@dataclass class StepResult]; [passed] is kept by its truth value, which
    is all the executor tests. *)
Module StepResult.
Record t := mk {
  passed : bool;
  message : value;
  data : option payload;
  error : option string;
  blocking : bool;
}.
End StepResult.

(** [StepResult(passed=False, error=msg)]. *)
Definition failed_with (msg : string) : StepResult.t :=
  StepResult.mk false VNone None (Some msg) false.

(** ** Workflow definitions *)

(** Modelled from the spec: [WorkflowStep] and [ProcessWorkflow] are declared
    in [src.models.process_workflows], which is not part of the sources at
    hand; the fields are the ones the executor reads. *)
Module WorkflowStep.
Record t := mk {
  id : option string;
  step_id : string;
  step_type : string;
  config : option (gmap string value);
  on_pass : option string;
  on_fail : option string;
}.
End WorkflowStep.

Module ProcessWorkflow.
Record t := mk {
  id : string;
  name : string;
  steps : list WorkflowStep.t;
}.
End ProcessWorkflow.

(** Modelled from the spec: the trigger context is an opaque value object of
    [src.models.process_workflows]; it is represented by its JSON document. *)
Record TriggerContext := { tc_document : string }.

(** Modelled from the spec: the members of [ExecutionStatus] and
    [StepExecutionStatus] are the states of section 4.2 and the two record
    statuses of section 3; their [.value] is the lower-case name, as the
    comparison with ['paused'] in [resume_workflow] shows for [PAUSED]. *)
Inductive ExecutionStatus := RUNNING | SUCCEEDED | FAILED | PAUSED.

Inductive StepExecutionStatus := STEP_SUCCEEDED | STEP_FAILED.

#[global] Instance ExecutionStatus_eq_dec : EqDecision ExecutionStatus.
Proof. solve_decision. Defined.

Definition ExecutionStatus_value (s : ExecutionStatus) : string :=
  match s with
  | RUNNING => "running"
  | SUCCEEDED => "succeeded"
  | FAILED => "failed"
  | PAUSED => "paused"
  end.

Definition StepExecutionStatus_value (s : StepExecutionStatus) : string :=
  match s with
  | STEP_SUCCEEDED => "succeeded"
  | STEP_FAILED => "failed"
  end.

(** [ExecutionStatus(s)]: the member with that value, [ValueError] otherwise. *)
Definition ExecutionStatus_of (s : string) : exn + ExecutionStatus :=
  if String.eqb s "running" then inr RUNNING
  else if String.eqb s "succeeded" then inr SUCCEEDED
  else if String.eqb s "failed" then inr FAILED
  else if String.eqb s "paused" then inr PAUSED
  else inl (Raised "ValueError" (s ++ " is not a valid ExecutionStatus")).

Definition StepExecutionStatus_of (s : string) : exn + StepExecutionStatus :=
  if String.eqb s "succeeded" then inr STEP_SUCCEEDED
  else if String.eqb s "failed" then inr STEP_FAILED
  else inl (Raised "ValueError" (s ++ " is not a valid StepExecutionStatus")).

(** ** Durable records *)

(** Modelled from the spec: the rows of [src.db_models.process_workflows]
    (section 3, WorkflowExecution and StepExecutionRecord).  Row identifiers
    of step records and the timestamps the persistence layer assigns on its
    own are left out: the interpreter neither chooses nor reads them. *)
Module WorkflowStepExecutionDb.
Record t := mk {
  step_id : option string;
  status : string;
  passed : bool;
  result_data : option string;          (* JSON text *)
  error_message : option string;
  duration_ms : Q;
}.
End WorkflowStepExecutionDb.

Module WorkflowExecutionDb.
Record t := mk {
  id : string;
  workflow_id : string;
  trigger_context : option string;      (* JSON text *)
  status : string;
  current_step_id : option string;
  success_count : nat;
  failure_count : nat;
  error_message : value;
  finished_at : option string;
  triggered_by : option string;
  step_executions : list WorkflowStepExecutionDb.t;
}.
End WorkflowExecutionDb.

(** The models returned to the caller. *)
Module WorkflowStepExecutionResult.
Record t := mk {
  step_id : option string;
  status : StepExecutionStatus;
  passed : bool;
  result_data : option payload;
  error_message : option string;
  duration_ms : Q;
}.
End WorkflowStepExecutionResult.

Module WorkflowExecution.
Record t := mk {
  id : string;
  workflow_id : string;
  trigger_context : option TriggerContext;
  status : ExecutionStatus;
  current_step_id : option string;
  success_count : nat;
  failure_count : nat;
  error_message : value;
  finished_at : option string;
  triggered_by : option string;
  step_executions : list WorkflowStepExecutionResult.t;
  workflow_name : string;
}.
End WorkflowExecution.

(** ** The world the executor runs in *)

(** What the run did, in order.  [Dispatched] and [Returned] are ghost events
    around a call of [_execute_step]; the other three are the writes to the
    execution repository, with their arguments. *)
Inductive event :=
  | Dispatched (step_id : string)
  | Returned (step_id : string) (result : StepResult.t)
  | Created (row : WorkflowExecutionDb.t)
  | StepRecorded (execution_id : string) (row : WorkflowStepExecutionDb.t)
  | StatusUpdated (execution_id : string) (status : string)
      (current_step_id : option string) (success_count failure_count : option nat)
      (error_message : value) (finished_at : option string).

Record world := World {
  heap : gmap loc (gmap string value);
  executions : gmap string WorkflowExecutionDb.t;
  workflow_names : gmap string string;   (* process_workflow_repo: id to name *)
  ticks : nat;                           (* clock readings taken so far *)
  trace : list event;
}.

Definition set_heap (h : gmap loc (gmap string value)) (w : world) : world :=
  World h (executions w) (workflow_names w) (ticks w) (trace w).

Definition set_executions (x : gmap string WorkflowExecutionDb.t) (w : world) : world :=
  World (heap w) x (workflow_names w) (ticks w) (trace w).

Definition tick (w : world) : world :=
  World (heap w) (executions w) (workflow_names w) (S (ticks w)) (trace w).

Definition log (e : event) (w : world) : world :=
  World (heap w) (executions w) (workflow_names w) (ticks w) (trace w ++ [e]).

(** ** The monad of effects *)

Inductive result (A : Type) :=
  | Ok (a : A)
  | Raise (e : exn)
  | OutOfFuel.
Arguments Ok {A} a.
Arguments Raise {A} e.
Arguments OutOfFuel {A}.

Definition M (A : Type) : Type := world -> result A * world.

Definition ret {A} (a : A) : M A := fun w => (Ok a, w).

Definition bind {A B} (m : M A) (k : A -> M B) : M B :=
  fun w =>
    match m w with
    | (Ok a, w') => k a w'
    | (Raise e, w') => (Raise e, w')
    | (OutOfFuel, w') => (OutOfFuel, w')
    end.

Definition raise {A} (e : exn) : M A := fun w => (Raise e, w).

(** [try: m  except Exception as e: handler e]. *)
Definition try_except {A} (m : M A) (handler : exn -> M A) : M A :=
  fun w =>
    match m w with
    | (Raise e, w') => handler e w'
    | r => r
    end.

Definition get_heap : M (gmap loc (gmap string value)) := fun w => (Ok (heap w), w).

Definition modify (f : world -> world) : M unit := fun w => (Ok tt, f w).

Definition lift {A} (r : exn + A) : M A :=
  match r with
  | inl e => raise e
  | inr a => ret a
  end.

Declare Scope py_scope.
Delimit Scope py_scope with py.
Notation "x <- c ;; k" := (bind c (fun x => k))
  (at level 100, c at next level, right associativity) : py_scope.
Notation "c ;;; k" := (bind c (fun _ => k))
  (at level 100, right associativity) : py_scope.
Open Scope py_scope.

(** ** The step context

    [@dataclass class StepContext]; [entity] is a reference to the dictionary
    the handlers mutate. *)
Module StepContext.
Record t := mk {
  entity : loc;
  entity_type : string;
  entity_id : string;
  entity_name : option string;
  user_email : option string;
  trigger_context : option TriggerContext;
  execution_id : string;
  workflow_id : string;
  workflow_name : string;
  step_results : gmap string (bool * value * option payload);
}.
End StepContext.

(** ** Collaborators *)

(** The value of the local variable [result] after [exec(code, ...)];
    [SDict] is a dictionary, read with [.get('passed', True)],
    [.get('message')] and [.get('data')]. *)
Inductive script_result :=
  | SAbsent
  | SDict (passed : option bool) (message : value) (data : option payload)
  | SOther (truth : bool).

(** Modelled from the spec: a row of [src.db_models.compliance]
    (section 4.1, policy_check). *)
Module CompliancePolicyDb.
Record t := mk {
  name : string;
  is_active : bool;
  rule : string;
  severity : string;
  failure_message : option string;
}.
End CompliancePolicyDb.

(** Modelled from the spec: the aggregate result of the delivery collaborator
    (section 6); [successes] lists [r.success] for each of [results]. *)
Module DeliveryResults.
Record t := mk {
  all_success : bool;
  any_success : bool;
  successes : list bool;
  errors : list string;
  to_dict : payload;
}.
End DeliveryResults.

Class Externals := {
  (** the n-th reading of [time.time()] *)
  time_time : nat -> Q;
  (** the n-th reading of [datetime.utcnow().isoformat()] *)
  utcnow_isoformat : nat -> string;
  (** [str(e)] for the faults of the runtime *)
  fault_message : fault -> string;
  (** [str(d)] for a dictionary *)
  dict_repr : gmap loc (gmap string value) -> loc -> string;
  (** [s.strip()] *)
  py_strip : string -> string;
  (** a function-level [from m import ...]: the exception it raises, if any *)
  import_module : string -> option exn;
  (** [compliance_dsl.evaluate_rule_on_object(rule, entity)] *)
  evaluate_rule_on_object :
    value -> gmap loc (gmap string value) -> loc -> exn + (bool * value);
  (** [Evaluator(entity).evaluate(Parser(Lexer(c).tokenize()).parse_expression())] *)
  evaluate_condition :
    value -> gmap loc (gmap string value) -> loc -> exn + foreign;
  (** [exec(code, {'__builtins__': {}}, local_vars)], then [local_vars.get('result')] *)
  py_exec : string -> exn + script_result;
  (** [db.get(CompliancePolicyDb, policy_id)] *)
  policy_get : value -> exn + option CompliancePolicyDb.t;
  (** the body of [DeliveryStepHandler.execute] up to [deliver]: parsing of the
      configuration, the payload, [get_delivery_service()] ([None] when it
      raises [RuntimeError]) and [delivery_service.deliver(payload, modes)] *)
  deliver :
    gmap string value -> gmap loc (gmap string value) -> loc ->
    string -> string -> option string -> exn + option DeliveryResults.t;
  (** [json.dumps] and [json.loads] on step data *)
  json_dumps : gmap loc (gmap string value) -> payload -> string;
  json_loads : string -> exn + payload;
  (** the JSON text of a trigger context, and [TriggerContext( **json.loads(s))] *)
  trigger_context_dumps : TriggerContext -> string;
  trigger_context_loads : string -> exn + TriggerContext;
}.

Section Executor.

Context `{ext : Externals}.

(** [str(e)]. *)
Definition exn_str (e : exn) : string :=
  match e with
  | Builtin f => fault_message f
  | Raised _ msg => msg
  end.

(** [f"{v}"]. *)
Definition format_value (h : gmap loc (gmap string value)) (v : value) : string :=
  match v with
  | VNone => "None"
  | VStr s => s
  | VDict l => dict_repr h l
  end.

Definition format_opt (o : option string) : string :=
  match o with
  | Some s => s
  | None => "None"
  end.

Definition import_ (m : string) : M unit :=
  match import_module m with
  | Some e => raise e
  | None => ret tt
  end.

(** [time.time()]. *)
Definition time_now : M Q := fun w => (Ok (time_time (ticks w)), tick w).

(** [datetime.utcnow().isoformat()]. *)
Definition utcnow : M string := fun w => (Ok (utcnow_isoformat (ticks w)), tick w).

(** [sep.join(items)]: a [TypeError] at the first item that is not a string. *)
Fixpoint join_from (i : nat) (sep : string) (items : list value) : exn + string :=
  match items with
  | [] => inr ""
  | v :: rest =>
      match v with
      | VStr s =>
          match rest with
          | [] => inr s
          | _ => match join_from (S i) sep rest with
                 | inr r => inr (s ++ sep ++ r)
                 | inl e => inl e
                 end
          end
      | _ => inl (Builtin (JoinItem i v))
      end
  end.

Definition py_join (sep : string) (items : list value) : M string :=
  lift (join_from 0 sep items).

(** *** Dictionaries on the heap *)

(** [{}]: a new dictionary object. *)
Definition new_dict : M loc :=
  fun w =>
    let l := fresh (dom (heap w)) in
    (Ok l, set_heap (<[l := ∅]> (heap w)) w).

(** [d.copy()]: a new dictionary object with the same entries (the values
    are shared, not copied). *)
Definition dict_copy (l : loc) : M loc :=
  fun w =>
    let l' := fresh (dom (heap w)) in
    (Ok l', set_heap (<[l' := deref (heap w) l]> (heap w)) w).

(** [d[k] = v] and [del d[k]] on a dictionary object. *)
Definition dict_setitem (l : loc) (k : string) (v : value) : M unit :=
  modify (fun w => set_heap (<[l := <[k := v]> (deref (heap w) l)]> (heap w)) w).

Definition dict_delitem (l : loc) (k : string) : M unit :=
  modify (fun w => set_heap (<[l := delete k (deref (heap w) l)]> (heap w)) w).

(** The values that pass [if not key]: a non-empty string or a non-empty
    dictionary. *)
Inductive key :=
  | KStr (k : string)
  | KDict (l : loc).

Definition as_key (h : gmap loc (gmap string value)) (v : value) : option key :=
  match v with
  | VNone => None
  | VStr s => if str_truthy s then Some (KStr s) else None
  | VDict l => if truthy h (VDict l) then Some (KDict l) else None
  end.

Definition key_value (k : key) : value :=
  match k with
  | KStr s => VStr s
  | KDict l => VDict l
  end.

(** [target[k] = v]. *)
Definition setitem (target : value) (k : key) (v : value) : M unit :=
  match target with
  | VDict t =>
      match k with
      | KStr s => dict_setitem t s v
      | KDict _ => raise (Builtin (Unhashable (key_value k)))
      end
  | _ => raise (Builtin (NoItemAssignment target))
  end.

(** [k in target]. *)
Definition contains_key (target : value) (k : key) : M bool :=
  match target with
  | VDict t =>
      match k with
      | KStr s => h <- get_heap;; ret (bool_decide (is_Some (deref h t !! s)))
      | KDict _ => raise (Builtin (Unhashable (key_value k)))
      end
  | VStr str =>
      match k with
      | KStr s => ret (contains s str)
      | KDict _ => raise (Builtin (BadLeftOperand (key_value k)))
      end
  | VNone => raise (Builtin (NotAContainer VNone))
  end.

(** [del target[k]], for a key that is in [target]. *)
Definition delitem (target : value) (k : key) : M unit :=
  match target with
  | VDict t =>
      match k with
      | KStr s => dict_delitem t s
      | KDict _ => raise (Builtin (Unhashable (key_value k)))
      end
  | _ => raise (Builtin (NoItemDeletion target))
  end.

(** [context.entity.get(k)] and [k in context.entity]. *)
Definition entity_get (ctx : StepContext.t) (k : string) : M value :=
  h <- get_heap;; ret (dict_get (deref h (StepContext.entity ctx)) k).

Definition entity_has (ctx : StepContext.t) (k : string) : M bool :=
  h <- get_heap;;
  ret (bool_decide (is_Some (deref h (StepContext.entity ctx) !! k))).

(** [except Exception as e: return StepResult(passed=False, error=str(e))]. *)
Definition on_exception (e : exn) : M StepResult.t :=
  ret (failed_with (exn_str e)).

(** *** ValidationStepHandler *)

Definition ValidationStepHandler_execute
    (_config : gmap string value) (context : StepContext.t) : M StepResult.t :=
  import_ "src.common.compliance_dsl";;;
  let rule := dict_get_default _config "rule" "" in
  h <- get_heap;;
  if negb (truthy h rule) then ret (failed_with "No rule configured")
  else
    try_except
      (r <- lift (evaluate_rule_on_object rule h (StepContext.entity context));;
       ret (StepResult.mk (fst r) (snd r)
              (Some (PDict [("rule", DVal rule)])) None false))
      on_exception.

(** *** ApprovalStepHandler *)

Definition config_or (_config : gmap string value) (k : string) (dflt : datum) : datum :=
  match _config !! k with
  | Some v => DVal v
  | None => dflt
  end.

(** The branch [elif '@' in spec: return [e.strip() for e in spec.split(',')]]
    and the final [else: return [spec]], shared by approvers and recipients. *)
Definition addresses_or_group (spec : value) : M (list value) :=
  match spec with
  | VStr s =>
      if contains "@" s then ret (map (fun e => VStr (py_strip e)) (split_comma s))
      else ret [spec]
  | VDict l =>
      h <- get_heap;;
      if bool_decide (is_Some (deref h l !! "@"))
      then raise (Builtin (NoAttribute spec "split"))
      else ret [spec]
  | VNone => raise (Builtin (NotAContainer VNone))
  end.

Definition requester (context : StepContext.t) : list value :=
  if opt_truthy (StepContext.user_email context)
  then [of_opt (StepContext.user_email context)]
  else [].

Definition _resolve_approvers (approvers : value) (context : StepContext.t)
    : M (list value) :=
  if eq_str approvers "domain_owners" then ret [VStr "domain-owner@example.com"]
  else if eq_str approvers "project_owners" then ret [VStr "project-owner@example.com"]
  else if eq_str approvers "requester" then ret (requester context)
  else addresses_or_group approvers.

Definition ApprovalStepHandler_execute
    (_config : gmap string value) (context : StepContext.t) : M StepResult.t :=
  let approvers := dict_get_default _config "approvers" "" in
  let timeout_days := config_or _config "timeout_days" (DInt 7) in
  let require_all := config_or _config "require_all" (DBool false) in
  h <- get_heap;;
  if negb (truthy h approvers) then ret (failed_with "No approvers configured")
  else
    try_except
      (resolved_approvers <- _resolve_approvers approvers context;;
       joined <- py_join ", " resolved_approvers;;
       ret (StepResult.mk true
              (VStr ("Approval requested from: " ++ joined))
              (Some (PDict [("approvers", DList resolved_approvers);
                            ("timeout_days", timeout_days);
                            ("require_all", require_all);
                            ("status", DStr "pending")]))
              None true))
      on_exception.

(** *** NotificationStepHandler *)

Definition _resolve_recipients (recipients : value) (context : StepContext.t)
    : M (list value) :=
  if eq_str recipients "requester" then ret (requester context)
  else if eq_str recipients "owner" then
    owner <- entity_get context "owner";;
    h <- get_heap;;
    ret (if truthy h owner then [owner] else [])
  else addresses_or_group recipients.

Definition _get_template_message (template : value) (context : StepContext.t)
    : M string :=
  let entity_type := StepContext.entity_type context in
  let entity_name := format_opt (StepContext.entity_name context) in
  let dflt := "Workflow notification for " ++ entity_name in
  match template with
  | VDict _ => raise (Builtin (Unhashable template))
  | VNone => ret dflt
  | VStr t =>
      ret (if String.eqb t "validation_failed" then
             "Validation failed for " ++ entity_type ++ " '" ++ entity_name ++ "'"
           else if String.eqb t "validation_passed" then
             "Validation passed for " ++ entity_type ++ " '" ++ entity_name ++ "'"
           else if String.eqb t "product_approved" then
             "Data product '" ++ entity_name ++ "' has been approved"
           else if String.eqb t "product_rejected" then
             "Data product '" ++ entity_name ++ "' has been rejected"
           else if String.eqb t "approval_requested" then
             "Approval requested for " ++ entity_type ++ " '" ++ entity_name ++ "'"
           else dflt)
  end.

Definition NotificationStepHandler_execute
    (_config : gmap string value) (context : StepContext.t) : M StepResult.t :=
  let recipients := dict_get_default _config "recipients" "" in
  let template := dict_get_default _config "template" "" in
  let custom_message := dict_get _config "custom_message" in
  h <- get_heap;;
  if negb (truthy h recipients) then ret (failed_with "No recipients configured")
  else
    try_except
      (resolved_recipients <- _resolve_recipients recipients context;;
       message <- (if truthy h custom_message then ret custom_message
                   else t <- _get_template_message template context;; ret (VStr t));;
       joined <- py_join ", " resolved_recipients;;
       ret (StepResult.mk true
              (VStr ("Notification sent to: " ++ joined))
              (Some (PDict [("recipients", DList resolved_recipients);
                            ("template", DVal template);
                            ("message", DVal message)]))
              None false))
      on_exception.

(** *** AssignTagStepHandler *)

Definition _resolve_value_source (source : value) (context : StepContext.t)
    : M value :=
  if eq_str source "current_user" then ret (of_opt (StepContext.user_email context))
  else if eq_str source "project_name" then
    project_name <- entity_get context "project_name";;
    project_id <- entity_get context "project_id";;
    h <- get_heap;;
    ret (py_or h project_name project_id)
  else if eq_str source "entity_name" then ret (of_opt (StepContext.entity_name context))
  else if eq_str source "timestamp" then now <- utcnow;; ret (VStr now)
  else ret VNone.

(** [# Update entity tags in context]: the two statements that create the
    tag mapping when it is missing and store the tag. *)
Definition update_entity_tags (context : StepContext.t) (k : key) (v : value)
    : M unit :=
  has_tags <- entity_has context "tags";;
  (if has_tags then ret tt
   else l <- new_dict;;
        dict_setitem (StepContext.entity context) "tags" (VDict l));;;
  tags <- entity_get context "tags";;
  setitem tags k v.

Definition AssignTagStepHandler_execute
    (_config : gmap string value) (context : StepContext.t) : M StepResult.t :=
  let key := dict_get_default _config "key" "" in
  let value := dict_get _config "value" in
  let value_source := dict_get _config "value_source" in
  h <- get_heap;;
  match as_key h key with
  | None => ret (failed_with "No tag key configured")
  | Some k =>
      try_except
        (resolved_value <-
           (if truthy h value_source
            then _resolve_value_source value_source context
            else ret value);;
         if negb (truthy h resolved_value)
         then ret (failed_with "Could not resolve tag value")
         else
           update_entity_tags context k resolved_value;;;
           h' <- get_heap;;
           ret (StepResult.mk true
                  (VStr ("Assigned tag " ++ format_value h' key ++ "="
                         ++ format_value h' resolved_value))
                  (Some (PDict [("key", DVal key); ("value", DVal resolved_value)]))
                  None false))
        on_exception
  end.

(** *** RemoveTagStepHandler *)

(** [# Update entity tags in context]: the tag is deleted when the entity
    has a tag mapping and the key is in it. *)
Definition remove_entity_tag (context : StepContext.t) (k : key) : M unit :=
  has_tags <- entity_has context "tags";;
  tags <- entity_get context "tags";;
  present <- (if has_tags then contains_key tags k else ret false);;
  if present then delitem tags k else ret tt.

Definition RemoveTagStepHandler_execute
    (_config : gmap string value) (context : StepContext.t) : M StepResult.t :=
  let key := dict_get_default _config "key" "" in
  h <- get_heap;;
  match as_key h key with
  | None => ret (failed_with "No tag key configured")
  | Some k =>
      try_except
        (remove_entity_tag context k;;;
         h' <- get_heap;;
         ret (StepResult.mk true
                (VStr ("Removed tag " ++ format_value h' key))
                (Some (PDict [("key", DVal key)]))
                None false))
        on_exception
  end.

(** *** ConditionalStepHandler *)

Definition ConditionalStepHandler_execute
    (_config : gmap string value) (context : StepContext.t) : M StepResult.t :=
  import_ "src.common.compliance_dsl";;;
  let condition := dict_get_default _config "condition" "" in
  h <- get_heap;;
  if negb (truthy h condition) then ret (failed_with "No condition configured")
  else
    try_except
      (result <- lift (evaluate_condition condition h (StepContext.entity context));;
       ret (StepResult.mk (foreign_truth result)
              (VStr ("Condition evaluated to: " ++ foreign_text result))
              (Some (PDict [("condition", DVal condition); ("result", DForeign result)]))
              None false))
      on_exception.

(** *** ScriptStepHandler *)

(** [safe_globals] is built and never used (the copies it holds are dropped),
    so [_execute_python] comes down to [exec] and the reading of [result]. *)
Definition _execute_python (code : value) (context : StepContext.t) : M StepResult.t :=
  try_except
    (result <- (match code with
                | VStr src => lift (py_exec src)
                | _ => raise (Builtin (BadExecSource code))
                end);;
     match result with
     | SAbsent => ret (StepResult.mk true VNone None None false)
     | SDict passed message data =>
         ret (StepResult.mk (default true passed) message data None false)
     | SOther truth => ret (StepResult.mk truth VNone None None false)
     end)
    on_exception.

Definition _execute_sql (code : value) (context : StepContext.t) : M StepResult.t :=
  ret (StepResult.mk true (VStr "SQL execution not yet implemented")
         (Some (PDict [("sql", DVal code)])) None false).

Definition ScriptStepHandler_execute
    (_config : gmap string value) (context : StepContext.t) : M StepResult.t :=
  let language := dict_get_default _config "language" "python" in
  let code := dict_get_default _config "code" "" in
  h <- get_heap;;
  if negb (truthy h code) then ret (failed_with "No code configured")
  else
    try_except
      (if eq_str language "python" then _execute_python code context
       else if eq_str language "sql" then _execute_sql code context
       else ret (failed_with ("Unsupported language: " ++ format_value h language)))
      on_exception.

(** *** PassStepHandler and FailStepHandler *)

Definition PassStepHandler_execute
    (_config : gmap string value) (context : StepContext.t) : M StepResult.t :=
  ret (StepResult.mk true (VStr "Workflow completed successfully") None None false).

Definition FailStepHandler_execute
    (_config : gmap string value) (context : StepContext.t) : M StepResult.t :=
  let message := dict_get_default _config "message" "Workflow failed" in
  ret (StepResult.mk false message None None false).

(** *** PolicyCheckStepHandler *)

Definition blank_line : string :=
  String (ascii_of_nat 10) (String (ascii_of_nat 10) EmptyString).

Definition PolicyCheckStepHandler_execute
    (_config : gmap string value) (context : StepContext.t) : M StepResult.t :=
  import_ "src.db_models.compliance";;;
  import_ "src.common.compliance_dsl";;;
  let policy_id := dict_get_default _config "policy_id" "" in
  h <- get_heap;;
  if negb (truthy h policy_id) then ret (failed_with "No policy_id configured")
  else
    try_except
      (found <- lift (policy_get policy_id);;
       match found with
       | None =>
           ret (StepResult.mk false VNone
                  (Some (PDict [("policy_id", DVal policy_id)]))
                  (Some ("Policy not found: " ++ format_value h policy_id)) false)
       | Some policy =>
           let name := CompliancePolicyDb.name policy in
           if negb (CompliancePolicyDb.is_active policy) then
             ret (StepResult.mk true
                    (VStr ("Policy '" ++ name ++ "' is inactive, skipped"))
                    (Some (PDict [("policy_id", DVal policy_id);
                                  ("policy_name", DStr name);
                                  ("skipped", DBool true)]))
                    None false)
           else
             r <- lift (evaluate_rule_on_object (VStr (CompliancePolicyDb.rule policy))
                          h (StepContext.entity context));;
             let passed := fst r in
             let technical_message := snd r in
             let message :=
               if passed then technical_message
               else if opt_truthy (CompliancePolicyDb.failure_message policy) then
                 VStr (format_opt (CompliancePolicyDb.failure_message policy)
                       ++ blank_line ++ "Technical: " ++ format_value h technical_message)
               else technical_message in
             ret (StepResult.mk passed message
                    (Some (PDict [("policy_id", DVal policy_id);
                                  ("policy_name", DStr name);
                                  ("rule", DStr (CompliancePolicyDb.rule policy));
                                  ("severity", DStr (CompliancePolicyDb.severity policy));
                                  ("failure_message",
                                   DVal (of_opt (CompliancePolicyDb.failure_message policy)));
                                  ("technical_message", DVal technical_message)]))
                    None false)
       end)
      (fun e =>
         ret (StepResult.mk false VNone
                (Some (PDict [("policy_id", DVal policy_id)]))
                (Some (exn_str e)) false)).

(** *** DeliveryStepHandler *)

Definition count_true (bs : list bool) : nat := List.length (filter (fun b => b = true) bs).

Definition DeliveryStepHandler_execute
    (_config : gmap string value) (context : StepContext.t) : M StepResult.t :=
  import_ "src.controller.delivery_service";;;
  h <- get_heap;;
  try_except
    (outcome <- lift (deliver _config h (StepContext.entity context)
                        (StepContext.entity_type context)
                        (StepContext.entity_id context)
                        (StepContext.user_email context));;
     match outcome with
     | None => ret (failed_with "Delivery service not initialized")
     | Some results =>
         let n := nat_to_string (List.length (DeliveryResults.successes results)) in
         let data := Some (DeliveryResults.to_dict results) in
         if DeliveryResults.all_success results then
           ret (StepResult.mk true (VStr ("Delivered via " ++ n ++ " mode(s)"))
                  data None false)
         else if DeliveryResults.any_success results then
           ret (StepResult.mk true
                  (VStr ("Partially delivered ("
                         ++ nat_to_string (count_true (DeliveryResults.successes results))
                         ++ "/" ++ n ++ " modes succeeded)"))
                  data None false)
         else
           ret (StepResult.mk false VNone data
                  (Some (match DeliveryResults.errors results with
                         | [] => "All delivery modes failed"
                         | errs => String.concat "; " errs
                         end))
                  false)
     end)
    on_exception.

(** *** The handler registry and the dispatch of one step *)

Inductive handler_class :=
  | ValidationStepHandler
  | ApprovalStepHandler
  | NotificationStepHandler
  | AssignTagStepHandler
  | RemoveTagStepHandler
  | ConditionalStepHandler
  | ScriptStepHandler
  | PassStepHandler
  | FailStepHandler
  | PolicyCheckStepHandler
  | DeliveryStepHandler.

(** [WorkflowExecutor.HANDLERS.get(step_type)]. *)
Definition HANDLERS_get (step_type : string) : option handler_class :=
  if String.eqb step_type "validation" then Some ValidationStepHandler
  else if String.eqb step_type "approval" then Some ApprovalStepHandler
  else if String.eqb step_type "notification" then Some NotificationStepHandler
  else if String.eqb step_type "assign_tag" then Some AssignTagStepHandler
  else if String.eqb step_type "remove_tag" then Some RemoveTagStepHandler
  else if String.eqb step_type "conditional" then Some ConditionalStepHandler
  else if String.eqb step_type "script" then Some ScriptStepHandler
  else if String.eqb step_type "pass" then Some PassStepHandler
  else if String.eqb step_type "fail" then Some FailStepHandler
  else if String.eqb step_type "policy_check" then Some PolicyCheckStepHandler
  else if String.eqb step_type "delivery" then Some DeliveryStepHandler
  else None.

(** [handler_class(self._db, config).execute(context)]. *)
Definition execute (cls : handler_class)
    : gmap string value -> StepContext.t -> M StepResult.t :=
  match cls with
  | ValidationStepHandler => ValidationStepHandler_execute
  | ApprovalStepHandler => ApprovalStepHandler_execute
  | NotificationStepHandler => NotificationStepHandler_execute
  | AssignTagStepHandler => AssignTagStepHandler_execute
  | RemoveTagStepHandler => RemoveTagStepHandler_execute
  | ConditionalStepHandler => ConditionalStepHandler_execute
  | ScriptStepHandler => ScriptStepHandler_execute
  | PassStepHandler => PassStepHandler_execute
  | FailStepHandler => FailStepHandler_execute
  | PolicyCheckStepHandler => PolicyCheckStepHandler_execute
  | DeliveryStepHandler => DeliveryStepHandler_execute
  end.

(** [WorkflowExecutor._execute_step]. *)
Definition _execute_step (step : WorkflowStep.t) (context : StepContext.t)
    : M StepResult.t :=
  let step_type := WorkflowStep.step_type step in
  match HANDLERS_get step_type with
  | None => ret (failed_with ("Unknown step type: " ++ step_type))
  | Some handler_class =>
      try_except
        (execute handler_class (default ∅ (WorkflowStep.config step)) context)
        on_exception
  end.

(** ** The execution repository *)

Definition append_step (row : WorkflowStepExecutionDb.t)
    (x : WorkflowExecutionDb.t) : WorkflowExecutionDb.t :=
  WorkflowExecutionDb.mk
    (WorkflowExecutionDb.id x) (WorkflowExecutionDb.workflow_id x)
    (WorkflowExecutionDb.trigger_context x) (WorkflowExecutionDb.status x)
    (WorkflowExecutionDb.current_step_id x) (WorkflowExecutionDb.success_count x)
    (WorkflowExecutionDb.failure_count x) (WorkflowExecutionDb.error_message x)
    (WorkflowExecutionDb.finished_at x) (WorkflowExecutionDb.triggered_by x)
    (WorkflowExecutionDb.step_executions x ++ [row]).

Definition or_keep {A} (new : option A) (old : A) : A := default old new.

Definition write_status (status : string) (current_step_id : option string)
    (success_count failure_count : option nat) (error_message : value)
    (finished_at : option string) (x : WorkflowExecutionDb.t) : WorkflowExecutionDb.t :=
  WorkflowExecutionDb.mk
    (WorkflowExecutionDb.id x) (WorkflowExecutionDb.workflow_id x)
    (WorkflowExecutionDb.trigger_context x) status
    (match current_step_id with
     | Some c => Some c
     | None => WorkflowExecutionDb.current_step_id x
     end)
    (or_keep success_count (WorkflowExecutionDb.success_count x))
    (or_keep failure_count (WorkflowExecutionDb.failure_count x))
    (match error_message with
     | VNone => WorkflowExecutionDb.error_message x
     | m => m
     end)
    (match finished_at with
     | Some t => Some t
     | None => WorkflowExecutionDb.finished_at x
     end)
    (WorkflowExecutionDb.triggered_by x) (WorkflowExecutionDb.step_executions x).

(** Modelled from the spec: what a write does to the stored executions
    (section 6, Execution Repository).  A created row is stored under its
    identifier; step records are append-only (section 3); [update_status]
    always writes the status, and an optional argument that is [None] leaves
    its column as it is. *)
Definition apply_event (ev : event) (x : gmap string WorkflowExecutionDb.t)
    : gmap string WorkflowExecutionDb.t :=
  match ev with
  | Dispatched _ | Returned _ _ => x
  | Created row => <[WorkflowExecutionDb.id row := row]> x
  | StepRecorded execution_id row => alter (append_step row) execution_id x
  | StatusUpdated execution_id status current_step_id success_count failure_count
      error_message finished_at =>
      alter (write_status status current_step_id success_count failure_count
               error_message finished_at) execution_id x
  end.

(** A write, or a ghost event: it is logged and applied. *)
Definition emit (ev : event) : M unit :=
  fun w => (Ok tt, log ev (set_executions (apply_event ev (executions w)) w)).

(** Modelled from the spec: [workflow_execution_repo.create] of
    [src.repositories.process_workflows_repository] (section 6: create gives
    a new execution, implicitly running, section 4.2 step 1).  The new row
    gets an identifier no stored execution has. *)
Definition workflow_execution_repo_create
    (workflow_id : string) (trigger_context : option TriggerContext)
    (triggered_by : option string) : M string :=
  fun w =>
    let id := fresh (dom (executions w)) in
    let row :=
      WorkflowExecutionDb.mk id workflow_id
        (trigger_context_dumps <$> trigger_context)
        (ExecutionStatus_value RUNNING) None 0 0 VNone None triggered_by [] in
    match emit (Created row) w with
    | (_, w') => (Ok id, w')
    end.

(** Modelled from the spec: [workflow_execution_repo.add_step_execution]
    (section 6); the data of a step is stored as JSON text, which is what
    [_db_to_model] reads back. *)
Definition workflow_execution_repo_add_step_execution
    (execution_id : string) (step_id : option string) (status : string)
    (passed : bool) (result_data : option payload) (error_message : option string)
    (duration_ms : Q) : M unit :=
  h <- get_heap;;
  emit (StepRecorded execution_id
          (WorkflowStepExecutionDb.mk step_id status passed
             (json_dumps h <$> result_data) error_message duration_ms)).

(** Modelled from the spec: [workflow_execution_repo.update_status]
    (section 6). *)
Definition workflow_execution_repo_update_status
    (execution_id : string) (status : string) (current_step_id : option string)
    (success_count failure_count : option nat) (error_message : value)
    (finished_at : option string) : M unit :=
  emit (StatusUpdated execution_id status current_step_id success_count
          failure_count error_message finished_at).

(** Modelled from the spec: [workflow_execution_repo.get] and
    [process_workflow_repo.get] (section 6); of the workflow row only the
    name is read. *)
Definition workflow_execution_repo_get (execution_id : string)
    : M (option WorkflowExecutionDb.t) :=
  fun w => (Ok (executions w !! execution_id), w).

Definition process_workflow_repo_get (workflow_id : string) : M (option string) :=
  fun w => (Ok (workflow_names w !! workflow_id), w).

(** ** The executor *)

Fixpoint mapM {A B} (f : A -> M B) (xs : list A) : M (list B) :=
  match xs with
  | [] => ret []
  | x :: rest => y <- f x;; ys <- mapM f rest;; ret (y :: ys)
  end.

Definition step_to_model (se : WorkflowStepExecutionDb.t)
    : M WorkflowStepExecutionResult.t :=
  status <- lift (StepExecutionStatus_of (WorkflowStepExecutionDb.status se));;
  result_data <-
    (match WorkflowStepExecutionDb.result_data se with
     | Some text =>
         if str_truthy text then d <- lift (json_loads text);; ret (Some d)
         else ret None
     | None => ret None
     end);;
  ret (WorkflowStepExecutionResult.mk
         (WorkflowStepExecutionDb.step_id se) status
         (WorkflowStepExecutionDb.passed se) result_data
         (WorkflowStepExecutionDb.error_message se)
         (WorkflowStepExecutionDb.duration_ms se)).

(** [except (json.JSONDecodeError, TypeError): pass]. *)
Definition decode_or_type_error (e : exn) : bool :=
  String.eqb (exn_class e) "JSONDecodeError" || String.eqb (exn_class e) "TypeError".

(** [WorkflowExecutor._db_to_model]. *)
Definition _db_to_model (db_execution : WorkflowExecutionDb.t) (workflow_name : string)
    : M WorkflowExecution.t :=
  trigger_context <-
    (match WorkflowExecutionDb.trigger_context db_execution with
     | Some text =>
         if str_truthy text then
           match trigger_context_loads text with
           | inr tc => ret (Some tc)
           | inl e => if decode_or_type_error e then ret None else raise e
           end
         else ret None
     | None => ret None
     end);;
  step_executions <- mapM step_to_model (WorkflowExecutionDb.step_executions db_execution);;
  status <- lift (ExecutionStatus_of (WorkflowExecutionDb.status db_execution));;
  ret (WorkflowExecution.mk
         (WorkflowExecutionDb.id db_execution)
         (WorkflowExecutionDb.workflow_id db_execution)
         trigger_context status
         (WorkflowExecutionDb.current_step_id db_execution)
         (WorkflowExecutionDb.success_count db_execution)
         (WorkflowExecutionDb.failure_count db_execution)
         (WorkflowExecutionDb.error_message db_execution)
         (WorkflowExecutionDb.finished_at db_execution)
         (WorkflowExecutionDb.triggered_by db_execution)
         step_executions workflow_name).

(** The local variables of [execute_workflow] that the loop reads and writes. *)
Record locals := Locals {
  context : StepContext.t;
  success_count : nat;
  failure_count : nat;
  current_step_id : option string;
  final_status : ExecutionStatus;
  error_message : value;
}.

Inductive control := Continue | Break.

(** [context.step_results[step_id] = {'passed': ..., 'message': ..., 'data': ...}]. *)
Definition store_result (step_id : string) (result : StepResult.t)
    (c : StepContext.t) : StepContext.t :=
  StepContext.mk
    (StepContext.entity c) (StepContext.entity_type c) (StepContext.entity_id c)
    (StepContext.entity_name c) (StepContext.user_email c)
    (StepContext.trigger_context c) (StepContext.execution_id c)
    (StepContext.workflow_id c) (StepContext.workflow_name c)
    (<[step_id := (StepResult.passed result, StepResult.message result,
                   StepResult.data result)]> (StepContext.step_results c)).

(** [steps_by_id = {s.step_id: s for s in workflow.steps}]: a later step of
    the same [step_id] replaces an earlier one. *)
Definition index_steps (steps : list WorkflowStep.t) : gmap string WorkflowStep.t :=
  foldl (fun m s => <[WorkflowStep.step_id s := s]> m) ∅ steps.

(** One pass through the body of [while current_step_id:], entered with
    [current_step_id = Some current], a non-empty string. *)
Definition loop_body (steps_by_id : gmap string WorkflowStep.t) (execution_id : string)
    (current : string) (l : locals) : M (control * locals) :=
  match steps_by_id !! current with
  | None =>
      ret (Break,
           Locals (context l) (success_count l) (failure_count l) (Some current)
             FAILED (VStr ("Step not found: " ++ current)))
  | Some step =>
      (* Execute step *)
      start_time <- time_now;;
      emit (Dispatched (WorkflowStep.step_id step));;;
      result <- _execute_step step (context l);;
      emit (Returned (WorkflowStep.step_id step) result);;;
      end_time <- time_now;;
      let duration_ms := Qmult (Qminus end_time start_time) (inject_Z 1000) in
      (* Record step execution *)
      let step_status :=
        if StepResult.passed result then STEP_SUCCEEDED else STEP_FAILED in
      workflow_execution_repo_add_step_execution execution_id
        (WorkflowStep.id step) (StepExecutionStatus_value step_status)
        (StepResult.passed result) (StepResult.data result)
        (StepResult.error result) duration_ms;;;
      (* Store result in context for subsequent steps *)
      let context' := store_result (WorkflowStep.step_id step) result (context l) in
      (* Update counters *)
      let success_count' :=
        if StepResult.passed result then S (success_count l) else success_count l in
      let failure_count' :=
        if StepResult.passed result then failure_count l else S (failure_count l) in
      (* Check for blocking step *)
      if StepResult.blocking result then
        workflow_execution_repo_update_status execution_id
          (ExecutionStatus_value PAUSED) (Some current)
          (Some success_count') (Some failure_count') VNone None;;;
        ret (Break,
             Locals context' success_count' failure_count' (Some current)
               PAUSED (error_message l))
      else
        (* Determine next step *)
        let next :=
          if StepResult.passed result then WorkflowStep.on_pass step
          else WorkflowStep.on_fail step in
        (* If no next step, we're done *)
        if opt_truthy next then
          ret (Continue,
               Locals context' success_count' failure_count' next
                 (final_status l) (error_message l))
        else if StepResult.passed result then
          ret (Continue,
               Locals context' success_count' failure_count' next
                 SUCCEEDED (error_message l))
        else
          h <- get_heap;;
          ret (Continue,
               Locals context' success_count' failure_count' next FAILED
                 (py_or h (StepResult.message result) (of_opt (StepResult.error result))))
  end.

Definition out_of_fuel {A} : M A := fun w => (OutOfFuel, w).

(** [while current_step_id: ...]. *)
Fixpoint while_loop (fuel : nat) (steps_by_id : gmap string WorkflowStep.t)
    (execution_id : string) (l : locals) : M locals :=
  match current_step_id l with
  | Some current =>
      if str_truthy current then
        match fuel with
        | O => out_of_fuel
        | S fuel' =>
            r <- loop_body steps_by_id execution_id current l;;
            match fst r with
            | Break => ret (snd r)
            | Continue => while_loop fuel' steps_by_id execution_id (snd r)
            end
        end
      else ret l
  | None => ret l
  end.

(** [WorkflowExecutor.execute_workflow]; [entity] is the caller's dictionary. *)
Definition execute_workflow (fuel : nat) (workflow : ProcessWorkflow.t) (entity : loc)
    (entity_type entity_id : string) (entity_name user_email : option string)
    (trigger_context : option TriggerContext) (blocking : bool)
    : M WorkflowExecution.t :=
  (* Create execution record *)
  execution_id <- workflow_execution_repo_create
                    (ProcessWorkflow.id workflow) trigger_context user_email;;
  (* Build step context *)
  entity_copy <- dict_copy entity;;
  let context :=
    StepContext.mk entity_copy entity_type entity_id entity_name user_email
      trigger_context execution_id (ProcessWorkflow.id workflow)
      (ProcessWorkflow.name workflow) ∅ in
  (* Build step lookup *)
  let steps_by_id := index_steps (ProcessWorkflow.steps workflow) in
  (* Execute steps *)
  let current_step_id :=
    match ProcessWorkflow.steps workflow with
    | s :: _ => Some (WorkflowStep.step_id s)
    | [] => None
    end in
  l <- while_loop fuel steps_by_id execution_id
         (Locals context 0 0 current_step_id RUNNING VNone);;
  (* Finalize execution *)
  (if bool_decide (final_status l ≠ PAUSED) then
     finished_at <- utcnow;;
     workflow_execution_repo_update_status execution_id
       (ExecutionStatus_value (final_status l)) None
       (Some (success_count l)) (Some (failure_count l))
       (error_message l) (Some finished_at)
   else ret tt);;;
  (* Return execution with results *)
  db_execution <- workflow_execution_repo_get execution_id;;
  match db_execution with
  | Some row => _db_to_model row (ProcessWorkflow.name workflow)
  | None => raise (Builtin (NoAttribute VNone "trigger_context"))
  end.

(** [WorkflowExecutor.resume_workflow]; the continuation is a TODO in the
    source, so nothing is written. *)
Definition resume_workflow (execution_id : string) (step_result : bool)
    (result_data : option payload) : M (option WorkflowExecution.t) :=
  db_execution <- workflow_execution_repo_get execution_id;;
  match db_execution with
  | None => ret None
  | Some row =>
      if negb (String.eqb (WorkflowExecutionDb.status row) "paused") then ret None
      else
        (* Get workflow *)
        db_workflow <- process_workflow_repo_get (WorkflowExecutionDb.workflow_id row);;
        match db_workflow with
        | None => ret None
        | Some workflow_name =>
            model <- _db_to_model row workflow_name;;
            ret (Some model)
        end
  end.

(** ** Runs, seen through their events *)

(** The stored executions after a sequence of writes. *)
Definition replay (evs : list event) (x : gmap string WorkflowExecutionDb.t)
    : gmap string WorkflowExecutionDb.t :=
  foldl (fun m ev => apply_event ev m) x evs.

(** The events a computation added to the trace. *)
Definition new_events (w w' : world) : list event :=
  drop (List.length (trace w)) (trace w').

(** Number of step dispatches, of outcomes that passed and that failed, and
    of step records written for an execution. *)
Fixpoint dispatches (evs : list event) : nat :=
  match evs with
  | [] => 0
  | Dispatched _ :: rest => S (dispatches rest)
  | _ :: rest => dispatches rest
  end.

Fixpoint passes (evs : list event) : nat :=
  match evs with
  | [] => 0
  | Returned _ result :: rest =>
      if StepResult.passed result then S (passes rest) else passes rest
  | _ :: rest => passes rest
  end.

Fixpoint failures (evs : list event) : nat :=
  match evs with
  | [] => 0
  | Returned _ result :: rest =>
      if StepResult.passed result then failures rest else S (failures rest)
  | _ :: rest => failures rest
  end.

Fixpoint records (evs : list event) : nat :=
  match evs with
  | [] => 0
  | StepRecorded _ _ :: rest => S (records rest)
  | _ :: rest => records rest
  end.

(** The step records written, in order. *)
Fixpoint recorded_rows (evs : list event) : list WorkflowStepExecutionDb.t :=
  match evs with
  | [] => []
  | StepRecorded _ row :: rest => row :: recorded_rows rest
  | _ :: rest => recorded_rows rest
  end.

(** [row] is the step record the loop writes for the outcome [result] of
    [step]: status, passed, data, error and a duration between two readings
    of the clock. *)
Definition recorded (step : WorkflowStep.t) (result : StepResult.t)
    (row : WorkflowStepExecutionDb.t) : Prop :=
  WorkflowStepExecutionDb.step_id row = WorkflowStep.id step
  ∧ WorkflowStepExecutionDb.status row
    = StepExecutionStatus_value
        (if StepResult.passed result then STEP_SUCCEEDED else STEP_FAILED)
  ∧ WorkflowStepExecutionDb.passed row = StepResult.passed result
  ∧ (∃ h, WorkflowStepExecutionDb.result_data row
          = json_dumps h <$> StepResult.data result)
  ∧ WorkflowStepExecutionDb.error_message row = StepResult.error result
  ∧ (∃ k0 k1, (k0 < k1)%nat
       ∧ WorkflowStepExecutionDb.duration_ms row
         = Qmult (Qminus (time_time k1) (time_time k0)) (inject_Z 1000)).

(** The branch taken after an outcome. *)
Definition next_step_id (step : WorkflowStep.t) (result : StepResult.t)
    : option string :=
  if StepResult.passed result then WorkflowStep.on_pass step
  else WorkflowStep.on_fail step.

(** The locals after a step: the result is stored, one counter is bumped. *)
Definition after_step (l : locals) (step : WorkflowStep.t) (result : StepResult.t)
    (current : option string) (status : ExecutionStatus) (error : value) : locals :=
  Locals (store_result (WorkflowStep.step_id step) result (context l))
    (if StepResult.passed result then S (success_count l) else success_count l)
    (if StepResult.passed result then failure_count l else S (failure_count l))
    current status error.

(** The three events of every pass through the loop body. *)
Definition step_events (execution_id : string) (step : WorkflowStep.t)
    (result : StepResult.t) (row : WorkflowStepExecutionDb.t) : list event :=
  [Dispatched (WorkflowStep.step_id step);
   Returned (WorkflowStep.step_id step) result;
   StepRecorded execution_id row].

(** What one pass through the loop body leaves behind for the outcome
    [result] of [step]: the control decision with the new locals, and the
    write of the pause, if any.  [hf] is the heap at the end of the pass. *)
Definition body_outcome (hf : gmap loc (gmap string value)) (current : string)
    (l : locals) (step : WorkflowStep.t) (result : StepResult.t) : control * locals :=
  if StepResult.blocking result then
    (Break, after_step l step result (Some current) PAUSED (error_message l))
  else if opt_truthy (next_step_id step result) then
    (Continue, after_step l step result (next_step_id step result)
                 (final_status l) (error_message l))
  else
    (Continue, after_step l step result (next_step_id step result)
                 (if StepResult.passed result then SUCCEEDED else FAILED)
                 (if StepResult.passed result then error_message l
                  else py_or hf (StepResult.message result)
                         (of_opt (StepResult.error result)))).

Definition pause_events (execution_id current : string) (l : locals)
    (step : WorkflowStep.t) (result : StepResult.t) : list event :=
  if StepResult.blocking result then
    let l' := after_step l step result (Some current) PAUSED (error_message l) in
    [StatusUpdated execution_id (ExecutionStatus_value PAUSED) (Some current)
       (Some (success_count l')) (Some (failure_count l')) VNone None]
  else [].

(** The loop as a relation between the locals at its head, the events it
    adds and its result; [hf] is the heap when the loop is left. *)
Inductive loop_trace (steps_by_id : gmap string WorkflowStep.t)
    (execution_id : string) (hf : gmap loc (gmap string value))
    : locals -> list event -> result locals -> Prop :=
  | loop_not_entered l :
      opt_truthy (current_step_id l) = false ->
      loop_trace steps_by_id execution_id hf l [] (Ok l)
  | loop_out_of_fuel l :
      opt_truthy (current_step_id l) = true ->
      loop_trace steps_by_id execution_id hf l [] OutOfFuel
  | loop_step_missing l current :
      current_step_id l = Some current ->
      str_truthy current = true ->
      steps_by_id !! current = None ->
      loop_trace steps_by_id execution_id hf l []
        (Ok (Locals (context l) (success_count l) (failure_count l) (Some current)
               FAILED (VStr ("Step not found: " ++ current))))
  | loop_paused l current step result row :
      current_step_id l = Some current ->
      str_truthy current = true ->
      steps_by_id !! current = Some step ->
      recorded step result row ->
      StepResult.blocking result = true ->
      let l' := after_step l step result (Some current) PAUSED (error_message l) in
      loop_trace steps_by_id execution_id hf l
        (step_events execution_id step result row
         ++ [StatusUpdated execution_id (ExecutionStatus_value PAUSED) (Some current)
               (Some (success_count l')) (Some (failure_count l')) VNone None])
        (Ok l')
  | loop_finished l current step result row :
      current_step_id l = Some current ->
      str_truthy current = true ->
      steps_by_id !! current = Some step ->
      recorded step result row ->
      StepResult.blocking result = false ->
      opt_truthy (next_step_id step result) = false ->
      loop_trace steps_by_id execution_id hf l
        (step_events execution_id step result row)
        (Ok (after_step l step result (next_step_id step result)
               (if StepResult.passed result then SUCCEEDED else FAILED)
               (if StepResult.passed result then error_message l
                else py_or hf (StepResult.message result)
                       (of_opt (StepResult.error result)))))
  | loop_continued l current step result row evs r :
      current_step_id l = Some current ->
      str_truthy current = true ->
      steps_by_id !! current = Some step ->
      recorded step result row ->
      StepResult.blocking result = false ->
      opt_truthy (next_step_id step result) = true ->
      loop_trace steps_by_id execution_id hf
        (after_step l step result (next_step_id step result)
           (final_status l) (error_message l)) evs r ->
      loop_trace steps_by_id execution_id hf l
        (step_events execution_id step result row ++ evs) r.

(** The row [create] stores for a new execution. *)
Definition created_row (w : world) (workflow_id : string)
    (trigger_context : option TriggerContext) (triggered_by : option string)
    : WorkflowExecutionDb.t :=
  WorkflowExecutionDb.mk (fresh (dom (executions w))) workflow_id
    (trigger_context_dumps <$> trigger_context)
    (ExecutionStatus_value RUNNING) None 0 0 VNone None triggered_by [].

(** The locals with which [execute_workflow] enters its loop. *)
Definition initial_locals (w : world) (workflow : ProcessWorkflow.t)
    (entity_type entity_id : string) (entity_name user_email : option string)
    (trigger_context : option TriggerContext) : locals :=
  Locals
    (StepContext.mk (fresh (dom (heap w))) entity_type entity_id entity_name
       user_email trigger_context (fresh (dom (executions w)))
       (ProcessWorkflow.id workflow) (ProcessWorkflow.name workflow) ∅)
    0 0
    (match ProcessWorkflow.steps workflow with
     | s :: _ => Some (WorkflowStep.step_id s)
     | [] => None
     end)
    RUNNING VNone.

(** The write that closes a run that is not paused. *)
Definition final_events (execution_id : string) (r : result locals)
    (finished_at : string) : list event :=
  match r with
  | Ok l =>
      if bool_decide (final_status l ≠ PAUSED) then
        [StatusUpdated execution_id (ExecutionStatus_value (final_status l)) None
           (Some (success_count l)) (Some (failure_count l)) (error_message l)
           (Some finished_at)]
      else []
  | _ => []
  end.

(** A computation that leaves the repository and the trace alone, does not
    turn the clock back and does not run out of fuel: what every handler is. *)
Definition silent {A} (m : M A) : Prop :=
  ∀ w, trace (m w).2 = trace w
       ∧ executions (m w).2 = executions w
       ∧ workflow_names (m w).2 = workflow_names w
       ∧ (ticks w <= ticks (m w).2)%nat
       ∧ (m w).1 ≠ OutOfFuel.

(** A computation that only computes: the world is left as it is. *)
Definition stateless {A} (m : M A) : Prop :=
  ∀ w, (m w).2 = w ∧ (m w).1 ≠ OutOfFuel.

(** ** The tag handlers as functions on the heap *)

(** The value [_resolve_value_source] returns when the clock reads [now]. *)
Definition source_value (h : gmap loc (gmap string value)) (now : string)
    (source : value) (context : StepContext.t) : value :=
  if eq_str source "current_user" then of_opt (StepContext.user_email context)
  else if eq_str source "project_name" then
    py_or h (dict_get (deref h (StepContext.entity context)) "project_name")
      (dict_get (deref h (StepContext.entity context)) "project_id")
  else if eq_str source "entity_name" then of_opt (StepContext.entity_name context)
  else if eq_str source "timestamp" then VStr now
  else VNone.

(** The heap [update_entity_tags] leaves (lemma [update_entity_tags_heap]). *)
Definition store_tag (h : gmap loc (gmap string value)) (e : loc) (k : key)
    (v : value) : gmap loc (gmap string value) :=
  let h' :=
    if bool_decide (is_Some (deref h e !! "tags")) then h
    else
      let l := fresh (dom h) in
      <[e := <["tags" := VDict l]> (deref (<[l := ∅]> h) e)]> (<[l := ∅]> h) in
  match dict_get (deref h' e) "tags", k with
  | VDict t, KStr s => <[t := <[s := v]> (deref h' t)]> h'
  | _, _ => h'
  end.

(** The heap [AssignTagStepHandler.execute] leaves (lemma [assign_tag_heap]). *)
Definition assign_tag_effect (h : gmap loc (gmap string value)) (now : string)
    (_config : gmap string value) (context : StepContext.t)
    : gmap loc (gmap string value) :=
  let value_source := dict_get _config "value_source" in
  match as_key h (dict_get_default _config "key" "") with
  | None => h
  | Some k =>
      let resolved_value :=
        if truthy h value_source then source_value h now value_source context
        else dict_get _config "value" in
      if negb (truthy h resolved_value) then h
      else store_tag h (StepContext.entity context) k resolved_value
  end.

(** The heap [remove_entity_tag] leaves (lemma [remove_entity_tag_heap]). *)
Definition drop_tag (h : gmap loc (gmap string value)) (e : loc) (k : key)
    : gmap loc (gmap string value) :=
  if bool_decide (is_Some (deref h e !! "tags")) then
    match dict_get (deref h e) "tags", k with
    | VDict t, KStr s =>
        if bool_decide (is_Some (deref h t !! s))
        then <[t := delete s (deref h t)]> h
        else h
    | _, _ => h
    end
  else h.

(** The heap [RemoveTagStepHandler.execute] leaves (lemma [remove_tag_heap]). *)
Definition remove_tag_effect (h : gmap loc (gmap string value))
    (_config : gmap string value) (context : StepContext.t)
    : gmap loc (gmap string value) :=
  match as_key h (dict_get_default _config "key" "") with
  | None => h
  | Some k => drop_tag h (StepContext.entity context) k
  end.



End Executor.

(** ** Notions used to state further properties *)

(** A computation whose results all satisfy [P]. *)
Definition ensures {A} (P : A -> Prop) (m : M A) : Prop :=
  ∀ w a w', m w = (Ok a, w') -> P a.

(** Number of commas in a string. *)
Fixpoint count_commas (s : string) : nat :=
  match s with
  | EmptyString => 0
  | String c r => if Ascii.eqb c ","%char then S (count_commas r) else count_commas r
  end.

(** The outcomes of a run, in order: the step id and the result of every
    [Returned] event. *)
Fixpoint returns (evs : list event) : list (string * StepResult.t) :=
  match evs with
  | [] => []
  | Returned sid result :: rest => (sid, result) :: returns rest
  | _ :: rest => returns rest
  end.

(** The outcomes [rs] walk the step graph from [cur]: each outcome is that
    of the step the walk has reached, and the walk goes on along the edge
    the outcome selects. *)
Fixpoint follows (steps_by_id : gmap string WorkflowStep.t) (cur : option string)
    (rs : list (string * StepResult.t)) : Prop :=
  match rs with
  | [] => True
  | (sid, result) :: rest =>
      cur = Some sid
      ∧ match steps_by_id !! sid with
        | Some step => follows steps_by_id (next_step_id step result) rest
        | None => False
        end
  end.

(** The execution a write is addressed to. *)
Definition written_execution (ev : event) : option string :=
  match ev with
  | Dispatched _ | Returned _ _ => None
  | Created row => Some (WorkflowExecutionDb.id row)
  | StepRecorded execution_id _ => Some execution_id
  | StatusUpdated execution_id _ _ _ _ _ _ => Some execution_id
  end.

(** A write addressed to the execution [eid], or no write at all. *)
Definition own_write (eid : string) (ev : event) : Prop :=
  written_execution ev = None ∨ written_execution ev = Some eid.

(** The step ids of a list of steps. *)
Definition step_ids (steps : list WorkflowStep.t) : list string :=
  map WorkflowStep.step_id steps.




(** The world in which [execute_workflow] enters its loop: the execution has
    been created and the entity copied. *)
Definition loop_entry_world `{ext : Externals} (w : world) (workflow_id : string)
    (trigger_context : option TriggerContext) (triggered_by : option string)
    (entity : loc) : world :=
  let row := created_row w workflow_id trigger_context triggered_by in
  set_heap (<[fresh (dom (heap w)) := deref (heap w) entity]> (heap w))
    (log (Created row)
       (set_executions (<[WorkflowExecutionDb.id row := row]> (executions w)) w)).

(** Number of status updates among the events. *)
Fixpoint status_updates (evs : list event) : nat :=
  match evs with
  | [] => 0
  | StatusUpdated _ _ _ _ _ _ _ :: rest => S (status_updates rest)
  | _ :: rest => status_updates rest
  end.

(** The caller's dictionary [entity] holds [d0], the step context works on
    the dictionary [copy], and the tag dictionary the copy refers to, if
    any, is neither of the two. *)
Definition protected (h : gmap loc (gmap string value)) (entity copy : loc)
    (d0 : gmap string value) : Prop :=
  deref h entity = d0
  ∧ is_Some (h !! entity)
  ∧ is_Some (h !! copy)
  ∧ copy ≠ entity
  ∧ match deref h copy !! "tags" with
    | Some (VDict t) => t ≠ entity ∧ t ≠ copy
    | _ => True
    end.

(** What a step model takes over from its row. *)
Definition mirrors_step (se : WorkflowStepExecutionDb.t)
    (m : WorkflowStepExecutionResult.t) : Prop :=
  WorkflowStepExecutionResult.step_id m = WorkflowStepExecutionDb.step_id se
  ∧ StepExecutionStatus_value (WorkflowStepExecutionResult.status m)
    = WorkflowStepExecutionDb.status se
  ∧ WorkflowStepExecutionResult.passed m = WorkflowStepExecutionDb.passed se
  ∧ WorkflowStepExecutionResult.error_message m
    = WorkflowStepExecutionDb.error_message se
  ∧ WorkflowStepExecutionResult.duration_ms m = WorkflowStepExecutionDb.duration_ms se.

(** The row [x] with its trigger context left out. *)
Definition without_trigger_context (x : WorkflowExecutionDb.t) : WorkflowExecutionDb.t :=
  WorkflowExecutionDb.mk
    (WorkflowExecutionDb.id x) (WorkflowExecutionDb.workflow_id x) None
    (WorkflowExecutionDb.status x) (WorkflowExecutionDb.current_step_id x)
    (WorkflowExecutionDb.success_count x) (WorkflowExecutionDb.failure_count x)
    (WorkflowExecutionDb.error_message x) (WorkflowExecutionDb.finished_at x)
    (WorkflowExecutionDb.triggered_by x) (WorkflowExecutionDb.step_executions x).

(** ** A concrete environment

    Used to run the executor on the example workflows below. *)

Definition reference_externals : Externals := {|
  time_time n := inject_Z (Z.of_nat n);
  utcnow_isoformat n := "2026-01-01T00:00:0" ++ nat_to_string n;
  fault_message f := "TypeError";
  dict_repr h l := "{...}";
  py_strip s := s;
  import_module m := None;
  evaluate_rule_on_object r h l := inl (Raised "ValueError" "no rule engine");
  evaluate_condition c h l := inl (Raised "ValueError" "no rule engine");
  py_exec c := inr SAbsent;
  policy_get p := inr None;
  deliver c h l a b u := inr None;
  json_dumps h p := "{}";
  json_loads s := inr (PDict []);
  trigger_context_dumps tc := tc_document tc;
  trigger_context_loads s := inr {| tc_document := s |};
|}.

(** ** Example workflows *)

(** One step of kind [pass] whose [on_pass] edge leads back to itself. *)
Definition self_loop_step : WorkflowStep.t :=
  WorkflowStep.mk (Some "step-1") "s" "pass" None (Some "s") None.

Definition self_loop_workflow : ProcessWorkflow.t :=
  ProcessWorkflow.mk "wf-loop" "self loop" [self_loop_step].

(** An approval requested from the user who triggered the run. *)
Definition approval_step : WorkflowStep.t :=
  WorkflowStep.mk (Some "step-a1") "a1" "approval"
    (Some {[ "approvers" := VStr "requester" ]}) None None.

Definition approval_workflow : ProcessWorkflow.t :=
  ProcessWorkflow.mk "wf-approval" "approval" [approval_step].

(** A terminal failure with a configured message. *)
Definition fail_step : WorkflowStep.t :=
  WorkflowStep.mk (Some "step-f1") "fail1" "fail"
    (Some {[ "message" := VStr "rejected" ]}) None None.

Definition fail_workflow : ProcessWorkflow.t :=
  ProcessWorkflow.mk "wf-fail" "fail" [fail_step].

(** Two steps, of which only the first is reached. *)
Definition first_of_two_workflow : ProcessWorkflow.t :=
  ProcessWorkflow.mk "wf-two" "two steps"
    [WorkflowStep.mk (Some "step-1") "s1" "pass" None None (Some "s2");
     WorkflowStep.mk (Some "step-2") "s2" "fail" None None None].

(** A tag assignment with an explicit value, and one stamped by the clock. *)
Definition assign_tag_step : WorkflowStep.t :=
  WorkflowStep.mk (Some "step-t1") "t1" "assign_tag"
    (Some {[ "key" := VStr "reviewed"; "value" := VStr "yes" ]}) None None.

Definition assign_tag_workflow : ProcessWorkflow.t :=
  ProcessWorkflow.mk "wf-tag" "tag" [assign_tag_step].



(** The caller's entity is the dictionary at location 1; its ['tags'] entry
    refers to the dictionary at location 2, which is empty. *)
Definition caller_entity : loc := 1%positive.

Definition caller_tags : loc := 2%positive.

Definition caller_world : world :=
  World {[ caller_entity := {[ "name" := VStr "orders"; "tags" := VDict caller_tags ]};
           caller_tags := ∅ ]}
    ∅ ∅ 0 [].

Definition run_on_caller (fuel : nat) (workflow : ProcessWorkflow.t)
    : result WorkflowExecution.t * world :=
  @execute_workflow reference_externals fuel workflow caller_entity
    "data_product" "dp-1" (Some "orders") (Some "u@x.com") None true caller_world.

(** A context whose entity is the caller's dictionary itself. *)
Definition caller_context : StepContext.t :=
  StepContext.mk caller_entity "data_product" "dp-1" (Some "orders") (Some "u@x.com")
    None "0" "wf-tag" "tag" ∅.

(** An environment in which the compliance DSL cannot be imported. *)
Definition externals_without_dsl : Externals := {|
  time_time := @time_time reference_externals;
  utcnow_isoformat := @utcnow_isoformat reference_externals;
  fault_message := @fault_message reference_externals;
  dict_repr := @dict_repr reference_externals;
  py_strip := @py_strip reference_externals;
  import_module m :=
    if String.eqb m "src.common.compliance_dsl"
    then Some (Raised "ModuleNotFoundError" "No module named 'src.common.compliance_dsl'")
    else None;
  evaluate_rule_on_object := @evaluate_rule_on_object reference_externals;
  evaluate_condition := @evaluate_condition reference_externals;
  py_exec := @py_exec reference_externals;
  policy_get := @policy_get reference_externals;
  deliver := @deliver reference_externals;
  json_dumps := @json_dumps reference_externals;
  json_loads := @json_loads reference_externals;
  trigger_context_dumps := @trigger_context_dumps reference_externals;
  trigger_context_loads := @trigger_context_loads reference_externals;
|}.

Definition validation_step : WorkflowStep.t :=
  WorkflowStep.mk (Some "step-v1") "v1" "validation"
    (Some {[ "rule" := VStr "size > 0" ]}) None (Some "fail1").

(** The outcome of the approval handler for the requester ["u@x.com"]. *)
Definition approval_outcome : StepResult.t :=
  StepResult.mk true (VStr "Approval requested from: u@x.com")
    (Some (PDict [("approvers", DList [VStr "u@x.com"]);
                  ("timeout_days", DInt 7);
                  ("require_all", DBool false);
                  ("status", DStr "pending")]))
    None true.

(** ** Further examples *)

(** A context of a run that nobody triggered, for an entity without a name. *)
Definition anonymous_context : StepContext.t :=
  StepContext.mk caller_entity "data_product" "dp-1" None None None "0" "wf" "wf" ∅.

(** A notification with a message of its own, and one for the owner. *)
Definition notification_config : gmap string value :=
  {[ "recipients" := VStr "team@x.com,lead@x.com";
     "template" := VStr "product_approved";
     "custom_message" := VStr "Please review" ]}.

Definition owner_notification_config : gmap string value :=
  {[ "recipients" := VStr "owner"; "custom_message" := VStr "Please review" ]}.

(** Scripts. *)
Definition sql_config : gmap string value :=
  {[ "language" := VStr "sql"; "code" := VStr "DROP TABLE orders" ]}.


(** An environment with one compliance policy, which is inactive. *)
Definition inactive_policy : CompliancePolicyDb.t :=
  CompliancePolicyDb.mk "naming" false "name != ''" "high" (Some "Name the product").

Definition externals_with_policy : Externals := {|
  time_time := @time_time reference_externals;
  utcnow_isoformat := @utcnow_isoformat reference_externals;
  fault_message := @fault_message reference_externals;
  dict_repr := @dict_repr reference_externals;
  py_strip := @py_strip reference_externals;
  import_module := @import_module reference_externals;
  evaluate_rule_on_object := @evaluate_rule_on_object reference_externals;
  evaluate_condition := @evaluate_condition reference_externals;
  py_exec := @py_exec reference_externals;
  policy_get p := inr (Some inactive_policy);
  deliver := @deliver reference_externals;
  json_dumps := @json_dumps reference_externals;
  json_loads := @json_loads reference_externals;
  trigger_context_dumps := @trigger_context_dumps reference_externals;
  trigger_context_loads := @trigger_context_loads reference_externals;
|}.

Definition policy_config : gmap string value :=
  {[ "policy_id" := VStr "6f1c" ]}.

(** Tag configurations. *)
Definition reviewed_config : gmap string value :=
  {[ "key" := VStr "reviewed"; "value" := VStr "yes" ]}.

Definition remove_reviewed_config : gmap string value :=
  {[ "key" := VStr "reviewed" ]}.

Definition unknown_source_config : gmap string value :=
  {[ "key" := VStr "reviewed"; "value" := VStr "yes"; "value_source" := VStr "owner" ]}.

(** A world in which the entity's ['tags'] entry is a string. *)
Definition string_tags_world : world :=
  World {[ caller_entity := {[ "name" := VStr "orders"; "tags" := VStr "reviewed,final" ]} ]}
    ∅ ∅ 0 [].

(** The caller's world after the tag ['reviewed'] has been assigned. *)
Definition reviewed_world : world :=
  World {[ caller_entity := {[ "name" := VStr "orders"; "tags" := VDict caller_tags ]};
           caller_tags := {[ "reviewed" := VStr "yes" ]} ]}
    ∅ ∅ 0 [].




(** A stored execution, paused at its first step, and its model. *)
Definition paused_row : WorkflowExecutionDb.t :=
  WorkflowExecutionDb.mk "7" "wf-approval" None "paused" (Some "a1") 1 0 VNone None
    (Some "u@x.com")
    [WorkflowStepExecutionDb.mk (Some "step-a1") "succeeded" true None None (inject_Z 12)].

Definition paused_model : WorkflowExecution.t :=
  WorkflowExecution.mk "7" "wf-approval" None PAUSED (Some "a1") 1 0 VNone None
    (Some "u@x.com")
    [WorkflowStepExecutionResult.mk (Some "step-a1") STEP_SUCCEEDED true None None
       (inject_Z 12)]
    "approval".

(** The outcome of assigning the tag ['reviewed']. *)
Definition assigned_outcome : StepResult.t :=
  StepResult.mk true (VStr "Assigned tag reviewed=yes")
    (Some (PDict [("key", DVal (VStr "reviewed")); ("value", DVal (VStr "yes"))]))
    None false.

Definition removed_outcome : StepResult.t :=
  StepResult.mk true (VStr "Removed tag reviewed")
    (Some (PDict [("key", DVal (VStr "reviewed"))])) None false.

(** A validation step without configuration. *)
Definition bare_validation_step : WorkflowStep.t :=
  WorkflowStep.mk (Some "step-v0") "v0" "validation" None None None.

(** * Properties *)

Section Proofs.

Context `{ext : Externals}.

(** ** Handlers are silent *)

Lemma silent_ret {A} (a : A) : silent (ret a).
Proof. intros w. by cbn. Qed.

Lemma silent_raise {A} (e : exn) : silent (raise (A := A) e).
Proof. intros w. by cbn. Qed.

Lemma silent_lift {A} (r : exn + A) : silent (lift r).
Proof. destruct r; [apply silent_raise | apply silent_ret]. Qed.

Lemma silent_bind {A B} (m : M A) (k : A -> M B) :
  silent m -> (∀ a, silent (k a)) -> silent (bind m k).
Proof.
  intros Hm Hk w. unfold bind. specialize (Hm w).
  destruct (m w) as [[a | e |] w1]; cbn in *.
  - specialize (Hk a w1). destruct Hm as (E1 & E2 & E3 & E4 & _).
    rewrite <- E1, <- E2, <- E3. destruct Hk as (? & ? & ? & ? & ?).
    repeat split; try done. lia.
  - destruct Hm as (E1 & E2 & E3 & E4 & _). done.
  - destruct Hm as (_ & _ & _ & _ & Hm). done.
Qed.

Lemma silent_try_except {A} (m : M A) (handler : exn -> M A) :
  silent m -> (∀ e, silent (handler e)) -> silent (try_except m handler).
Proof.
  intros Hm Hk w. unfold try_except. specialize (Hm w).
  destruct (m w) as [[a | e |] w1]; cbn in *; try done.
  specialize (Hk e w1). destruct Hm as (E1 & E2 & E3 & E4 & _).
  rewrite <- E1, <- E2, <- E3. destruct Hk as (? & ? & ? & ? & ?).
  repeat split; try done. lia.
Qed.

Lemma silent_get_heap : silent get_heap.
Proof. intros w. by cbn. Qed.

Lemma silent_utcnow : silent utcnow.
Proof. intros w. cbn. repeat split; try done. lia. Qed.

Lemma silent_import m : silent (import_ m).
Proof. unfold import_. destruct (import_module m); [apply silent_raise | apply silent_ret]. Qed.

Lemma silent_new_dict : silent new_dict.
Proof. intros w. by cbn. Qed.

Lemma silent_dict_setitem l k v : silent (dict_setitem l k v).
Proof. intros w. by cbn. Qed.

Lemma silent_dict_delitem l k : silent (dict_delitem l k).
Proof. intros w. by cbn. Qed.

Lemma silent_on_exception e : silent (on_exception e).
Proof. apply silent_ret. Qed.

Ltac silent_step :=
  first
    [ apply silent_ret | apply silent_raise | apply silent_lift
    | apply silent_get_heap | apply silent_utcnow | apply silent_import
    | apply silent_new_dict | apply silent_dict_setitem | apply silent_dict_delitem
    | apply silent_on_exception
    | apply silent_bind; [| intros ?]
    | apply silent_try_except; [| intros ?]
    | match goal with
      | |- silent (if ?b then _ else _) => destruct b
      | |- silent (match ?x with _ => _ end) => destruct x
      | |- silent (let (_, _) := ?x in _) => destruct x
      end ].

Ltac silent_tac := repeat silent_step.

Lemma silent_py_join sep items : silent (py_join sep items).
Proof. unfold py_join. silent_tac. Qed.

Lemma silent_setitem target k v : silent (setitem target k v).
Proof. unfold setitem. silent_tac. Qed.

Lemma silent_contains_key target k : silent (contains_key target k).
Proof. unfold contains_key. silent_tac. Qed.

Lemma silent_delitem target k : silent (delitem target k).
Proof. unfold delitem. silent_tac. Qed.

Lemma silent_entity_get c k : silent (entity_get c k).
Proof. unfold entity_get. silent_tac. Qed.

Lemma silent_entity_has c k : silent (entity_has c k).
Proof. unfold entity_has. silent_tac. Qed.

Lemma silent_addresses_or_group spec : silent (addresses_or_group spec).
Proof. unfold addresses_or_group. silent_tac. Qed.

Lemma silent_resolve_approvers a c : silent (_resolve_approvers a c).
Proof. unfold _resolve_approvers. silent_tac; apply silent_addresses_or_group. Qed.

Lemma silent_resolve_recipients a c : silent (_resolve_recipients a c).
Proof.
  unfold _resolve_recipients.
  repeat first [apply silent_entity_get | apply silent_addresses_or_group | silent_step].
Qed.

Lemma silent_get_template_message t c : silent (_get_template_message t c).
Proof. unfold _get_template_message. silent_tac. Qed.

Lemma silent_resolve_value_source s c : silent (_resolve_value_source s c).
Proof.
  unfold _resolve_value_source.
  repeat first [apply silent_entity_get | silent_step].
Qed.

Lemma silent_update_entity_tags c k v : silent (update_entity_tags c k v).
Proof.
  unfold update_entity_tags.
  repeat first [apply silent_entity_has | apply silent_entity_get
               | apply silent_setitem | silent_step].
Qed.

Lemma silent_remove_entity_tag c k : silent (remove_entity_tag c k).
Proof.
  unfold remove_entity_tag.
  repeat first [apply silent_entity_has | apply silent_entity_get
               | apply silent_contains_key | apply silent_delitem | silent_step].
Qed.

Lemma silent_execute_python code c : silent (_execute_python code c).
Proof. unfold _execute_python. silent_tac. Qed.

Lemma silent_execute cls cfg c : silent (execute cls cfg c).
Proof.
  destruct cls; cbn [execute];
    unfold ValidationStepHandler_execute, ApprovalStepHandler_execute,
      NotificationStepHandler_execute, AssignTagStepHandler_execute,
      RemoveTagStepHandler_execute, ConditionalStepHandler_execute,
      ScriptStepHandler_execute, PassStepHandler_execute, FailStepHandler_execute,
      PolicyCheckStepHandler_execute, DeliveryStepHandler_execute, _execute_sql;
    repeat first
      [ apply silent_py_join | apply silent_setitem | apply silent_contains_key
      | apply silent_delitem | apply silent_entity_get | apply silent_entity_has
      | apply silent_resolve_approvers | apply silent_resolve_recipients
      | apply silent_get_template_message | apply silent_resolve_value_source
      | apply silent_update_entity_tags | apply silent_remove_entity_tag
      | apply silent_execute_python | silent_step ].
Qed.

Lemma silent_execute_step step c : silent (_execute_step step c).
Proof.
  unfold _execute_step. destruct (HANDLERS_get _); [| apply silent_ret].
  apply silent_try_except; [apply silent_execute | apply silent_on_exception].
Qed.

(** ** One dispatch *)

Lemma execute_step_ok step c w :
  ∃ result w',
    _execute_step step c w = (Ok result, w')
    ∧ trace w' = trace w ∧ executions w' = executions w
    ∧ workflow_names w' = workflow_names w ∧ (ticks w <= ticks w')%nat.
Proof.
  pose proof (silent_execute_step step c w) as (? & ? & ? & ? & Hfuel).
  pose proof (silent_execute (default ValidationStepHandler (HANDLERS_get (WorkflowStep.step_type step)))
                (default ∅ (WorkflowStep.config step)) c w) as (_ & _ & _ & _ & Hinner).
  destruct (_execute_step step c w) as [[r | e |] w'] eqn:E; cbn in *.
  - eauto 10.
  - exfalso. unfold _execute_step in E.
    destruct (HANDLERS_get _) as [cls |]; cbn in *; [| discriminate].
    unfold try_except in E.
    destruct (execute cls _ c w) as [[? | ? |] ?]; cbn in *; discriminate.
  - done.
Qed.

(** ** One pass through the loop body *)

Lemma replay_app evs1 evs2 x : replay (evs1 ++ evs2) x = replay evs2 (replay evs1 x).
Proof. unfold replay. apply foldl_app. Qed.

Lemma loop_body_run sbi eid current l w step :
  sbi !! current = Some step ->
  ∃ result row w',
    recorded step result row
    ∧ loop_body sbi eid current l w
      = (Ok (body_outcome (heap w') current l step result), w')
    ∧ trace w'
      = (trace w ++ step_events eid step result row
         ++ pause_events eid current l step result)%list
    ∧ executions w'
      = replay (step_events eid step result row
                ++ pause_events eid current l step result) (executions w)
    ∧ workflow_names w' = workflow_names w.
Proof.
  intros Hstep.
  destruct (loop_body sbi eid current l w) as [r w'] eqn:Hlb.
  unfold loop_body in Hlb. rewrite Hstep in Hlb.
  unfold bind, time_now, emit, workflow_execution_repo_add_step_execution,
    workflow_execution_repo_update_status, get_heap in Hlb.
  cbn [fst snd] in Hlb.
  match type of Hlb with
  | context [_execute_step step (context l) ?w1] =>
      destruct (execute_step_ok step (context l) w1)
        as (result & w2 & E & Ht & Hx & Hn & Hk);
      rewrite E in Hlb
  end.
  cbn in Ht, Hx, Hn, Hk.
  exists result.
  exists (WorkflowStepExecutionDb.mk (WorkflowStep.id step)
            (StepExecutionStatus_value
               (if StepResult.passed result then STEP_SUCCEEDED else STEP_FAILED))
            (StepResult.passed result)
            (json_dumps (heap w2) <$> StepResult.data result)
            (StepResult.error result)
            (Qmult (Qminus (time_time (ticks w2)) (time_time (ticks w))) (inject_Z 1000))).
  exists w'.
  split.
  { unfold recorded. cbn. repeat split; eauto. }
  unfold body_outcome, pause_events, step_events, replay.
  destruct (StepResult.blocking result) eqn:Hb.
  - cbn in Hlb. injection Hlb as <- <-. cbn.
    rewrite Ht, Hx, Hn, <- !app_assoc. done.
  - destruct (opt_truthy (next_step_id step result)) eqn:Hnext;
      unfold next_step_id in Hnext; rewrite Hnext in Hlb.
    + cbn in Hlb. injection Hlb as <- <-. cbn.
      rewrite Ht, Hx, Hn, <- !app_assoc. done.
    + destruct (StepResult.passed result) eqn:Hp;
        cbn in Hlb; injection Hlb as <- <-; cbn;
        rewrite Ht, Hx, Hn, <- !app_assoc; unfold next_step_id, after_step;
        rewrite ?Hp; done.
Qed.

(** ** The loop *)

Lemma while_loop_exit fuel sbi eid l w :
  opt_truthy (current_step_id l) = false ->
  while_loop fuel sbi eid l w = (Ok l, w).
Proof.
  intros H. destruct fuel; cbn [while_loop];
    destruct (current_step_id l) as [cur |]; try done;
    cbn in H; rewrite H; done.
Qed.

Lemma while_loop_sound sbi eid fuel :
  ∀ l w, ∃ evs,
    trace (while_loop fuel sbi eid l w).2 = (trace w ++ evs)%list
    ∧ executions (while_loop fuel sbi eid l w).2 = replay evs (executions w)
    ∧ workflow_names (while_loop fuel sbi eid l w).2 = workflow_names w
    ∧ loop_trace sbi eid (heap (while_loop fuel sbi eid l w).2) l evs
        (while_loop fuel sbi eid l w).1.
Proof.
  induction fuel as [| n IH]; intros l w.
  - destruct (opt_truthy (current_step_id l)) eqn:Hc.
    + exists []. cbn [while_loop].
      destruct (current_step_id l) as [cur |] eqn:Hcur; [| done].
      cbn in Hc. rewrite Hc.
      cbn. rewrite app_nil_r. split_and!; try done.
      apply loop_out_of_fuel. by rewrite Hcur.
    + exists []. rewrite while_loop_exit by done. cbn. rewrite app_nil_r.
      split_and!; try done. by apply loop_not_entered.
  - destruct (opt_truthy (current_step_id l)) eqn:Hc.
    2:{ exists []. rewrite while_loop_exit by done. cbn. rewrite app_nil_r.
        split_and!; try done. by apply loop_not_entered. }
    cbn [while_loop].
    destruct (current_step_id l) as [cur |] eqn:Hcur; [| done]. cbn in Hc. rewrite Hc.
    destruct (sbi !! cur) as [step |] eqn:Hs.
    + destruct (loop_body_run sbi eid cur l w step Hs)
        as (result & row & w1 & Hrec & Hlb & Htr & Hex & Hn).
      unfold bind. rewrite Hlb. unfold body_outcome, pause_events in *.
      destruct (StepResult.blocking result) eqn:Hb.
      * cbn. eexists. split_and!; [exact Htr | exact Hex | exact Hn |].
        by eapply loop_paused.
      * rewrite app_nil_r in Htr, Hex.
        destruct (opt_truthy (next_step_id step result)) eqn:Hnext; cbn [fst snd].
        -- match goal with
           | |- context [while_loop n sbi eid ?l1 w1] =>
               destruct (IH l1 w1) as (evs & Htr' & Hex' & Hn' & Hlt)
           end.
           exists (step_events eid step result row ++ evs)%list.
           split_and!.
           ++ rewrite Htr', Htr, <- app_assoc. done.
           ++ rewrite Hex', Hex, replay_app. done.
           ++ rewrite Hn', Hn. done.
           ++ by eapply loop_continued.
        -- rewrite while_loop_exit by (cbn; exact Hnext).
           exists (step_events eid step result row). cbn [fst snd].
           split_and!; try done. by eapply loop_finished.
    + exists []. unfold bind, loop_body. rewrite Hs. cbn. rewrite app_nil_r.
      split_and!; try done. by apply loop_step_missing.
Qed.

(** ** The whole run *)

Lemma stateless_ret {A} (a : A) : stateless (ret a).
Proof. intros w. by cbn. Qed.

Lemma stateless_raise {A} (e : exn) : stateless (raise (A := A) e).
Proof. intros w. by cbn. Qed.

Lemma stateless_lift {A} (r : exn + A) : stateless (lift r).
Proof. destruct r; [apply stateless_raise | apply stateless_ret]. Qed.

Lemma stateless_bind {A B} (m : M A) (k : A -> M B) :
  stateless m -> (∀ a, stateless (k a)) -> stateless (bind m k).
Proof.
  intros Hm Hk w. unfold bind. specialize (Hm w).
  destruct (m w) as [[a | e |] w1]; cbn in *; destruct Hm as [-> Hm]; try done.
  apply Hk.
Qed.

Ltac stateless_tac :=
  repeat first
    [ apply stateless_ret | apply stateless_raise | apply stateless_lift
    | apply stateless_bind; [| intros ?]
    | match goal with
      | |- stateless (if ?b then _ else _) => destruct b
      | |- stateless (match ?x with _ => _ end) => destruct x
      end ].

Lemma stateless_mapM {A B} (f : A -> M B) xs :
  (∀ x, stateless (f x)) -> stateless (mapM f xs).
Proof.
  intros Hf. induction xs as [| x xs IH]; cbn [mapM]; [apply stateless_ret |].
  apply stateless_bind; [apply Hf | intros y].
  apply stateless_bind; [apply IH | intros ys]. apply stateless_ret.
Qed.

Lemma stateless_step_to_model se : stateless (step_to_model se).
Proof. unfold step_to_model. stateless_tac. Qed.

Lemma stateless_db_to_model x name : stateless (_db_to_model x name).
Proof.
  unfold _db_to_model.
  repeat first [apply stateless_mapM; intros ? | apply stateless_step_to_model
               | apply stateless_bind; [| intros ?] | stateless_tac].
Qed.

Lemma apply_event_is_Some ev x k :
  is_Some (x !! k) -> is_Some (apply_event ev x !! k).
Proof.
  intros H. destruct ev; cbn; try done.
  - rewrite lookup_insert. case_decide; [done | exact H].
  - rewrite lookup_alter. case_decide; [| exact H].
    subst. destruct H as [y ->]. done.
  - rewrite lookup_alter. case_decide; [| exact H].
    subst. destruct H as [y ->]. done.
Qed.

Lemma replay_is_Some evs x k :
  is_Some (x !! k) -> is_Some (replay evs x !! k).
Proof.
  revert x. induction evs as [| ev evs IH]; intros x H; [done |].
  cbn. apply IH. by apply apply_event_is_Some.
Qed.

Lemma loop_trace_no_raise sbi eid hf l evs r :
  loop_trace sbi eid hf l evs r -> ∀ e, r ≠ Raise e.
Proof. induction 1; done. Qed.

Lemma execute_workflow_sound fuel workflow entity entity_type entity_id
    entity_name user_email trigger_context blocking w :
  let run := execute_workflow fuel workflow entity entity_type entity_id
               entity_name user_email trigger_context blocking w in
  let eid := fresh (dom (executions w)) in
  let row0 := created_row w (ProcessWorkflow.id workflow) trigger_context user_email in
  ∃ evs rl finished_at,
    trace run.2
    = (trace w ++ Created row0 :: evs ++ final_events eid rl finished_at)%list
    ∧ executions run.2
      = replay (Created row0 :: evs ++ final_events eid rl finished_at) (executions w)
    ∧ workflow_names run.2 = workflow_names w
    ∧ loop_trace (index_steps (ProcessWorkflow.steps workflow)) eid (heap run.2)
        (initial_locals w workflow entity_type entity_id entity_name user_email
           trigger_context) evs rl
    ∧ match rl with
      | Ok l =>
          ∃ x, executions run.2 !! eid = Some x
               ∧ run.1 = (_db_to_model x (ProcessWorkflow.name workflow) run.2).1
      | OutOfFuel => run.1 = OutOfFuel
      | Raise _ => False
      end.
Proof.
  intros run eid row0. subst run.
  destruct (execute_workflow _ _ _ _ _ _ _ _ _ w) as [r w'] eqn:Hrun.
  cbn [fst snd].
  unfold execute_workflow in Hrun.
  unfold bind at 1 in Hrun. unfold workflow_execution_repo_create, emit in Hrun.
  cbn [fst snd] in Hrun.
  fold eid in Hrun. unfold bind at 1 in Hrun. unfold dict_copy in Hrun.
  cbn [heap log set_executions] in Hrun.
  unfold bind at 1 in Hrun.
  set (w2 := set_heap _ _) in Hrun.
  set (l0 := Locals _ _ _ _ _ _) in Hrun.
  destruct (while_loop_sound (index_steps (ProcessWorkflow.steps workflow)) eid fuel l0 w2)
    as (evs & Htr & Hex & Hn & Hlt).
  assert (Hrow : is_Some (replay evs (executions w2) !! eid)).
  { apply replay_is_Some. subst w2. cbn. rewrite lookup_insert_eq. done. }
  assert (Htr2 : trace w2 = (trace w ++ [Created row0])%list) by done.
  assert (Hex2 : executions w2 = replay [Created row0] (executions w)) by done.
  assert (Hn2 : workflow_names w2 = workflow_names w) by done.
  change (initial_locals w workflow entity_type entity_id entity_name user_email
            trigger_context) with l0.
  clearbody w2 l0.
  destruct (while_loop fuel _ eid l0 w2) as [[l | e |] w3] eqn:Hloop; cbn [fst snd] in *.
  - exists evs, (Ok l), (utcnow_isoformat (ticks w3)).
    unfold final_events.
    destruct (bool_decide (final_status l ≠ PAUSED)) eqn:Hp.
    + unfold bind at 1 in Hrun. unfold bind at 1 in Hrun. unfold utcnow at 1 in Hrun.
      unfold workflow_execution_repo_update_status, emit in Hrun.
      unfold bind at 1 in Hrun. unfold workflow_execution_repo_get in Hrun.
      cbn [fst snd] in Hrun.
      set (w4 := log _ _) in Hrun.
      assert (Hrow4 : is_Some (executions w4 !! eid)).
      { subst w4. cbn.
        refine (apply_event_is_Some (StatusUpdated eid _ None _ _ _ _)
                  (executions w3) eid _).
        rewrite Hex. exact Hrow. }
      destruct (executions w4 !! eid) as [x |] eqn:Hx; [| by destruct Hrow4].
      pose proof (stateless_db_to_model x (ProcessWorkflow.name workflow) w4) as [Hw _].
      rewrite Hrun in Hw. cbn [fst snd] in Hw. subst w'.
      assert (Hr : r = (_db_to_model x (ProcessWorkflow.name workflow) w4).1)
        by (by rewrite Hrun).
      clear Hrun. subst w4. cbn [trace executions workflow_names heap log set_executions tick] in *.
      split_and!.
      * rewrite Htr, Htr2, <- !app_assoc. done.
      * rewrite Hex, Hex2. change (Created row0 :: ?a) with ([Created row0] ++ a)%list.
        rewrite !replay_app. done.
      * rewrite Hn, Hn2. done.
      * exact Hlt.
      * exists x. split; [exact Hx | exact Hr].
    + unfold bind at 1 in Hrun. cbn [ret] in Hrun.
      unfold bind at 1 in Hrun. unfold workflow_execution_repo_get in Hrun.
      cbn [fst snd] in Hrun.
      assert (Hrow3 : is_Some (executions w3 !! eid)) by (rewrite Hex; exact Hrow).
      destruct (executions w3 !! eid) as [x |] eqn:Hx; [| by destruct Hrow3].
      pose proof (stateless_db_to_model x (ProcessWorkflow.name workflow) w3) as [Hw _].
      rewrite Hrun in Hw. cbn [fst snd] in Hw. subst w'.
      assert (Hr : r = (_db_to_model x (ProcessWorkflow.name workflow) w3).1)
        by (by rewrite Hrun).
      clear Hrun. rewrite !app_nil_r.
      split_and!.
      * rewrite Htr, Htr2, <- !app_assoc. done.
      * rewrite Hex, Hex2. change (Created row0 :: ?a) with ([Created row0] ++ a)%list.
        rewrite !replay_app. done.
      * rewrite Hn, Hn2. done.
      * exact Hlt.
      * exists x. split; [exact Hx | exact Hr].
  - by apply loop_trace_no_raise with (e := e) in Hlt.
  - injection Hrun as <- <-.
    exists evs, OutOfFuel, "". unfold final_events. rewrite app_nil_r.
    split_and!; try done.
    + rewrite Htr, Htr2, <- !app_assoc. done.
    + rewrite Hex, Hex2. reflexivity.
    + rewrite Hn, Hn2. done.
Qed.

(** ** Facts about event lists *)

Lemma index_steps_key steps k s :
  index_steps steps !! k = Some s -> WorkflowStep.step_id s = k.
Proof.
  unfold index_steps.
  assert (H : ∀ (m : gmap string WorkflowStep.t),
             (∀ k s, m !! k = Some s -> WorkflowStep.step_id s = k) ->
             ∀ k s, foldl (fun m s => <[WorkflowStep.step_id s := s]> m) m steps !! k = Some s ->
                    WorkflowStep.step_id s = k).
  { induction steps as [| x steps IH]; intros m Hm k' s' Hl; cbn in Hl; [by apply Hm |].
    eapply IH; [| exact Hl]. intros k2 s2. rewrite lookup_insert.
    case_decide; [intros [= <-]; done | apply Hm]. }
  apply H. intros ? ?. by rewrite lookup_empty.
Qed.

Lemma new_events_app w w' evs :
  trace w' = (trace w ++ evs)%list -> new_events w w' = evs.
Proof. intros H. unfold new_events. rewrite H. by rewrite drop_app_length. Qed.

Lemma dispatches_app a b : dispatches (a ++ b) = (dispatches a + dispatches b)%nat.
Proof. induction a as [| [] a IH]; cbn; lia. Qed.

Lemma records_app a b : records (a ++ b) = (records a + records b)%nat.
Proof. induction a as [| [] a IH]; cbn; lia. Qed.

Lemma passes_app a b : passes (a ++ b) = (passes a + passes b)%nat.
Proof.
  induction a as [| [] a IH]; cbn; try lia.
  destruct (StepResult.passed _); lia.
Qed.

Lemma failures_app a b : failures (a ++ b) = (failures a + failures b)%nat.
Proof.
  induction a as [| [] a IH]; cbn; try lia.
  destruct (StepResult.passed _); lia.
Qed.

(** The position of an outcome in the events of the loop fixes what comes
    after it. *)
Lemma loop_trace_at_return sbi eid hf l evs r :
  (∀ k s, sbi !! k = Some s -> WorkflowStep.step_id s = k) ->
  loop_trace sbi eid hf l evs r ->
  ∀ pre sid result post tail,
    (∀ s x, Returned s x ∉ tail) ->
    (evs ++ tail)%list = (pre ++ Returned sid result :: post)%list ->
    ∃ step row post',
      sbi !! sid = Some step
      ∧ recorded step result row
      ∧ post = StepRecorded eid row :: post'
      ∧ (StepResult.blocking result = true ->
         ∃ l', r = Ok l' ∧ final_status l' = PAUSED
               ∧ success_count l'
                 = (success_count l + passes (pre ++ [Returned sid result]))%nat
               ∧ failure_count l'
                 = (failure_count l + failures (pre ++ [Returned sid result]))%nat
               ∧ post' = StatusUpdated eid (ExecutionStatus_value PAUSED) (Some sid)
                           (Some (success_count l')) (Some (failure_count l'))
                           VNone None :: tail)
      ∧ (StepResult.blocking result = false ->
         opt_truthy (next_step_id step result) = false ->
         ∃ l', r = Ok l' ∧ post' = tail
               ∧ final_status l'
                 = (if StepResult.passed result then SUCCEEDED else FAILED)
               ∧ error_message l'
                 = (if StepResult.passed result then error_message l
                    else py_or hf (StepResult.message result)
                           (of_opt (StepResult.error result)))
               ∧ success_count l'
                 = (success_count l + passes (pre ++ [Returned sid result]))%nat
               ∧ failure_count l'
                 = (failure_count l + failures (pre ++ [Returned sid result]))%nat).
Proof.
  intros Hkey Hlt.
  induction Hlt as
    [ l Hc | l Hc | l cur Hcur Ht Hs
    | l cur step res row Hcur Ht Hs Hrec Hb
    | l cur step res row Hcur Ht Hs Hrec Hb Hnext
    | l cur step res row evs r Hcur Ht Hs Hrec Hb Hnext Hlt IH ];
    intros pre sid result post tail Htail Heq.
  - cbn in Heq. exfalso. apply (Htail sid result). rewrite Heq. set_solver.
  - cbn in Heq. exfalso. apply (Htail sid result). rewrite Heq. set_solver.
  - cbn in Heq. exfalso. apply (Htail sid result). rewrite Heq. set_solver.
  - pose proof (Hkey _ _ Hs) as Hk.
    destruct pre as [| p0 [| p1 [| p2 [| p3 pre]]]]; cbn in Heq; simplify_eq.
    + exists step, row. eexists. split_and!; try done.
      * intros _. eexists. split_and!; try done; cbn.
        -- destruct (StepResult.passed result); lia.
        -- destruct (StepResult.passed result); lia.
      * intros Hb'. congruence.
    + exfalso. apply (Htail sid result). set_solver.
  - pose proof (Hkey _ _ Hs) as Hk.
    destruct pre as [| p0 [| p1 [| p2 pre]]]; cbn in Heq; simplify_eq.
    + exists step, row. eexists. split_and!; try done.
      * intros Hb'. congruence.
      * intros _ _. eexists. split_and!; try done; cbn.
        -- destruct (StepResult.passed result); lia.
        -- destruct (StepResult.passed result); lia.
    + exfalso. apply (Htail sid result). set_solver.
  - pose proof (Hkey _ _ Hs) as Hk.
    destruct pre as [| p0 [| p1 [| p2 pre]]]; cbn in Heq; simplify_eq.
    + exists step, row. eexists. split_and!; try done.
      * intros Hb'. congruence.
      * intros _ Hn. congruence.
    + destruct (IH pre sid result post tail Htail) as
        (step' & row' & post' & Hs' & Hrec' & Hpost & Hblock & Hfin); [done |].
      exists step', row', post'. split_and!; try done.
      * intros Hb'. destruct (Hblock Hb') as (l' & -> & Hst & Hsc & Hfc & Hp).
        exists l'. split_and!; try done.
        -- rewrite Hsc. cbn. destruct (StepResult.passed res); lia.
        -- rewrite Hfc. cbn. destruct (StepResult.passed res); lia.
      * intros Hb' Hn'. destruct (Hfin Hb' Hn') as (l' & -> & Hp & Hst & Herr & Hsc & Hfc).
        exists l'. split_and!; try done.
        -- rewrite Hsc. cbn. destruct (StepResult.passed res); lia.
        -- rewrite Hfc. cbn. destruct (StepResult.passed res); lia.
Qed.

Lemma recorded_rows_app a b : recorded_rows (a ++ b) = (recorded_rows a ++ recorded_rows b)%list.
Proof. induction a as [| [] a IH]; cbn; congruence. Qed.


(** Counters and events of the loop agree. *)
Lemma loop_trace_summary sbi eid hf l evs r :
  loop_trace sbi eid hf l evs r ->
  dispatches evs = records evs
  ∧ (passes evs + failures evs)%nat = dispatches evs
  ∧ ∀ l', r = Ok l' ->
      success_count l' = (success_count l + passes evs)%nat
      ∧ failure_count l' = (failure_count l + failures evs)%nat
      ∧ (final_status l ≠ PAUSED -> final_status l' = PAUSED ->
         ∃ evs0 cur,
           evs = (evs0 ++ [StatusUpdated eid (ExecutionStatus_value PAUSED) (Some cur)
                             (Some (success_count l')) (Some (failure_count l'))
                             VNone None])%list).
Proof.
  induction 1 as
    [ l Hc | l Hc | l cur Hcur Ht Hs
    | l cur step res row Hcur Ht Hs Hrec Hb
    | l cur step res row Hcur Ht Hs Hrec Hb Hnext
    | l cur step res row evs r Hcur Ht Hs Hrec Hb Hnext Hlt IH ].
  - split_and!; try done. intros l2 [= <-]. split_and!; try (cbn; lia). done.
  - split_and!; done.
  - split_and!; try done. intros l2 [= <-]. cbn. split_and!; try lia. done.
  - split_and!.
    + done.
    + cbn. destruct (StepResult.passed res); lia.
    + intros l2 [= <-]. cbn. split_and!.
      * destruct (StepResult.passed res); lia.
      * destruct (StepResult.passed res); lia.
      * intros _ _.
        exists [Dispatched (WorkflowStep.step_id step);
                Returned (WorkflowStep.step_id step) res; StepRecorded eid row], cur.
        reflexivity.
  - split_and!.
    + done.
    + cbn. destruct (StepResult.passed res); lia.
    + intros l2 [= <-]. cbn. split_and!.
      * destruct (StepResult.passed res); lia.
      * destruct (StepResult.passed res); lia.
      * intros _ Hp. destruct (StepResult.passed res); done.
  - destruct IH as (Hd & Hpf & Hok). split_and!.
    + rewrite dispatches_app, records_app. cbn. lia.
    + rewrite passes_app, failures_app, dispatches_app. cbn.
      destruct (StepResult.passed res); lia.
    + intros l2 ->. destruct (Hok l2 eq_refl) as (Hsc & Hfc & Hp).
      rewrite passes_app, failures_app. cbn in *. split_and!.
      * destruct (StepResult.passed res); lia.
      * destruct (StepResult.passed res); lia.
      * intros Hn Hp'. destruct (Hp Hn Hp') as (evs0 & cur' & ->).
        exists (step_events eid step res row ++ evs0)%list, cur'.
        rewrite <- app_assoc. reflexivity.
Qed.

(** The stored row after the events of the loop. *)
Lemma loop_trace_rows sbi eid hf l evs r :
  loop_trace sbi eid hf l evs r ->
  ∀ (m : gmap string WorkflowExecutionDb.t) y0,
    m !! eid = Some y0 ->
    ∃ y, replay evs m !! eid = Some y
         ∧ WorkflowExecutionDb.step_executions y
           = (WorkflowExecutionDb.step_executions y0 ++ recorded_rows evs)%list
         ∧ WorkflowExecutionDb.error_message y = WorkflowExecutionDb.error_message y0
         ∧ WorkflowExecutionDb.finished_at y = WorkflowExecutionDb.finished_at y0.
Proof.
  induction 1 as
    [ l Hc | l Hc | l cur Hcur Ht Hs
    | l cur step res row Hcur Ht Hs Hrec Hb
    | l cur step res row Hcur Ht Hs Hrec Hb Hnext
    | l cur step res row evs r Hcur Ht Hs Hrec Hb Hnext Hlt IH ];
    intros m y0 Hm.
  - exists y0. cbn. rewrite app_nil_r. done.
  - exists y0. cbn. rewrite app_nil_r. done.
  - exists y0. cbn. rewrite app_nil_r. done.
  - eexists. cbn. rewrite lookup_alter_eq, lookup_alter_eq, Hm. cbn. done.
  - eexists. cbn. rewrite lookup_alter_eq, Hm. cbn. done.
  - rewrite replay_app.
    destruct (IH (replay (step_events eid step res row) m) (append_step row y0))
      as (y & Hy & Hrows & Herr & Hfin).
    { cbn. rewrite lookup_alter_eq, Hm. done. }
    exists y. rewrite recorded_rows_app. cbn in *. rewrite Hrows, <- app_assoc. done.
Qed.


Lemma replay_snoc_status evs eid st cur sc fc em fin
    (m : gmap string WorkflowExecutionDb.t) x :
  replay (evs ++ [StatusUpdated eid st cur sc fc em fin]) m !! eid = Some x ->
  ∃ y, replay evs m !! eid = Some y ∧ x = write_status st cur sc fc em fin y.
Proof.
  rewrite replay_app. cbn. rewrite lookup_alter_eq.
  destruct (replay evs m !! eid) as [y |]; cbn; [| done].
  intros [= <-]. by exists y.
Qed.

Lemma final_events_no_return eid rl fin s x : Returned s x ∉ final_events eid rl fin.
Proof.
  unfold final_events. destruct rl as [l | |]; [case_bool_decide | |];
    try apply not_elem_of_nil.
  intros [Hin | Hin]%elem_of_cons; [discriminate | by apply elem_of_nil in Hin].
Qed.

Lemma mapM_length {A B} (f : A -> M B) xs w ys :
  (mapM f xs w).1 = Ok ys -> List.length ys = List.length xs.
Proof.
  revert w ys. induction xs as [| x xs IH]; intros w ys; cbn [mapM].
  - intros [= <-]. done.
  - unfold bind at 1. destruct (f x w) as [[y | e |] w1]; cbn; try done.
    unfold bind. destruct (mapM f xs w1) as [[zs | e |] w2] eqn:E; cbn; try done.
    intros Heq. injection Heq as <-. cbn. f_equal. apply (IH w1). by rewrite E.
Qed.

(** What the returned model takes from the stored row. *)
Lemma db_to_model_ok x name w model :
  (_db_to_model x name w).1 = Ok model ->
  ExecutionStatus_of (WorkflowExecutionDb.status x) = inr (WorkflowExecution.status model)
  ∧ WorkflowExecution.current_step_id model = WorkflowExecutionDb.current_step_id x
  ∧ WorkflowExecution.success_count model = WorkflowExecutionDb.success_count x
  ∧ WorkflowExecution.failure_count model = WorkflowExecutionDb.failure_count x
  ∧ WorkflowExecution.error_message model = WorkflowExecutionDb.error_message x
  ∧ List.length (WorkflowExecution.step_executions model)
    = List.length (WorkflowExecutionDb.step_executions x).
Proof.
  unfold _db_to_model. unfold bind at 1.
  match goal with
  | |- context [match ?m w with _ => _ end] => destruct (m w) as [[tc | e |] w1]
  end; cbn [fst]; try done.
  unfold bind at 1.
  destruct (mapM step_to_model _ w1) as [[ys | e |] w2] eqn:E; try done.
  unfold bind, lift.
  destruct (ExecutionStatus_of _) as [e | st]; cbn; try done.
  intros [= <-]. cbn. split_and!; try done.
  apply (mapM_length step_to_model _ w1). by rewrite E.
Qed.

Lemma ExecutionStatus_of_value st : ExecutionStatus_of (ExecutionStatus_value st) = inr st.
Proof. by destruct st. Qed.

(** C1: a step whose outcome is blocking pauses the run.  Whatever [passed]
    says, the events that follow the outcome are the step record and one
    status update to [PAUSED] with [current_step_id] the id of that step and
    the tallies so far; no further step is dispatched, and the stored
    execution (and the model made of it) carries that status, step id and
    tallies. *)
Theorem blocking_outcome_pauses_the_run fuel workflow entity entity_type entity_id
    entity_name user_email trigger_context blocking w pre sid result post :
  let run := execute_workflow fuel workflow entity entity_type entity_id
               entity_name user_email trigger_context blocking w in
  let eid := fresh (dom (executions w)) in
  let upto := (pre ++ [Returned sid result])%list in
  new_events w run.2 = (pre ++ Returned sid result :: post)%list ->
  StepResult.blocking result = true ->
  ∃ row x,
    post = [StepRecorded eid row;
            StatusUpdated eid (ExecutionStatus_value PAUSED) (Some sid)
              (Some (passes upto)) (Some (failures upto)) VNone None]
    ∧ dispatches post = 0
    ∧ executions run.2 !! eid = Some x
    ∧ WorkflowExecutionDb.status x = ExecutionStatus_value PAUSED
    ∧ WorkflowExecutionDb.current_step_id x = Some sid
    ∧ WorkflowExecutionDb.success_count x = passes upto
    ∧ WorkflowExecutionDb.failure_count x = failures upto
    ∧ run.1 = (_db_to_model x (ProcessWorkflow.name workflow) run.2).1
    ∧ run.1 ≠ OutOfFuel
    ∧ ∀ model, run.1 = Ok model ->
        WorkflowExecution.status model = PAUSED
        ∧ WorkflowExecution.current_step_id model = Some sid
        ∧ WorkflowExecution.success_count model = passes upto
        ∧ WorkflowExecution.failure_count model = failures upto.
Proof.
  intros run eid upto Hev Hb. subst run.
  destruct (execute_workflow_sound fuel workflow entity entity_type entity_id
              entity_name user_email trigger_context blocking w)
    as (evs & rl & fin & Htr & Hex & Hn & Hlt & Hr).
  cbn zeta in *. fold eid in Htr, Hex, Hlt, Hr.
  set (run := execute_workflow _ _ _ _ _ _ _ _ _ w) in *.
  rewrite (new_events_app _ _ _ Htr) in Hev.
  destruct pre as [| p0 pre]; [discriminate |].
  injection Hev as <- Hev.
  destruct (loop_trace_at_return _ _ _ _ _ _ (index_steps_key _) Hlt
              pre sid result post _ (final_events_no_return eid rl fin) Hev)
    as (step & row & post' & Hs & Hrec & -> & Hblock & _).
  destruct (Hblock Hb) as (l' & -> & Hst & Hsc & Hfc & ->).
  assert (Hfinal : final_events eid (Ok l') fin = []).
  { unfold final_events. rewrite Hst. by rewrite bool_decide_eq_false_2 by (intros ?; done). }
  rewrite Hfinal in *. clear Hblock.
  destruct Hr as (x & Hx & Hrun).
  pose proof Hx as Hx'. rewrite Hex, Hev in Hx'.
  change (Created ?r :: pre ++ ?a :: ?b :: [?u])
    with ([Created r] ++ pre ++ [a; b] ++ [u])%list in Hx'.
  rewrite !app_assoc in Hx'.
  apply replay_snoc_status in Hx' as (y & _ & Hxy).
  cbn in Hsc, Hfc. subst upto. cbn [app passes failures].
  rewrite <- Hsc, <- Hfc.
  assert (Hnf : run.1 ≠ OutOfFuel) by (rewrite Hrun; apply stateless_db_to_model).
  exists row, x. split_and!; try (subst x; done).
  intros model Hm.
  assert (Hm' : (_db_to_model x (ProcessWorkflow.name workflow) run.2).1 = Ok model)
    by (rewrite <- Hrun; exact Hm).
  apply db_to_model_ok in Hm'. subst x.
  cbn in Hm'. destruct Hm' as (Hs1 & -> & -> & -> & _).
  split_and!; try done. by injection Hs1.
Qed.

(** The stored row when the loop is left, before the closing write. *)
Lemma row_after_loop sbi eid hf l evs r row0 (m : gmap string WorkflowExecutionDb.t) :
  loop_trace sbi eid hf l evs r ->
  WorkflowExecutionDb.id row0 = eid ->
  ∃ y, replay (Created row0 :: evs) m !! eid = Some y
       ∧ WorkflowExecutionDb.step_executions y
         = (WorkflowExecutionDb.step_executions row0 ++ recorded_rows evs)%list
       ∧ WorkflowExecutionDb.error_message y = WorkflowExecutionDb.error_message row0
       ∧ WorkflowExecutionDb.finished_at y = WorkflowExecutionDb.finished_at row0.
Proof.
  intros Hlt Hid.
  change (Created row0 :: evs) with ([Created row0] ++ evs)%list. rewrite replay_app.
  eapply loop_trace_rows; [exact Hlt |]. cbn. rewrite Hid. apply lookup_insert_eq.
Qed.

(** C2: when the branch chosen after a non-blocking outcome is absent, the
    run ends: the step record is followed by the closing status update and
    nothing else, the status is [SUCCEEDED] if the outcome passed and
    [FAILED] otherwise, and on failure the error message is
    [result.message or result.error]. *)
Theorem absent_branch_ends_the_run fuel workflow entity entity_type entity_id
    entity_name user_email trigger_context blocking w pre sid result post step :
  let run := execute_workflow fuel workflow entity entity_type entity_id
               entity_name user_email trigger_context blocking w in
  let eid := fresh (dom (executions w)) in
  let upto := (pre ++ [Returned sid result])%list in
  let status := if StepResult.passed result then SUCCEEDED else FAILED in
  let error :=
    if StepResult.passed result then VNone
    else py_or (heap run.2) (StepResult.message result)
           (of_opt (StepResult.error result)) in
  new_events w run.2 = (pre ++ Returned sid result :: post)%list ->
  StepResult.blocking result = false ->
  index_steps (ProcessWorkflow.steps workflow) !! sid = Some step ->
  opt_truthy (next_step_id step result) = false ->
  ∃ row finished_at x,
    post = [StepRecorded eid row;
            StatusUpdated eid (ExecutionStatus_value status) None
              (Some (passes upto)) (Some (failures upto)) error (Some finished_at)]
    ∧ dispatches post = 0
    ∧ executions run.2 !! eid = Some x
    ∧ WorkflowExecutionDb.status x = ExecutionStatus_value status
    ∧ WorkflowExecutionDb.error_message x = error
    ∧ WorkflowExecutionDb.finished_at x = Some finished_at
    ∧ run.1 = (_db_to_model x (ProcessWorkflow.name workflow) run.2).1
    ∧ run.1 ≠ OutOfFuel
    ∧ ∀ model, run.1 = Ok model ->
        WorkflowExecution.status model = status
        ∧ WorkflowExecution.error_message model = error.
Proof.
  intros run eid upto status error Hev Hb Hstep Hnext. subst run.
  destruct (execute_workflow_sound fuel workflow entity entity_type entity_id
              entity_name user_email trigger_context blocking w)
    as (evs & rl & fin & Htr & Hex & Hn & Hlt & Hr).
  cbn zeta in *. fold eid in Htr, Hex, Hlt, Hr.
  set (run := execute_workflow _ _ _ _ _ _ _ _ _ w) in *.
  set (row0 := created_row _ _ _ _) in *.
  rewrite (new_events_app _ _ _ Htr) in Hev.
  destruct pre as [| p0 pre]; [discriminate |].
  injection Hev as <- Hev.
  destruct (loop_trace_at_return _ _ _ _ _ _ (index_steps_key _) Hlt
              pre sid result post _ (final_events_no_return eid rl fin) Hev)
    as (step' & row & post' & Hs & Hrec & -> & _ & Hfin).
  rewrite Hstep in Hs. injection Hs as <-.
  destruct (Hfin Hb Hnext) as (l' & -> & -> & Hst & Herr & Hsc & Hfc). clear Hfin.
  assert (Hfinal : final_events eid (Ok l') fin
                   = [StatusUpdated eid (ExecutionStatus_value status) None
                        (Some (passes upto)) (Some (failures upto)) error (Some fin)]).
  { unfold final_events. rewrite bool_decide_eq_true_2.
    - subst upto status error. rewrite Hst, Herr, Hsc, Hfc. cbn.
      by destruct (StepResult.passed result).
    - rewrite Hst. by destruct (StepResult.passed result). }
  rewrite Hfinal in *.
  destruct Hr as (x & Hx & Hrun).
  pose proof Hx as Hx'. rewrite Hex in Hx'.
  change (Created ?r :: ?a ++ [?u]) with ((Created r :: a) ++ [u])%list in Hx'.
  apply replay_snoc_status in Hx' as (y & Hy & Hxy).
  destruct (row_after_loop _ _ _ _ _ _ row0 (executions w) Hlt eq_refl)
    as (y' & Hy' & _ & Hye & _).
  rewrite Hy in Hy'. injection Hy' as <-.
  assert (Hxe : WorkflowExecutionDb.error_message x = error).
  { subst x. cbn. rewrite Hye. cbn. by destruct error. }
  assert (Hnf : run.1 ≠ OutOfFuel) by (rewrite Hrun; apply stateless_db_to_model).
  exists row, fin, x. split_and!; try (subst x; done).
  intros model Hm.
  assert (Hm' : (_db_to_model x (ProcessWorkflow.name workflow) run.2).1 = Ok model)
    by (rewrite <- Hrun; exact Hm).
  apply db_to_model_ok in Hm'. destruct Hm' as (Hs1 & _ & _ & _ & He & _).
  rewrite He, Hxe. split; [| done].
  subst x. cbn in Hs1. rewrite ExecutionStatus_of_value in Hs1. by injection Hs1.
Qed.



Lemma final_events_counts eid rl fin :
  dispatches (final_events eid rl fin) = 0
  ∧ records (final_events eid rl fin) = 0
  ∧ passes (final_events eid rl fin) = 0
  ∧ failures (final_events eid rl fin) = 0
  ∧ recorded_rows (final_events eid rl fin) = [].
Proof.
  unfold final_events. destruct rl as [l | |]; try done. by case_bool_decide.
Qed.



(** C4: every dispatch bumps exactly one counter by one.  When the run
    ends, the stored [success_count] is the number of outcomes that passed,
    [failure_count] the number that did not, and their sum the number of
    steps dispatched. *)
Theorem tallies_count_dispatches fuel workflow entity entity_type entity_id
    entity_name user_email trigger_context blocking w :
  let run := execute_workflow fuel workflow entity entity_type entity_id
               entity_name user_email trigger_context blocking w in
  let eid := fresh (dom (executions w)) in
  let evs := new_events w run.2 in
  run.1 ≠ OutOfFuel ->
  ∃ x, executions run.2 !! eid = Some x
       ∧ WorkflowExecutionDb.success_count x = passes evs
       ∧ WorkflowExecutionDb.failure_count x = failures evs
       ∧ (WorkflowExecutionDb.success_count x + WorkflowExecutionDb.failure_count x)%nat
         = dispatches evs
       ∧ ∀ model, run.1 = Ok model ->
           WorkflowExecution.success_count model = passes evs
           ∧ WorkflowExecution.failure_count model = failures evs
           ∧ (WorkflowExecution.success_count model
              + WorkflowExecution.failure_count model)%nat = dispatches evs.
Proof.
  intros run eid evs0 Hend. subst run evs0.
  destruct (execute_workflow_sound fuel workflow entity entity_type entity_id
              entity_name user_email trigger_context blocking w)
    as (evs & rl & fin & Htr & Hex & Hn & Hlt & Hr).
  cbn zeta in *. fold eid in Htr, Hex, Hlt, Hr.
  set (run := execute_workflow _ _ _ _ _ _ _ _ _ w) in *.
  set (row0 := created_row _ _ _ _) in *.
  rewrite (new_events_app _ _ _ Htr).
  destruct rl as [l' | e | ]; [| done | done].
  destruct Hr as (x & Hx & Hrun).
  destruct (loop_trace_summary _ _ _ _ _ _ Hlt) as (_ & Hpf & Hok).
  destruct (Hok l' eq_refl) as (Hsc & Hfc & Hpause). cbn in Hsc, Hfc.
  destruct (final_events_counts eid (Ok l') fin) as (Hfd & _ & Hfp & Hff & _).
  assert (Hlast : ∃ evs0 st cur em fn,
             (Created row0 :: evs ++ final_events eid (Ok l') fin)
             = (evs0 ++ [StatusUpdated eid st cur (Some (success_count l'))
                           (Some (failure_count l')) em fn])%list).
  { unfold final_events. case_bool_decide as Hp.
    - exists (Created row0 :: evs). by eexists _, _, _, _.
    - destruct (decide (final_status l' = PAUSED)) as [Hp' | Hp']; [| done].
      destruct (Hpause ltac:(done) Hp') as (evs0 & cur & ->).
      exists (Created row0 :: evs0). rewrite app_nil_r. by eexists _, _, _, _. }
  destruct Hlast as (evs0 & st & cur & em & fn & Hlast).
  pose proof Hx as Hx'. rewrite Hex, Hlast in Hx'.
  apply replay_snoc_status in Hx' as (y & _ & Hxy).
  assert (Hps : passes (Created row0 :: evs ++ final_events eid (Ok l') fin) = passes evs)
    by (change (passes (evs ++ final_events eid (Ok l') fin) = passes evs);
        rewrite passes_app, Hfp; lia).
  assert (Hfs : failures (Created row0 :: evs ++ final_events eid (Ok l') fin) = failures evs)
    by (change (failures (evs ++ final_events eid (Ok l') fin) = failures evs);
        rewrite failures_app, Hff; lia).
  assert (Hds : dispatches (Created row0 :: evs ++ final_events eid (Ok l') fin)
                = dispatches evs)
    by (change (dispatches (evs ++ final_events eid (Ok l') fin) = dispatches evs);
        rewrite dispatches_app, Hfd; lia).
  rewrite Hps, Hfs, Hds.
  assert (Hxs : WorkflowExecutionDb.success_count x = passes evs) by (subst x; cbn; lia).
  assert (Hxf : WorkflowExecutionDb.failure_count x = failures evs) by (subst x; cbn; lia).
  exists x. split_and!; try done; try lia.
  intros model Hm.
  assert (Hm' : (_db_to_model x (ProcessWorkflow.name workflow) run.2).1 = Ok model)
    by (rewrite <- Hrun; exact Hm).
  apply db_to_model_ok in Hm'. destruct Hm' as (_ & _ & -> & -> & _). lia.
Qed.


(** C7: [resume_workflow] returns [None] when the execution does not exist,
    when its status is not ['paused'], and when its workflow cannot be
    loaded; only an existing paused execution with an existing workflow gets
    past the guards (it is then turned into its model).  In every case the
    world is left as it was: nothing is continued. *)
Theorem resume_guards execution_id step_result result_data w :
  let r := resume_workflow execution_id step_result result_data w in
  r.2 = w
  ∧ match executions w !! execution_id with
    | None => r.1 = Ok None
    | Some row =>
        if String.eqb (WorkflowExecutionDb.status row) (ExecutionStatus_value PAUSED)
        then
          match workflow_names w !! WorkflowExecutionDb.workflow_id row with
          | None => r.1 = Ok None
          | Some name =>
              r.1 ≠ Ok None
              ∧ match (_db_to_model row name w).1 with
                | Ok model => r.1 = Ok (Some model)
                | Raise e => r.1 = Raise e
                | OutOfFuel => False
                end
          end
        else r.1 = Ok None
    end.
Proof.
  cbn zeta. unfold resume_workflow, bind, workflow_execution_repo_get,
    process_workflow_repo_get. cbn [fst snd].
  destruct (executions w !! execution_id) as [row |]; [| done].
  change (ExecutionStatus_value PAUSED) with "paused".
  destruct (String.eqb (WorkflowExecutionDb.status row) "paused"); [| done]. cbn [negb].
  destruct (workflow_names w !! WorkflowExecutionDb.workflow_id row) as [name |]; [| done].
  pose proof (stateless_db_to_model row name w) as [Hw Hf].
  destruct (_db_to_model row name w) as [[model | e |] w1]; cbn in *; subst; done.
Qed.


(** ** A loop that never ends *)

Lemma self_loop_lookup : index_steps [self_loop_step] !! "s" = Some self_loop_step.
Proof. unfold index_steps. cbn. apply lookup_insert_eq. Qed.

Lemma self_loop_iterates eid fuel :
  ∀ l w,
    current_step_id l = Some "s" ->
    (while_loop fuel (index_steps [self_loop_step]) eid l w).1 = OutOfFuel
    ∧ dispatches (trace (while_loop fuel (index_steps [self_loop_step]) eid l w).2)
      = (dispatches (trace w) + fuel)%nat.
Proof.
  induction fuel as [| n IH]; intros l w Hc; cbn [while_loop]; rewrite Hc; cbn [str_truthy String.eqb negb].
  - cbn. split; [done | lia].
  - unfold bind, loop_body. rewrite self_loop_lookup.
    unfold workflow_execution_repo_add_step_execution, time_now, emit, get_heap, bind.
    cbn [fst snd].
    change (_execute_step self_loop_step (context l) ?w1)
      with (Ok (StepResult.mk true (VStr "Workflow completed successfully") None None false), w1).
    cbn [fst snd StepResult.blocking StepResult.passed self_loop_step WorkflowStep.on_pass
         opt_truthy str_truthy String.eqb negb ret].
    match goal with
    | |- context [while_loop n _ eid ?l1 ?w1] =>
        destruct (IH l1 w1 eq_refl) as [-> ->]
    end.
    split; [done |]. cbn. rewrite !dispatches_app. cbn. lia.
Qed.

(** C10: the loop has no cycle detection and no step limit.  For the workflow
    made of one [pass] step whose [on_pass] is its own id, [execute_workflow]
    returns for no amount of fuel; with fuel [n] it has dispatched the step
    [n] times and is still in the loop. *)
Theorem self_loop_never_terminates :
  ∃ workflow step,
    ProcessWorkflow.steps workflow = [step]
    ∧ WorkflowStep.step_type step = "pass"
    ∧ WorkflowStep.on_pass step = Some (WorkflowStep.step_id step)
    ∧ ∀ fuel entity entity_type entity_id entity_name user_email trigger_context
        blocking w,
        let run := execute_workflow fuel workflow entity entity_type entity_id
                     entity_name user_email trigger_context blocking w in
        run.1 = OutOfFuel ∧ dispatches (new_events w run.2) = fuel.
Proof.
  exists self_loop_workflow, self_loop_step. split_and!; try done.
  intros fuel entity entity_type entity_id entity_name user_email trigger_context
    blocking w. cbn zeta.
  destruct (execute_workflow _ _ _ _ _ _ _ _ _ w) as [r w'] eqn:Hrun. cbn [fst snd].
  unfold execute_workflow in Hrun.
  unfold bind at 1 in Hrun. unfold workflow_execution_repo_create, emit in Hrun.
  cbn [fst snd] in Hrun.
  unfold bind at 1 in Hrun. unfold dict_copy in Hrun. unfold bind at 1 in Hrun.
  cbn [self_loop_workflow ProcessWorkflow.steps] in Hrun.
  match type of Hrun with
  | context [while_loop fuel _ ?eid ?l1 ?w1] =>
      pose proof (self_loop_iterates eid fuel l1 w1 eq_refl) as [H1 H2];
      destruct (while_loop_sound (index_steps [self_loop_step]) eid fuel l1 w1)
        as (evs & Htr & _);
      destruct (while_loop fuel _ eid l1 w1) as [r2 w2] eqn:E
  end.
  cbn [fst snd] in *. subst r2. injection Hrun as <- <-. split; [done |].
  rewrite Htr, dispatches_app in H2. cbn [trace log set_heap set_executions] in *.
  rewrite <- app_assoc in Htr. rewrite (new_events_app _ _ _ Htr).
  cbn. lia.
Qed.

(** ** The tag handlers *)

Lemma resolve_value_source_run source context w :
  ∃ w', _resolve_value_source source context w
        = (Ok (source_value (heap w) (utcnow_isoformat (ticks w)) source context), w')
        ∧ heap w' = heap w.
Proof.
  unfold _resolve_value_source, source_value.
  destruct (eq_str source "current_user"); [by eexists |].
  destruct (eq_str source "project_name"); [by eexists |].
  destruct (eq_str source "entity_name"); [by eexists |].
  destruct (eq_str source "timestamp"); by eexists.
Qed.

Ltac run_monad_in H :=
  cbv [bind ret raise lift try_except modify get_heap entity_has entity_get
       new_dict dict_setitem dict_delitem setitem contains_key delitem
       heap set_heap fst snd] in H.

Lemma update_entity_tags_heap context k v w :
  heap (update_entity_tags context k v w).2
  = store_tag (heap w) (StepContext.entity context) k v
  ∧ (update_entity_tags context k v w).1 ≠ OutOfFuel.
Proof.
  destruct (update_entity_tags context k v w) as [r w'] eqn:E. cbn [fst snd].
  unfold update_entity_tags in E. unfold store_tag. destruct w as [h x n t tr].
  run_monad_in E. cbn [heap].
  destruct (bool_decide (is_Some (deref h (StepContext.entity context) !! "tags"))).
  - destruct (dict_get _ "tags") as [| str | t']; [by injection E as <- <- ..|].
    destruct k as [s | l]; by injection E as <- <-.
  - destruct (dict_get _ "tags") as [| str | t']; [by injection E as <- <- ..|].
    destruct k as [s | l]; by injection E as <- <-.
Qed.

Lemma assign_tag_heap _config context w :
  heap (AssignTagStepHandler_execute _config context w).2
  = assign_tag_effect (heap w) (utcnow_isoformat (ticks w)) _config context.
Proof.
  unfold AssignTagStepHandler_execute, assign_tag_effect.
  unfold bind at 1. unfold get_heap at 1.
  destruct (as_key (heap w) _) as [k |]; [| done].
  unfold try_except. unfold bind at 1.
  assert (Hres : ∃ w1,
    (if truthy (heap w) (dict_get _config "value_source")
     then _resolve_value_source (dict_get _config "value_source") context
     else ret (dict_get _config "value")) w
    = (Ok (if truthy (heap w) (dict_get _config "value_source")
           then source_value (heap w) (utcnow_isoformat (ticks w))
                  (dict_get _config "value_source") context
           else dict_get _config "value"), w1)
    ∧ heap w1 = heap w).
  { destruct (truthy (heap w) (dict_get _config "value_source")).
    - apply resolve_value_source_run.
    - by eexists. }
  destruct Hres as (w1 & -> & Hh).
  set (r := if truthy (heap w) _ then _ else _).
  destruct (negb (truthy (heap w) r)); [done |].
  unfold bind at 1.
  pose proof (update_entity_tags_heap context k r w1) as [Hu Hf].
  destruct (update_entity_tags context k r w1) as [[[] | e |] w2];
    cbn in Hu, Hf |- *; [| | done]; by rewrite Hu, Hh.
Qed.

Lemma remove_entity_tag_heap context k w :
  heap (remove_entity_tag context k w).2
  = drop_tag (heap w) (StepContext.entity context) k
  ∧ (remove_entity_tag context k w).1 ≠ OutOfFuel.
Proof.
  destruct (remove_entity_tag context k w) as [r w'] eqn:E. cbn [fst snd].
  unfold remove_entity_tag in E. unfold drop_tag. destruct w as [h x n t tr].
  run_monad_in E. cbn [heap].
  destruct (bool_decide (is_Some (deref h (StepContext.entity context) !! "tags"))).
  - destruct (dict_get _ "tags") as [| str | t'].
    + by injection E as <- <-.
    + destruct k as [s | l]; [| by injection E as <- <-].
      destruct (contains s str); by injection E as <- <-.
    + destruct k as [s | l]; [| by injection E as <- <-].
      destruct (bool_decide (is_Some (deref h t' !! s))); by injection E as <- <-.
  - by injection E as <- <-.
Qed.

Lemma remove_tag_heap _config context w :
  heap (RemoveTagStepHandler_execute _config context w).2
  = remove_tag_effect (heap w) _config context.
Proof.
  unfold RemoveTagStepHandler_execute, remove_tag_effect.
  unfold bind at 1. unfold get_heap at 1.
  destruct (as_key (heap w) _) as [k |]; [| done].
  unfold try_except. unfold bind at 1.
  pose proof (remove_entity_tag_heap context k w) as [Hu Hf].
  destruct (remove_entity_tag context k w) as [[[] | e |] w2];
    cbn in Hu, Hf |- *; done.
Qed.

Lemma deref_insert_eq (h : gmap loc (gmap string value)) l d : deref (<[l := d]> h) l = d.
Proof. unfold deref. by rewrite lookup_insert_eq. Qed.

Lemma deref_insert_ne (h : gmap loc (gmap string value)) l l' d :
  l ≠ l' -> deref (<[l := d]> h) l' = deref h l'.
Proof. intros. unfold deref. by rewrite lookup_insert_ne. Qed.

Lemma fresh_loc_ne (h : gmap loc (gmap string value)) e :
  is_Some (h !! e) -> fresh (dom h) ≠ e.
Proof.
  intros He Heq. apply (is_fresh (dom h)). rewrite Heq. by apply elem_of_dom.
Qed.


Lemma dict_get_insert_eq (d : gmap string value) k v : dict_get (<[k := v]> d) k = v.
Proof. unfold dict_get. by rewrite lookup_insert_eq. Qed.

Lemma store_tag_present h e k v :
  is_Some (deref h e !! "tags") ->
  store_tag h e k v
  = match dict_get (deref h e) "tags", k with
    | VDict t, KStr s => <[t := <[s := v]> (deref h t)]> h
    | _, _ => h
    end.
Proof. intros H. unfold store_tag. by rewrite bool_decide_eq_true_2. Qed.
















End Proofs.

(** * The properties on concrete runs *)

(** What the dispatch makes of a handler that raises: the import of the
    compliance DSL fails inside the validation handler. *)
Example dispatch_converts_import_error :
  (@_execute_step externals_without_dsl validation_step caller_context caller_world).1
  = Ok (failed_with "No module named 'src.common.compliance_dsl'")
  ∧ (@execute externals_without_dsl ValidationStepHandler
       {[ "rule" := VStr "size > 0" ]} caller_context caller_world).1
    = Raise (Raised "ModuleNotFoundError" "No module named 'src.common.compliance_dsl'").
Proof. split; vm_compute; reflexivity. Qed.

(** The approval workflow, run for the requester: the run is paused at the
    approval step. *)
Lemma blocking_outcome_pauses_the_run_witness :
  ∃ x, executions (run_on_caller 1 approval_workflow).2 !! "0" = Some x
       ∧ WorkflowExecutionDb.status x = "paused"
       ∧ WorkflowExecutionDb.current_step_id x = Some "a1"
       ∧ WorkflowExecutionDb.success_count x = 1
       ∧ WorkflowExecutionDb.failure_count x = 0.
Proof.
  destruct (@blocking_outcome_pauses_the_run reference_externals 1 approval_workflow
              caller_entity "data_product" "dp-1" (Some "orders") (Some "u@x.com")
              None true caller_world
              [Created (@created_row reference_externals caller_world "wf-approval"
                          None (Some "u@x.com"));
               Dispatched "a1"]
              "a1" approval_outcome
              (drop 3 (new_events caller_world (run_on_caller 1 approval_workflow).2)))
    as (row & x & _ & _ & Hx & Hs & Hc & Hsc & Hfc & _).
  - vm_compute. reflexivity.
  - reflexivity.
  - exists x. split; [exact Hx |]. split; [exact Hs |]. split; [exact Hc |].
    split; [exact Hsc | exact Hfc].
Defined.

(** The failing workflow: the run ends as failed with the configured message. *)
Lemma absent_branch_ends_the_run_witness :
  ∃ x, executions (run_on_caller 1 fail_workflow).2 !! "0" = Some x
       ∧ WorkflowExecutionDb.status x = "failed"
       ∧ WorkflowExecutionDb.error_message x = VStr "rejected".
Proof.
  destruct (@absent_branch_ends_the_run reference_externals 1 fail_workflow
              caller_entity "data_product" "dp-1" (Some "orders") (Some "u@x.com")
              None true caller_world
              [Created (@created_row reference_externals caller_world "wf-fail"
                          None (Some "u@x.com"));
               Dispatched "fail1"]
              "fail1" (StepResult.mk false (VStr "rejected") None None false)
              (drop 3 (new_events caller_world (run_on_caller 1 fail_workflow).2))
              fail_step)
    as (row & fin & x & _ & _ & Hx & Hs & He & _).
  - vm_compute. reflexivity.
  - reflexivity.
  - vm_compute. reflexivity.
  - reflexivity.
  - exists x. split; [exact Hx |]. split; [exact Hs | exact He].
Defined.

(** Two steps are defined, one is dispatched, and the tallies add up to one. *)
Lemma tallies_count_dispatches_witness :
  List.length (ProcessWorkflow.steps first_of_two_workflow) = 2
  ∧ ∃ x, executions (run_on_caller 1 first_of_two_workflow).2 !! "0" = Some x
         ∧ (WorkflowExecutionDb.success_count x
            + WorkflowExecutionDb.failure_count x)%nat = 1.
Proof.
  split; [reflexivity |].
  destruct (@tallies_count_dispatches reference_externals 1 first_of_two_workflow
              caller_entity "data_product" "dp-1" (Some "orders") (Some "u@x.com")
              None true caller_world)
    as (x & Hx & _ & _ & Hsum & _).
  - vm_compute. discriminate.
  - exists x. split; [exact Hx |]. exact Hsum.
Defined.


(** C6 at the failing input: the caller's entity holds a ['tags'] dictionary,
    the workflow assigns one tag.  After the run the caller's own dictionary
    has the entries it had, but the tag dictionary it refers to, which the
    copy in the step context shares, has the new tag. *)
Theorem nested_tags_are_shared_with_the_caller :
  let run := run_on_caller 1 assign_tag_workflow in
  deref (heap caller_world) caller_entity !! "tags" = Some (VDict caller_tags)
  ∧ deref (heap caller_world) caller_tags = ∅
  ∧ (∃ model, run.1 = Ok model ∧ WorkflowExecution.status model = SUCCEEDED)
  ∧ deref (heap run.2) caller_entity = deref (heap caller_world) caller_entity
  ∧ deref (heap run.2) caller_tags = {[ "reviewed" := VStr "yes" ]}
  ∧ deref (heap run.2) caller_tags ≠ deref (heap caller_world) caller_tags.
Proof.
  cbn zeta. split_and!; try (vm_compute; reflexivity).
  - eexists. split; vm_compute; reflexivity.
  - intros H. pose proof (f_equal (fun d : gmap string value => d !! "reviewed") H) as L.
    vm_compute in L. discriminate.
Qed.



(** * Further properties of the handlers and of the executor *)

Section MoreProofs.

Context `{ext : Externals}.

(** ** Results of handlers *)

Lemma ensures_ret {A} (P : A -> Prop) a : P a -> ensures P (ret a).
Proof. intros H w a' w' [= <- <-]. exact H. Qed.

Lemma ensures_raise {A} (P : A -> Prop) e : ensures P (raise e).
Proof. intros w a w' [=]. Qed.

Lemma ensures_bind {A B} (P : B -> Prop) (m : M A) (k : A -> M B) :
  (∀ a, ensures P (k a)) -> ensures P (bind m k).
Proof.
  intros Hk w b w'. unfold bind.
  destruct (m w) as [[a | e |] w1]; [apply Hk | done | done].
Qed.

Lemma ensures_try_except {A} (P : A -> Prop) (m : M A) handler :
  ensures P m -> (∀ e, ensures P (handler e)) -> ensures P (try_except m handler).
Proof.
  intros Hm Hh w a w'. unfold try_except.
  destruct (m w) as [[a1 | e |] w1] eqn:E; [| apply Hh | done].
  intros [= <- <-]. by eapply Hm.
Qed.

Ltac ensures_tac :=
  repeat first
    [ apply ensures_raise
    | apply ensures_ret; cbn; try done
    | apply ensures_bind; intros ?
    | apply ensures_try_except; [| intros ?]
    | match goal with
      | |- ensures _ (on_exception _) => unfold on_exception
      | |- ensures _ (if ?b then _ else _) => destruct b
      | |- ensures _ (match ?x with _ => _ end) => destruct x
      end ].

Lemma handlers_but_approval_do_not_block cls cfg c :
  cls ≠ ApprovalStepHandler ->
  ensures (fun r => StepResult.blocking r = false) (execute cls cfg c).
Proof.
  intros Hcls.
  destruct cls; try done; cbn [execute];
    unfold ValidationStepHandler_execute, NotificationStepHandler_execute,
      AssignTagStepHandler_execute, RemoveTagStepHandler_execute,
      ConditionalStepHandler_execute, ScriptStepHandler_execute,
      PassStepHandler_execute, FailStepHandler_execute,
      PolicyCheckStepHandler_execute, DeliveryStepHandler_execute,
      _execute_python, _execute_sql;
    ensures_tac.
Qed.

Lemma approval_blocks_only_when_passed cfg c :
  ensures (fun r => StepResult.blocking r = true ->
                    StepResult.passed r = true ∧ StepResult.error r = None)
    (ApprovalStepHandler_execute cfg c).
Proof. unfold ApprovalStepHandler_execute. ensures_tac. Qed.

Lemma HANDLERS_get_approval step_type :
  HANDLERS_get step_type = Some ApprovalStepHandler -> step_type = "approval".
Proof.
  unfold HANDLERS_get.
  repeat match goal with
         | |- context [String.eqb ?a ?b] => destruct (String.eqb_spec a b); try done
         end.
Qed.

(** X1: only an approval step produces a blocking outcome, and an outcome
    that blocks has passed: whatever the configuration, the context and the
    collaborators do, a step of any other kind (known or not) returns an
    outcome with [blocking=False]. *)
Theorem only_approval_steps_block step context w result w' :
  _execute_step step context w = (Ok result, w') ->
  StepResult.blocking result = true ->
  WorkflowStep.step_type step = "approval"
  ∧ StepResult.passed result = true
  ∧ StepResult.error result = None.
Proof.
  unfold _execute_step.
  destruct (HANDLERS_get (WorkflowStep.step_type step)) as [cls |] eqn:Hcls.
  2:{ intros [= <- <-]. done. }
  intros Hrun Hb.
  assert (Hq : ensures (fun r => StepResult.blocking r = true ->
                          cls = ApprovalStepHandler
                          ∧ StepResult.passed r = true ∧ StepResult.error r = None)
                 (try_except (execute cls (default ∅ (WorkflowStep.config step)) context)
                    on_exception)).
  { apply ensures_try_except; [| intros e; unfold on_exception; by apply ensures_ret].
    assert (Hdec : cls = ApprovalStepHandler ∨ cls ≠ ApprovalStepHandler)
      by (destruct cls; first [by left | by right]).
    destruct Hdec as [-> | Hne].
    - intros w0 r w1 Hr Hb'. split; [done |].
      by apply (approval_blocks_only_when_passed _ _ w0 r w1 Hr).
    - intros w0 r w1 Hr Hb'.
      pose proof (handlers_but_approval_do_not_block cls _ _ Hne w0 r w1 Hr) as Hq.
      cbn in Hq. congruence. }
  destruct (Hq w result w' Hrun Hb) as (-> & Hp & He).
  split_and!; try done. by apply HANDLERS_get_approval.
Qed.

(** ** Handlers that only compute *)

Lemma stateless_try_except {A} (m : M A) handler :
  stateless m -> (∀ e, stateless (handler e)) -> stateless (try_except m handler).
Proof.
  intros Hm Hh w. unfold try_except. specialize (Hm w).
  destruct (m w) as [[a | e |] w1]; cbn in *; destruct Hm as [-> Hm]; try done.
  apply Hh.
Qed.

Lemma stateless_get_heap : stateless get_heap.
Proof. intros w. by cbn. Qed.

Lemma stateless_import m : stateless (import_ m).
Proof.
  unfold import_. destruct (import_module m); [apply stateless_raise | apply stateless_ret].
Qed.

Ltac stateless_step :=
  first
    [ apply stateless_ret | apply stateless_raise | apply stateless_lift
    | apply stateless_get_heap | apply stateless_import
    | apply stateless_bind; [| intros ?]
    | apply stateless_try_except; [| intros ?]
    | match goal with
      | |- stateless (on_exception _) => unfold on_exception
      | |- stateless (py_join _ _) => unfold py_join
      | |- stateless (entity_get _ _) => unfold entity_get
      | |- stateless (addresses_or_group _) => unfold addresses_or_group
      | |- stateless (if ?b then _ else _) => destruct b
      | |- stateless (match ?x with _ => _ end) => destruct x
      end ].

Lemma stateless_execute cls cfg c :
  cls ≠ AssignTagStepHandler -> cls ≠ RemoveTagStepHandler ->
  stateless (execute cls cfg c).
Proof.
  intros Ha Hr.
  destruct cls; try done; cbn [execute];
    unfold ValidationStepHandler_execute, ApprovalStepHandler_execute,
      NotificationStepHandler_execute, ConditionalStepHandler_execute,
      ScriptStepHandler_execute, PassStepHandler_execute, FailStepHandler_execute,
      PolicyCheckStepHandler_execute, DeliveryStepHandler_execute,
      _resolve_approvers, _resolve_recipients, _get_template_message,
      _execute_python, _execute_sql;
    repeat stateless_step.
Qed.

Lemma HANDLERS_get_tags step_type :
  step_type ≠ "assign_tag" -> step_type ≠ "remove_tag" ->
  HANDLERS_get step_type ≠ Some AssignTagStepHandler
  ∧ HANDLERS_get step_type ≠ Some RemoveTagStepHandler.
Proof.
  intros Ha Hr. unfold HANDLERS_get.
  repeat match goal with
         | |- context [String.eqb ?a ?b] => destruct (String.eqb_spec a b); try done
         end.
Qed.

(** X2: the entity is written by [assign_tag] and [remove_tag] steps only.
    Dispatching a step of any other kind, known or unknown, whatever its
    outcome, leaves the heap of dictionaries, the stored executions and the
    clock exactly as they were (the compliance DSL, the policy lookup, the
    delivery service and [exec] being functions of their arguments). *)
Theorem only_tag_steps_write_the_entity step context w :
  WorkflowStep.step_type step ≠ "assign_tag" ->
  WorkflowStep.step_type step ≠ "remove_tag" ->
  (_execute_step step context w).2 = w.
Proof.
  intros Ha Hr. unfold _execute_step.
  destruct (HANDLERS_get_tags _ Ha Hr) as [Ha' Hr'].
  destruct (HANDLERS_get (WorkflowStep.step_type step)) as [cls |]; [| done].
  apply stateless_try_except.
  - apply stateless_execute; congruence.
  - intros e. apply stateless_ret.
Qed.

(** X3: a step without configuration.  A step whose [config] is missing or
    empty and whose kind needs one fails with the message of its handler,
    "No rule configured" and the like, without raising and without touching
    the world (the modules the handlers import being there). *)
Theorem unconfigured_steps_fail step context w kind message :
  default ∅ (WorkflowStep.config step) = ∅ ->
  (∀ m, import_module m = None) ->
  (kind, message) ∈ [("validation", "No rule configured");
                     ("approval", "No approvers configured");
                     ("notification", "No recipients configured");
                     ("assign_tag", "No tag key configured");
                     ("remove_tag", "No tag key configured");
                     ("conditional", "No condition configured");
                     ("script", "No code configured");
                     ("policy_check", "No policy_id configured")] ->
  WorkflowStep.step_type step = kind ->
  _execute_step step context w = (Ok (failed_with message), w).
Proof.
  intros Hcfg Himp Hin Hkind. unfold _execute_step. rewrite Hcfg, Hkind.
  repeat (apply elem_of_cons in Hin as [[= -> ->] | Hin];
          [cbn [HANDLERS_get String.eqb Ascii.eqb Bool.eqb execute];
           unfold ValidationStepHandler_execute, ApprovalStepHandler_execute,
             NotificationStepHandler_execute, AssignTagStepHandler_execute,
             RemoveTagStepHandler_execute, ConditionalStepHandler_execute,
             ScriptStepHandler_execute, PolicyCheckStepHandler_execute, import_;
           rewrite ?Himp; reflexivity |]).
  by apply elem_of_nil in Hin.
Qed.

(** ** Approvals and notifications *)

Lemma join_from_strings i sep names :
  join_from i sep (map VStr names) = inr (String.concat sep names).
Proof.
  revert i. induction names as [| x names IH]; intros i; [done |].
  cbn [map join_from String.concat]. specialize (IH (S i)).
  destruct names as [| y rest]; [done |].
  cbn [map] in *. by rewrite IH.
Qed.

Lemma py_join_strings sep names w :
  py_join sep (map VStr names) w = (Ok (String.concat sep names), w).
Proof. unfold py_join. by rewrite join_from_strings. Qed.

Lemma requester_names context :
  requester context
  = map VStr (match StepContext.user_email context with
              | Some u => if str_truthy u then [u] else []
              | None => []
              end).
Proof.
  unfold requester. destruct (StepContext.user_email context) as [u |]; cbn; [| done].
  by destruct (str_truthy u).
Qed.

Lemma addresses_or_group_names s w :
  addresses_or_group (VStr s) w
  = (Ok (map VStr (if contains "@" s then map py_strip (split_comma s) else [s])), w).
Proof.
  unfold addresses_or_group. destruct (contains "@" s); [| done].
  by rewrite map_map.
Qed.

Lemma resolve_approvers_names s context w :
  ∃ names,
    _resolve_approvers (VStr s) context w = (Ok (map VStr names), w)
    ∧ (s = "domain_owners" -> names = ["domain-owner@example.com"])
    ∧ (s = "project_owners" -> names = ["project-owner@example.com"])
    ∧ (s = "requester" ->
       names = match StepContext.user_email context with
               | Some u => if str_truthy u then [u] else []
               | None => []
               end)
    ∧ (s ≠ "domain_owners" -> s ≠ "project_owners" -> s ≠ "requester" ->
       names = if contains "@" s then map py_strip (split_comma s) else [s]).
Proof.
  unfold _resolve_approvers. cbn [eq_str].
  destruct (String.eqb_spec s "domain_owners") as [-> | H1].
  { exists ["domain-owner@example.com"]. split_and!; done. }
  destruct (String.eqb_spec s "project_owners") as [-> | H2].
  { exists ["project-owner@example.com"]. split_and!; done. }
  destruct (String.eqb_spec s "requester") as [-> | H3].
  { eexists. rewrite requester_names. split_and!; done. }
  eexists. rewrite addresses_or_group_names. split_and!; done.
Qed.

(** X4: an approval step whose [approvers] is a non-empty string always
    pauses the workflow: the handler returns [passed=True], [blocking=True],
    no error, and leaves the world alone.  The approvers it names are the
    placeholder address for ['domain_owners'] and ['project_owners'], the
    triggering user for ['requester'] (nobody at all when the run has no
    user email: the step still pauses), and the string itself for a group
    name. *)
Theorem approval_with_named_approvers_pauses _config context w s :
  dict_get_default _config "approvers" "" = VStr s ->
  str_truthy s = true ->
  ∃ names,
    ApprovalStepHandler_execute _config context w
    = (Ok (StepResult.mk true
             (VStr ("Approval requested from: " ++ String.concat ", " names))
             (Some (PDict [("approvers", DList (map VStr names));
                           ("timeout_days", config_or _config "timeout_days" (DInt 7));
                           ("require_all", config_or _config "require_all" (DBool false));
                           ("status", DStr "pending")]))
             None true), w)
    ∧ (s = "domain_owners" -> names = ["domain-owner@example.com"])
    ∧ (s = "project_owners" -> names = ["project-owner@example.com"])
    ∧ (s = "requester" ->
       names = match StepContext.user_email context with
               | Some u => if str_truthy u then [u] else []
               | None => []
               end)
    ∧ (s ≠ "domain_owners" -> s ≠ "project_owners" -> s ≠ "requester" ->
       contains "@" s = false -> names = [s]).
Proof.
  intros Hcfg Hs.
  destruct (resolve_approvers_names s context w) as (names & Hres & H1 & H2 & H3 & H4).
  exists names. split_and!; try done.
  - unfold ApprovalStepHandler_execute. rewrite Hcfg.
    unfold bind at 1, get_heap at 1. cbn [truthy]. rewrite Hs. cbn [negb].
    unfold try_except, bind at 1. rewrite Hres.
    unfold bind. by rewrite py_join_strings.
  - intros N1 N2 N3 Hat. rewrite (H4 N1 N2 N3), Hat. done.
Qed.

Lemma split_comma_length s : List.length (split_comma s) = S (count_commas s).
Proof.
  induction s as [| c r IH]; [done |]. cbn [split_comma count_commas].
  destruct (Ascii.eqb c ","); cbn [List.length]; [by rewrite IH |].
  destruct (split_comma r) as [| x xs]; [done |]. exact IH.
Qed.

Lemma split_comma_concat s : String.concat "," (split_comma s) = s.
Proof.
  induction s as [| c r IH]; [done |]. cbn [split_comma].
  destruct (Ascii.eqb_spec c ",") as [-> | Hc].
  - destruct (split_comma r) as [| x xs] eqn:E; [by destruct r |].
    cbn [String.concat]. by rewrite <- IH.
  - destruct (split_comma r) as [| x xs] eqn:E.
    + pose proof (split_comma_length r) as Hl. by rewrite E in Hl.
    + cbn [String.concat] in *. destruct xs; cbn; by rewrite <- IH.
Qed.

(** X5: a string with an ['@'] is read as a comma-separated list of
    addresses, by [_resolve_approvers] and [_resolve_recipients] alike: it
    resolves to one stripped address per segment of [split(',')], so to one
    more address than the string has commas, empty segments included (a
    trailing comma gives a last, empty address), and the segments put
    together again with commas are the string. *)
Theorem address_lists_keep_every_segment s context w :
  contains "@" s = true ->
  let addresses := map (fun e => VStr (py_strip e)) (split_comma s) in
  _resolve_approvers (VStr s) context w = (Ok addresses, w)
  ∧ _resolve_recipients (VStr s) context w = (Ok addresses, w)
  ∧ List.length addresses = S (count_commas s)
  ∧ String.concat "," (split_comma s) = s.
Proof.
  intros Hat addresses. subst addresses.
  assert (Hkw : ∀ kw, contains "@" kw = false -> String.eqb s kw = false).
  { intros kw Hkw. destruct (String.eqb_spec s kw) as [-> |]; congruence. }
  split_and!.
  - unfold _resolve_approvers. cbn [eq_str].
    rewrite !Hkw by done. unfold addresses_or_group. by rewrite Hat.
  - unfold _resolve_recipients. cbn [eq_str].
    rewrite !Hkw by done. unfold addresses_or_group. by rewrite Hat.
  - by rewrite length_map, split_comma_length.
  - apply split_comma_concat.
Qed.

Lemma notification_message h custom template context w :
  truthy h custom = true ∨ (∀ l, template ≠ VDict l) ->
  ∃ m,
    (if truthy h custom then ret custom
     else t <- _get_template_message template context;; ret (VStr t)) w = (Ok m, w)
    ∧ (truthy h custom = true -> m = custom)
    ∧ (truthy h custom = false ->
       ∃ text,
         m = VStr text
         ∧ ∀ t, template = VStr t ->
                t ∉ ["validation_failed"; "validation_passed"; "product_approved";
                     "product_rejected"; "approval_requested"] ->
                text = "Workflow notification for "
                       ++ format_opt (StepContext.entity_name context)).
Proof.
  intros Hok. destruct (truthy h custom) eqn:Hc.
  { exists custom. split_and!; done. }
  destruct Hok as [? | Ht]; [done |].
  unfold _get_template_message, bind.
  destruct template as [| t | l]; [| | by destruct (Ht l)].
  - eexists. split_and!; [done | done |]. intros _. eexists. split; [done |]. done.
  - eexists. split_and!; [done | done |].
    intros _. eexists. split; [done |]. intros t' [= <-] Hnot.
    repeat match goal with
           | |- context [String.eqb t ?b] =>
               destruct (String.eqb_spec t b) as [-> |]; [exfalso; apply Hnot; set_solver |]
           end.
    done.
Qed.

Lemma notification_run _config context w s rs m :
  dict_get_default _config "recipients" "" = VStr s ->
  str_truthy s = true ->
  _resolve_recipients (VStr s) context w = (Ok rs, w) ->
  (if truthy (heap w) (dict_get _config "custom_message")
   then ret (dict_get _config "custom_message")
   else t <- _get_template_message (dict_get_default _config "template" "") context;;
        ret (VStr t)) w = (Ok m, w) ->
  NotificationStepHandler_execute _config context w
  = (Ok (match join_from 0 ", " rs with
         | inr joined =>
             StepResult.mk true (VStr ("Notification sent to: " ++ joined))
               (Some (PDict [("recipients", DList rs);
                             ("template", DVal (dict_get_default _config "template" ""));
                             ("message", DVal m)]))
               None false
         | inl e => failed_with (exn_str e)
         end), w).
Proof.
  intros Hcfg Hs Hrs Hm.
  unfold NotificationStepHandler_execute. rewrite Hcfg.
  unfold bind at 1, get_heap at 1. cbn [truthy]. rewrite Hs. cbn [negb].
  unfold try_except, bind at 1. rewrite Hrs.
  unfold bind at 1. rewrite Hm.
  unfold bind, py_join, lift. by destruct (join_from 0 ", " rs).
Qed.

(** X6: a notification step whose [recipients] is a non-empty string other
    than ['owner'] passes, unless its message has to come from a template
    that is a dictionary; it never blocks and leaves the world alone.  The
    message it reports is the configured [custom_message] whenever that is
    not empty, whatever the template; without a custom message it is a text
    made from the template, and a template name that is not one of the five
    known ones is not an error: the text is then "Workflow notification for
    <entity_name>". *)
Theorem notification_prefers_the_custom_message _config context w s :
  dict_get_default _config "recipients" "" = VStr s ->
  str_truthy s = true ->
  s ≠ "owner" ->
  let custom := dict_get _config "custom_message" in
  let template := dict_get_default _config "template" "" in
  let sent names message :=
    (Ok (StepResult.mk true
           (VStr ("Notification sent to: " ++ String.concat ", " names))
           (Some (PDict [("recipients", DList (map VStr names));
                         ("template", DVal template);
                         ("message", DVal message)]))
           None false), w) in
  ∃ names,
    (truthy (heap w) custom = true ->
     NotificationStepHandler_execute _config context w = sent names custom)
    ∧ (truthy (heap w) custom = false ->
       (∀ l, template ≠ VDict l) ->
       ∃ text,
         NotificationStepHandler_execute _config context w = sent names (VStr text)
         ∧ ∀ t, template = VStr t ->
                t ∉ ["validation_failed"; "validation_passed"; "product_approved";
                     "product_rejected"; "approval_requested"] ->
                text = "Workflow notification for "
                       ++ format_opt (StepContext.entity_name context)).
Proof.
  intros Hcfg Hs Howner custom template sent.
  assert (Hres : ∃ names, _resolve_recipients (VStr s) context w = (Ok (map VStr names), w)).
  { unfold _resolve_recipients. cbn [eq_str].
    destruct (String.eqb_spec s "requester") as [-> | H1].
    { eexists. by rewrite requester_names. }
    destruct (String.eqb_spec s "owner") as [-> | H2]; [done |].
    eexists. by rewrite addresses_or_group_names. }
  destruct Hres as (names & Hres). exists names.
  assert (Hrun : ∀ m,
    (if truthy (heap w) custom then ret custom
     else t <- _get_template_message template context;; ret (VStr t)) w = (Ok m, w) ->
    NotificationStepHandler_execute _config context w = sent names m).
  { intros m Hm. rewrite (notification_run _ _ _ _ _ _ Hcfg Hs Hres Hm).
    by rewrite join_from_strings. }
  split.
  - intros Hc. apply Hrun.
    destruct (notification_message (heap w) custom template context w (or_introl Hc))
      as (m & Hm & Hm1 & _).
    rewrite (Hm1 Hc) in Hm. exact Hm.
  - intros Hc Ht.
    destruct (notification_message (heap w) custom template context w (or_intror Ht))
      as (m & Hm & _ & Hm2).
    destruct (Hm2 Hc) as (text & -> & Htext).
    exists text. split; [by apply Hrun | exact Htext].
Qed.

(** X7: a notification addressed to the ['owner'] reads the entity's
    ['owner'] entry.  When the entity has no owner (no entry, [None] or an
    empty string) the step still passes, with an empty list of recipients:
    nobody is notified.  When the owner is a string the notification goes to
    it; when it is a non-empty dictionary, joining the recipients raises, and
    the step fails with that error.  (The message is the custom message, or
    comes from a template that is not a dictionary.) *)
Theorem notification_to_the_owner _config context w :
  dict_get_default _config "recipients" "" = VStr "owner" ->
  truthy (heap w) (dict_get _config "custom_message") = true
  ∨ (∀ l, dict_get_default _config "template" "" ≠ VDict l) ->
  let owner := dict_get (deref (heap w) (StepContext.entity context)) "owner" in
  let sent names message :=
    (Ok (StepResult.mk true
           (VStr ("Notification sent to: " ++ String.concat ", " names))
           (Some (PDict [("recipients", DList (map VStr names));
                         ("template", DVal (dict_get_default _config "template" ""));
                         ("message", DVal message)]))
           None false), w) in
  ∃ message,
    (truthy (heap w) owner = false ->
     NotificationStepHandler_execute _config context w = sent [] message)
    ∧ (∀ o, owner = VStr o -> str_truthy o = true ->
            NotificationStepHandler_execute _config context w = sent [o] message)
    ∧ (∀ l, owner = VDict l -> truthy (heap w) owner = true ->
            NotificationStepHandler_execute _config context w
            = (Ok (failed_with (fault_message (JoinItem 0 owner))), w)).
Proof.
  intros Hcfg Hmsg owner sent.
  assert (Hres : _resolve_recipients (VStr "owner") context w
                 = (Ok (if truthy (heap w) owner then [owner] else []), w)) by done.
  destruct (notification_message (heap w) (dict_get _config "custom_message")
              (dict_get_default _config "template" "") context w Hmsg)
    as (m & Hm & _).
  exists m.
  rewrite (notification_run _ _ _ _ _ _ Hcfg eq_refl Hres Hm).
  split_and!.
  - intros ->. done.
  - intros o Ho Hs. rewrite Ho. cbn [truthy]. by rewrite Hs.
  - intros l Ho Ht. rewrite Ht, Ho. done.
Qed.

(** ** Scripts *)

(** X8: only Python scripts are executed.  A script step with code and a
    [language] other than ['python'] never reaches [exec]: for ['sql'] it
    passes with the message "SQL execution not yet implemented" and the code
    as its data, for any other language it fails with "Unsupported language:
    <language>"; in both cases the world is left alone. *)
Theorem only_python_scripts_are_executed _config context w :
  let language := dict_get_default _config "language" "python" in
  let code := dict_get_default _config "code" "" in
  truthy (heap w) code = true ->
  eq_str language "python" = false ->
  ScriptStepHandler_execute _config context w
  = (Ok (if eq_str language "sql" then
           StepResult.mk true (VStr "SQL execution not yet implemented")
             (Some (PDict [("sql", DVal code)])) None false
         else failed_with ("Unsupported language: " ++ format_value (heap w) language)),
     w).
Proof.
  intros language code Hcode Hlang.
  unfold ScriptStepHandler_execute. fold language code.
  unfold bind at 1, get_heap at 1. rewrite Hcode, Hlang. cbn [negb].
  unfold try_except. by destruct (eq_str language "sql").
Qed.


(** ** Steps that consult a collaborator *)

(** X10: a policy check passes exactly when the policy exists and either is
    inactive (its rule is then not evaluated) or its rule holds of the
    entity.  The handler never raises, leaves the world alone, and every
    outcome past the configuration check carries the policy id in its data,
    the one built from an exception included. *)
Theorem policy_check_passes_iff _config context w :
  let policy_id := dict_get_default _config "policy_id" "" in
  import_module "src.db_models.compliance" = None ->
  import_module "src.common.compliance_dsl" = None ->
  truthy (heap w) policy_id = true ->
  ∃ result rest,
    PolicyCheckStepHandler_execute _config context w = (Ok result, w)
    ∧ StepResult.blocking result = false
    ∧ StepResult.data result = Some (PDict (("policy_id", DVal policy_id) :: rest))
    ∧ (StepResult.passed result = true
       ↔ ∃ policy,
           policy_get policy_id = inr (Some policy)
           ∧ (CompliancePolicyDb.is_active policy = false
              ∨ ∃ message,
                  evaluate_rule_on_object (VStr (CompliancePolicyDb.rule policy))
                    (heap w) (StepContext.entity context) = inr (true, message))).
Proof.
  intros policy_id Hi1 Hi2 Hid.
  unfold PolicyCheckStepHandler_execute. fold policy_id.
  unfold import_. rewrite Hi1, Hi2.
  unfold bind at 1. cbn [ret]. unfold bind at 1. cbn [ret].
  unfold bind at 1, get_heap at 1. rewrite Hid. cbn [negb].
  unfold try_except, bind at 1, lift.
  destruct (policy_get policy_id) as [e | [policy |]] eqn:Hget; cbn [raise ret].
  - eexists _, _. split_and!; try done. split; [done |].
    intros (policy & [=] & _).
  - destruct (CompliancePolicyDb.is_active policy) eqn:Hact; cbn [negb].
    + unfold bind.
      destruct (evaluate_rule_on_object _ _ _) as [e | [passed message]] eqn:Hev;
        cbn [raise ret fst snd].
      * eexists _, _. split_and!; try done. split; [done |].
        intros (policy' & [= <-] & [Hin | (m & Hm)]); congruence.
      * eexists _, _. split_and!; try done. cbn. split.
        -- intros ->. exists policy. split; [done |]. right. by exists message.
        -- intros (policy' & [= <-] & [Hin | (m & Hm)]); congruence.
    + eexists _, _. split_and!; try done. split; [| done].
      intros _. exists policy. split; [done |]. by left.
  - eexists _, _. split_and!; try done. split; [done |].
    intros (policy & [=] & _).
Qed.

(** X11: a delivery step passes exactly when the delivery service is
    initialised and at least one delivery mode succeeded: a partial delivery
    counts as passed.  When every mode failed, the error is the errors of
    the modes joined by "; ", or "All delivery modes failed" when there is
    none; without a delivery service it is "Delivery service not
    initialized".  The handler never raises and never blocks. *)
Theorem delivery_passes_iff _config context w :
  import_module "src.controller.delivery_service" = None ->
  let outcome :=
    deliver _config (heap w) (StepContext.entity context)
      (StepContext.entity_type context) (StepContext.entity_id context)
      (StepContext.user_email context) in
  ∃ result,
    DeliveryStepHandler_execute _config context w = (Ok result, w)
    ∧ StepResult.blocking result = false
    ∧ (StepResult.passed result = true
       ↔ ∃ results,
           outcome = inr (Some results)
           ∧ (DeliveryResults.all_success results = true
              ∨ DeliveryResults.any_success results = true))
    ∧ (outcome = inr None ->
       StepResult.error result = Some "Delivery service not initialized")
    ∧ (∀ results,
         outcome = inr (Some results) ->
         StepResult.data result = Some (DeliveryResults.to_dict results)
         ∧ (StepResult.passed result = false ->
            StepResult.error result
            = Some (match DeliveryResults.errors results with
                    | [] => "All delivery modes failed"
                    | errs => String.concat "; " errs
                    end))).
Proof.
  intros Hi. cbn zeta. unfold DeliveryStepHandler_execute.
  unfold import_. rewrite Hi. unfold bind at 1. cbn [ret].
  unfold bind at 1, get_heap at 1. unfold try_except, bind, lift.
  destruct (deliver _ _ _ _ _ _) as [e | [results |]] eqn:Hout; cbn [raise ret].
  - eexists. split_and!; try done. split; [done |]. intros (r & [=] & _).
  - destruct (DeliveryResults.all_success results) eqn:Hall.
    + eexists. split_and!; try done.
      * split; [| done]. intros _. exists results. split; [done |]. by left.
      * intros r [= <-]. done.
    + destruct (DeliveryResults.any_success results) eqn:Hany.
      * eexists. split_and!; try done.
        -- split; [| done]. intros _. exists results. split; [done |]. by right.
        -- intros r [= <-]. done.
      * eexists. split_and!; try done.
        -- split; [done |]. intros (r & [= <-] & [? | ?]); congruence.
        -- intros r [= <-]. done.
  - eexists. split_and!; try done. split; [done |]. intros (r & [=] & _).
Qed.

(** X12: a validation step passes exactly when the rule engine returns that
    the rule holds of the entity, and a conditional step exactly when the
    value of its condition is true; an exception of the engine is a failed
    outcome with [str(e)] as its error, never a raise.  Neither handler
    blocks or writes. *)
Theorem rule_steps_follow_the_engine _config context w :
  import_module "src.common.compliance_dsl" = None ->
  let rule := dict_get_default _config "rule" "" in
  let condition := dict_get_default _config "condition" "" in
  let entity := StepContext.entity context in
  (truthy (heap w) rule = true ->
   ∃ result,
     ValidationStepHandler_execute _config context w = (Ok result, w)
     ∧ StepResult.blocking result = false
     ∧ (StepResult.passed result = true
        ↔ ∃ message, evaluate_rule_on_object rule (heap w) entity = inr (true, message))
     ∧ (∀ e, evaluate_rule_on_object rule (heap w) entity = inl e ->
             result = failed_with (exn_str e)))
  ∧ (truthy (heap w) condition = true ->
     ∃ result,
       ConditionalStepHandler_execute _config context w = (Ok result, w)
       ∧ StepResult.blocking result = false
       ∧ (StepResult.passed result = true
          ↔ ∃ value, evaluate_condition condition (heap w) entity = inr value
                     ∧ foreign_truth value = true)
       ∧ (∀ e, evaluate_condition condition (heap w) entity = inl e ->
               result = failed_with (exn_str e))).
Proof.
  intros Hi rule condition entity. split.
  - intros Hrule. unfold ValidationStepHandler_execute. fold rule entity.
    unfold import_. rewrite Hi. unfold bind at 1. cbn [ret].
    unfold bind at 1, get_heap at 1. rewrite Hrule. cbn [negb].
    unfold try_except, bind, lift.
    destruct (evaluate_rule_on_object rule (heap w) entity) as [e | [passed message]];
      cbn [raise ret fst snd].
    + eexists. split_and!; try done.
      * split; [done |]. by intros (m & [=]).
      * by intros e' [= <-].
    + eexists. split_and!; try done. cbn. split.
      * intros ->. by exists message.
      * by intros (m & [= -> _]).
  - intros Hcond. unfold ConditionalStepHandler_execute. fold condition entity.
    unfold import_. rewrite Hi. unfold bind at 1. cbn [ret].
    unfold bind at 1, get_heap at 1. rewrite Hcond. cbn [negb].
    unfold try_except, bind, lift.
    destruct (evaluate_condition condition (heap w) entity) as [e | value];
      cbn [raise ret].
    + eexists. split_and!; try done.
      * split; [done |]. by intros (v & [=] & _).
      * by intros e' [= <-].
    + eexists. split_and!; try done. cbn. split.
      * intros Hv. by exists value.
      * by intros (v & [= <-] & Hv).
Qed.

(** ** Tags *)

Ltac run_tags_in H :=
  cbv [bind ret raise lift try_except modify get_heap entity_has entity_get
       new_dict dict_setitem dict_delitem setitem contains_key delitem
       heap set_heap fst snd] in H.

Lemma lookup_of_dict_get (d : gmap string value) k l :
  dict_get d k = VDict l -> d !! k = Some (VDict l).
Proof. unfold dict_get. destruct (d !! k); cbn; [congruence | done]. Qed.

Lemma update_entity_tags_ok context k v w w' :
  let e := StepContext.entity context in
  is_Some (heap w !! e) ->
  dict_get (deref (heap w) e) "tags" ≠ VDict e ->
  update_entity_tags context (KStr k) v w = (Ok tt, w') ->
  ∃ t, t ≠ e
       ∧ deref (heap w') e !! "tags" = Some (VDict t)
       ∧ deref (heap w') t = <[k := v]> (match deref (heap w) e !! "tags" with
                                         | Some (VDict t0) => deref (heap w) t0
                                         | _ => ∅
                                         end)
       ∧ (∀ t0, deref (heap w) e !! "tags" = Some (VDict t0) -> t = t0)
       ∧ (∀ key, key ≠ "tags" -> deref (heap w') e !! key = deref (heap w) e !! key).
Proof.
  intros e He Hself E. unfold update_entity_tags in E.
  destruct w as [h x n tk tr]. run_tags_in E. cbn [heap] in *.
  fold e in E |- *.
  case_bool_decide as Htags.
  - destruct (dict_get (deref h e) "tags") as [| str | t] eqn:Ht; [done | done |].
    injection E as <-. cbn [heap].
    assert (Hne : t ≠ e) by congruence.
    apply lookup_of_dict_get in Ht.
    exists t. rewrite Ht. split_and!; try done.
    + by rewrite deref_insert_ne.
    + by rewrite deref_insert_eq.
    + by intros t0 [= <-].
    + intros key _. by rewrite deref_insert_ne.
  - set (l := fresh (dom h)) in *.
    assert (Hl : l ≠ e) by (by apply fresh_loc_ne).
    rewrite deref_insert_eq, dict_get_insert_eq in E.
    injection E as <-. cbn [heap].
    assert (Hnone : deref h e !! "tags" = None).
    { destruct (deref h e !! "tags") eqn:E'; [| done]. by destruct Htags. }
    exists l. rewrite Hnone. split_and!; try done.
    + rewrite (deref_insert_ne _ l e) by done. rewrite deref_insert_eq.
      by rewrite lookup_insert_eq.
    + rewrite deref_insert_eq. rewrite (deref_insert_ne _ e l) by done.
      by rewrite deref_insert_eq.
    + intros key Hkey. rewrite (deref_insert_ne _ l e) by done.
      rewrite deref_insert_eq, lookup_insert_ne by done.
      by rewrite deref_insert_ne.
Qed.

Lemma assign_tag_run _config context w k result w' :
  dict_get_default _config "key" "" = VStr k ->
  AssignTagStepHandler_execute _config context w = (Ok result, w') ->
  StepResult.passed result = true ->
  ∃ v w1,
    heap w1 = heap w
    ∧ truthy (heap w) v = true
    ∧ v = (if truthy (heap w) (dict_get _config "value_source")
           then source_value (heap w) (utcnow_isoformat (ticks w))
                  (dict_get _config "value_source") context
           else dict_get _config "value")
    ∧ update_entity_tags context (KStr k) v w1 = (Ok tt, w')
    ∧ StepResult.data result = Some (PDict [("key", DVal (VStr k)); ("value", DVal v)])
    ∧ StepResult.blocking result = false
    ∧ str_truthy k = true.
Proof.
  intros Hkey Hrun Hp.
  unfold AssignTagStepHandler_execute in Hrun. rewrite Hkey in Hrun.
  unfold bind at 1, get_heap at 1 in Hrun. cbn [as_key] in Hrun.
  destruct (str_truthy k) eqn:Hk; [| injection Hrun as <- <-; discriminate Hp].
  unfold try_except, bind at 1 in Hrun.
  assert (Hres : ∃ w1,
    (if truthy (heap w) (dict_get _config "value_source")
     then _resolve_value_source (dict_get _config "value_source") context
     else ret (dict_get _config "value")) w
    = (Ok (if truthy (heap w) (dict_get _config "value_source")
           then source_value (heap w) (utcnow_isoformat (ticks w))
                  (dict_get _config "value_source") context
           else dict_get _config "value"), w1)
    ∧ heap w1 = heap w).
  { destruct (truthy (heap w) (dict_get _config "value_source")).
    - apply resolve_value_source_run.
    - by eexists. }
  destruct Hres as (w1 & Hres & Hh). rewrite Hres in Hrun.
  set (v := if truthy (heap w) _ then _ else _) in *.
  destruct (truthy (heap w) v) eqn:Hv; cbn [negb] in Hrun;
    [| injection Hrun as <- <-; discriminate Hp].
  unfold bind at 1 in Hrun.
  destruct (update_entity_tags context (KStr k) v w1) as [[[] | e |] w2] eqn:Hu.
  - cbv [bind get_heap ret] in Hrun. injection Hrun as <- <-.
    exists v, w1. split_and!; done.
  - cbv [on_exception ret] in Hrun. injection Hrun as <- <-. discriminate Hp.
  - discriminate Hrun.
Qed.

(** X13: what a passing [assign_tag] step leaves behind.  On an entity that
    exists and whose ['tags'] entry is not the entity itself, after the step
    has passed the entity has a tag dictionary in which the configured key
    maps to the value reported in the outcome; every other tag is as it was
    (there is none when the dictionary had to be created), and so is every
    other entry of the entity. *)
Theorem assign_tag_stores_the_tag _config context w k result w' :
  let e := StepContext.entity context in
  dict_get_default _config "key" "" = VStr k ->
  is_Some (heap w !! e) ->
  dict_get (deref (heap w) e) "tags" ≠ VDict e ->
  AssignTagStepHandler_execute _config context w = (Ok result, w') ->
  StepResult.passed result = true ->
  ∃ v t,
    StepResult.data result = Some (PDict [("key", DVal (VStr k)); ("value", DVal v)])
    ∧ deref (heap w') e !! "tags" = Some (VDict t)
    ∧ deref (heap w') t !! k = Some v
    ∧ (∀ k', k' ≠ k ->
         deref (heap w') t !! k'
         = match deref (heap w) e !! "tags" with
           | Some (VDict t0) => deref (heap w) t0 !! k'
           | _ => None
           end)
    ∧ (∀ key, key ≠ "tags" -> deref (heap w') e !! key = deref (heap w) e !! key).
Proof.
  intros e Hkey He Hself Hrun Hp.
  destruct (assign_tag_run _ _ _ _ _ _ Hkey Hrun Hp)
    as (v & w1 & Hh & Hv & _ & Hu & Hdata & _ & _).
  destruct (update_entity_tags_ok context k v w1 w') as (t & Hne & Ht & Hd & _ & Hrest);
    [by rewrite Hh | by rewrite Hh | exact Hu |].
  rewrite Hh in Hd, Hrest.
  exists v, t. split_and!; try done.
  - rewrite Hd. apply lookup_insert_eq.
  - intros k' Hk'. rewrite Hd, lookup_insert_ne by done. subst e.
    by destruct (deref (heap w) (StepContext.entity context) !! "tags") as [[| |] |].
Qed.

Lemma remove_tag_run _config context w k result w' :
  dict_get_default _config "key" "" = VStr k ->
  RemoveTagStepHandler_execute _config context w = (Ok result, w') ->
  StepResult.passed result = true ->
  remove_entity_tag context (KStr k) w = (Ok tt, w')
  ∧ StepResult.data result = Some (PDict [("key", DVal (VStr k))])
  ∧ StepResult.blocking result = false.
Proof.
  intros Hkey Hrun Hp.
  unfold RemoveTagStepHandler_execute in Hrun. rewrite Hkey in Hrun.
  unfold bind at 1, get_heap at 1 in Hrun. cbn [as_key] in Hrun.
  destruct (str_truthy k) eqn:Hk; [| injection Hrun as <- <-; discriminate Hp].
  unfold try_except, bind at 1 in Hrun.
  destruct (remove_entity_tag context (KStr k) w) as [[[] | e |] w2] eqn:Hu.
  - cbv [bind get_heap ret] in Hrun. injection Hrun as <- <-. done.
  - cbv [on_exception ret] in Hrun. injection Hrun as <- <-. discriminate Hp.
  - discriminate Hrun.
Qed.

Lemma remove_entity_tag_ok context k w w' :
  let e := StepContext.entity context in
  remove_entity_tag context (KStr k) w = (Ok tt, w') ->
  match deref (heap w') e !! "tags" with
  | Some (VDict t) => deref (heap w') t !! k = None
  | _ => True
  end
  ∧ (∀ l k', k' ≠ k -> deref (heap w') l !! k' = deref (heap w) l !! k')
  ∧ (∀ t, deref (heap w) e !! "tags" = Some (VDict t) ->
          heap w' = if bool_decide (is_Some (deref (heap w) t !! k))
                    then <[t := delete k (deref (heap w) t)]> (heap w)
                    else heap w).
Proof.
  intros e E. unfold remove_entity_tag in E.
  destruct w as [h x n tk tr]. run_tags_in E. cbn [heap] in *. fold e in E |- *.
  unfold dict_get in E.
  destruct (deref h e !! "tags") as [[| str | t] |] eqn:Ht; cbn [from_option id] in E.
  - rewrite bool_decide_eq_true_2 in E by done. done.
  - rewrite bool_decide_eq_true_2 in E by done.
    destruct (contains k str); [done |]. injection E as <-. cbn [heap].
    rewrite Ht. done.
  - rewrite bool_decide_eq_true_2 in E by done.
    case_bool_decide as Hk; injection E as <-; cbn [heap].
    + split_and!.
      * destruct (decide (t = e)) as [-> | Hne].
        -- rewrite deref_insert_eq.
           destruct (decide (k = "tags")) as [-> | Hk'].
           ++ by rewrite lookup_delete_eq.
           ++ rewrite lookup_delete_ne, Ht by done. rewrite deref_insert_eq.
              apply lookup_delete_eq.
        -- rewrite deref_insert_ne, Ht by done. rewrite deref_insert_eq.
           apply lookup_delete_eq.
      * intros l k' Hk'. destruct (decide (t = l)) as [-> | Hne].
        -- rewrite deref_insert_eq. by rewrite lookup_delete_ne.
        -- by rewrite deref_insert_ne.
      * intros t' [= <-]. by rewrite bool_decide_eq_true_2.
    + rewrite Ht. split_and!; try done.
      * destruct (deref h t !! k) eqn:E'; [| done]. by destruct Hk.
      * intros t' [= <-]. by rewrite bool_decide_eq_false_2.
  - rewrite bool_decide_eq_false_2 in E by (by intros []).
    injection E as <-. cbn [heap]. rewrite Ht. done.
Qed.

(** X14: what a passing [remove_tag] step leaves behind: the configured key
    is in no tag dictionary of the entity any more, and nothing else has
    changed, in that every other key of every dictionary on the heap maps to
    what it mapped to before. *)
Theorem remove_tag_clears_the_tag _config context w k result w' :
  let e := StepContext.entity context in
  dict_get_default _config "key" "" = VStr k ->
  RemoveTagStepHandler_execute _config context w = (Ok result, w') ->
  StepResult.passed result = true ->
  match deref (heap w') e !! "tags" with
  | Some (VDict t) => deref (heap w') t !! k = None
  | _ => True
  end
  ∧ (∀ l k', k' ≠ k -> deref (heap w') l !! k' = deref (heap w) l !! k')
  ∧ StepResult.data result = Some (PDict [("key", DVal (VStr k))]).
Proof.
  intros e Hkey Hrun Hp.
  destruct (remove_tag_run _ _ _ _ _ _ Hkey Hrun Hp) as (Hu & Hdata & _).
  destruct (remove_entity_tag_ok _ _ _ _ Hu) as (Hgone & Hframe & _).
  done.
Qed.

Lemma remove_tag_of_dict _config context w k t :
  dict_get_default _config "key" "" = VStr k ->
  str_truthy k = true ->
  deref (heap w) (StepContext.entity context) !! "tags" = Some (VDict t) ->
  RemoveTagStepHandler_execute _config context w
  = (Ok (StepResult.mk true (VStr ("Removed tag " ++ k))
           (Some (PDict [("key", DVal (VStr k))])) None false),
     set_heap (if bool_decide (is_Some (deref (heap w) t !! k))
               then <[t := delete k (deref (heap w) t)]> (heap w)
               else heap w) w).
Proof.
  intros Hkey Hk Ht.
  unfold RemoveTagStepHandler_execute. rewrite Hkey.
  unfold bind at 1, get_heap at 1. cbn [as_key]. rewrite Hk.
  unfold try_except, bind at 1, remove_entity_tag.
  destruct w as [h x n tk tr]. cbn [heap] in *.
  cbv [bind ret raise lift try_except modify get_heap entity_has entity_get
       new_dict dict_setitem dict_delitem setitem contains_key delitem
       heap set_heap fst snd].
  unfold dict_get. rewrite Ht. cbn [from_option id].
  rewrite bool_decide_eq_true_2 by done.
  by case_bool_decide.
Qed.

(** X15: removing a tag that has just been assigned.  After a passing
    [assign_tag] step (on an entity that exists and whose ['tags'] entry is
    not the entity itself) a [remove_tag] step for the same key passes and
    leaves the key out of the entity's tag dictionary; when the key was not
    set before the assignment, the tag dictionary the entity had is back to
    what it was. *)
Theorem remove_undoes_assign assign_config remove_config context w k result w1 :
  let e := StepContext.entity context in
  dict_get_default assign_config "key" "" = VStr k ->
  dict_get_default remove_config "key" "" = VStr k ->
  is_Some (heap w !! e) ->
  dict_get (deref (heap w) e) "tags" ≠ VDict e ->
  AssignTagStepHandler_execute assign_config context w = (Ok result, w1) ->
  StepResult.passed result = true ->
  ∃ result' w2 t,
    RemoveTagStepHandler_execute remove_config context w1 = (Ok result', w2)
    ∧ StepResult.passed result' = true
    ∧ deref (heap w2) e !! "tags" = Some (VDict t)
    ∧ deref (heap w2) t !! k = None
    ∧ (∀ t0, deref (heap w) e !! "tags" = Some (VDict t0) ->
             deref (heap w) t0 !! k = None ->
             deref (heap w2) t0 = deref (heap w) t0).
Proof.
  intros e Ha Hr He Hself Hrun Hp.
  destruct (assign_tag_run _ _ _ _ _ _ Ha Hrun Hp)
    as (v & w0 & Hh & Hv & _ & Hu & _ & _ & Hk).
  destruct (update_entity_tags_ok context k v w0 w1) as (t & Hne & Ht & Hd & Hsame & _);
    [by rewrite Hh | by rewrite Hh | exact Hu |].
  rewrite Hh in Hd, Hsame. fold e in Ht, Hd, Hsame, Hne.
  rewrite (remove_tag_of_dict remove_config context w1 k t Hr Hk Ht).
  assert (Hin : is_Some (deref (heap w1) t !! k)).
  { rewrite Hd, lookup_insert_eq. done. }
  rewrite bool_decide_eq_true_2 by done.
  eexists _, _, t. split; [reflexivity |]. cbn [StepResult.passed heap set_heap].
  split_and!; try done.
  - by rewrite deref_insert_ne.
  - rewrite deref_insert_eq. apply lookup_delete_eq.
  - intros t0 Ht0 Hnone. pose proof (Hsame t0 Ht0) as <-.
    rewrite deref_insert_eq, Hd, Ht0. rewrite delete_insert_eq.
    by apply delete_id.
Qed.

(** X16: a configured [value_source] takes the place of the literal
    [value].  When the source yields nothing (its name is none of
    ['current_user'], ['project_name'], ['entity_name'], ['timestamp'], or it
    is ['current_user'] and the run has no user email, or ['entity_name'] and
    the entity has no name) the step fails with "Could not resolve tag
    value", whatever [value] is configured, and the world is left alone. *)
Theorem value_source_overrides_the_value _config context w k :
  let value_source := dict_get _config "value_source" in
  dict_get_default _config "key" "" = VStr k ->
  str_truthy k = true ->
  truthy (heap w) value_source = true ->
  (eq_str value_source "current_user" = false
   ∧ eq_str value_source "project_name" = false
   ∧ eq_str value_source "entity_name" = false
   ∧ eq_str value_source "timestamp" = false)
  ∨ (eq_str value_source "current_user" = true
     ∧ opt_truthy (StepContext.user_email context) = false)
  ∨ (eq_str value_source "entity_name" = true
     ∧ opt_truthy (StepContext.entity_name context) = false) ->
  AssignTagStepHandler_execute _config context w
  = (Ok (failed_with "Could not resolve tag value"), w).
Proof.
  intros value_source Hkey Hk Hvs Hcase.
  unfold AssignTagStepHandler_execute. rewrite Hkey. fold value_source.
  unfold bind at 1, get_heap at 1. cbn [as_key]. rewrite Hk, Hvs.
  unfold try_except, bind at 1.
  assert (Hres : ∃ v, _resolve_value_source value_source context w = (Ok v, w)
                      ∧ truthy (heap w) v = false).
  { unfold _resolve_value_source.
    destruct Hcase as [(H1 & H2 & H3 & H4) | [(H1 & Hu) | (H3 & Hn)]].
    - rewrite H1, H2, H3, H4. by exists VNone.
    - rewrite H1. eexists. split; [done |].
      by destruct (StepContext.user_email context).
    - destruct value_source as [| s |]; try done. cbn [eq_str] in *.
      apply String.eqb_eq in H3 as ->. cbn.
      eexists. split; [done |].
      by destruct (StepContext.entity_name context). }
  destruct Hres as (v & -> & Hv). by rewrite Hv.
Qed.

(** X17: tag steps need a tag dictionary.  When the entity's ['tags'] entry
    is there but is [None] or a string, an [assign_tag] step never passes
    and leaves the heap as it was; with a value to assign, its error is the
    one Python raises for the item assignment.  A [remove_tag] step fails on
    [None]; on a string it tests the key as a substring: it fails when the
    key occurs in the string and passes, having done nothing, when it does
    not. *)
Theorem tag_steps_need_a_tag_dictionary _config context w k tags :
  let e := StepContext.entity context in
  dict_get_default _config "key" "" = VStr k ->
  str_truthy k = true ->
  deref (heap w) e !! "tags" = Some tags ->
  (∀ t, tags ≠ VDict t) ->
  (∃ result w',
     AssignTagStepHandler_execute _config context w = (Ok result, w')
     ∧ StepResult.passed result = false
     ∧ heap w' = heap w
     ∧ (StepResult.error result = Some "Could not resolve tag value"
        ∨ StepResult.error result = Some (fault_message (NoItemAssignment tags))))
  ∧ RemoveTagStepHandler_execute _config context w
    = (Ok (match tags with
           | VStr str =>
               if contains k str
               then failed_with (fault_message (NoItemDeletion tags))
               else StepResult.mk true (VStr ("Removed tag " ++ k))
                      (Some (PDict [("key", DVal (VStr k))])) None false
           | _ => failed_with (fault_message (NotAContainer VNone))
           end), w).
Proof.
  intros e Hkey Hk Htags Hnd. split.
  - unfold AssignTagStepHandler_execute. rewrite Hkey.
    unfold bind at 1, get_heap at 1. cbn [as_key]. rewrite Hk.
    unfold try_except, bind at 1.
    assert (Hres : ∃ v w1,
      (if truthy (heap w) (dict_get _config "value_source")
       then _resolve_value_source (dict_get _config "value_source") context
       else ret (dict_get _config "value")) w = (Ok v, w1)
      ∧ heap w1 = heap w).
    { destruct (truthy (heap w) (dict_get _config "value_source")).
      - destruct (resolve_value_source_run (dict_get _config "value_source") context w)
          as (w1 & -> & Hh). by eexists _, _.
      - by eexists _, _. }
    destruct Hres as (v & w1 & -> & Hh).
    destruct (truthy (heap w) v); cbn [negb];
      [| eexists _, _; split_and!; try done; by left].
    unfold bind at 1, update_entity_tags.
    destruct w as [h x0 n0 tk0 tr0]. destruct w1 as [h1 x n tk tr].
    cbn [heap] in *. subst h1.
    cbv [bind ret raise lift try_except modify get_heap entity_has entity_get
         new_dict dict_setitem dict_delitem setitem contains_key delitem
         heap set_heap fst snd on_exception].
    fold e. rewrite bool_decide_eq_true_2 by (by rewrite Htags).
    unfold dict_get. rewrite Htags. cbn [from_option id].
    destruct tags as [| str | t]; [| | by destruct (Hnd t)];
      eexists _, _; split_and!; try done; by right.
  - unfold RemoveTagStepHandler_execute. rewrite Hkey.
    unfold bind at 1, get_heap at 1. cbn [as_key]. rewrite Hk.
    unfold try_except, bind at 1, remove_entity_tag.
    destruct w as [h x n tk tr]. cbn [heap] in *.
    cbv [bind ret raise lift try_except modify get_heap entity_has entity_get
         new_dict dict_setitem dict_delitem setitem contains_key delitem
         heap set_heap fst snd on_exception].
    fold e. rewrite bool_decide_eq_true_2 by (by rewrite Htags).
    unfold dict_get. rewrite Htags. cbn [from_option id].
    destruct tags as [| str | t]; [done | | by destruct (Hnd t)].
    by destruct (contains k str).
Qed.

(** ** The step lookup *)

Lemma index_steps_snoc steps s :
  index_steps (steps ++ [s]) = <[WorkflowStep.step_id s := s]> (index_steps steps).
Proof. unfold index_steps. by rewrite foldl_app. Qed.

Lemma step_ids_snoc steps s :
  step_ids (steps ++ [s]) = (step_ids steps ++ [WorkflowStep.step_id s])%list.
Proof. unfold step_ids. by rewrite map_app. Qed.

Lemma index_steps_None steps k :
  index_steps steps !! k = None ↔ k ∉ step_ids steps.
Proof.
  induction steps as [| s steps IH] using rev_ind.
  - split; [intros _; apply not_elem_of_nil | done].
  - rewrite index_steps_snoc, step_ids_snoc, lookup_insert_None, IH.
    rewrite not_elem_of_app, not_elem_of_cons. split.
    + intros [? ?]. split_and!; [done | congruence | apply not_elem_of_nil].
    + intros (? & ? & _). split; congruence.
Qed.

Lemma index_steps_elem steps k s :
  index_steps steps !! k = Some s -> s ∈ steps.
Proof.
  induction steps as [| s' steps IH] using rev_ind; [done |].
  rewrite index_steps_snoc, lookup_insert_Some, elem_of_app, list_elem_of_singleton.
  intros [[_ <-] | [_ H]]; [by right | left; by apply IH].
Qed.

Lemma index_steps_last pre s post :
  WorkflowStep.step_id s ∉ step_ids post ->
  index_steps (pre ++ s :: post) !! WorkflowStep.step_id s = Some s.
Proof.
  induction post as [| p post IH] using rev_ind; intros Hnot.
  - rewrite index_steps_snoc. apply lookup_insert_eq.
  - rewrite step_ids_snoc, not_elem_of_app, not_elem_of_cons in Hnot.
    destruct Hnot as (Hpost & Hp & _).
    change (pre ++ s :: post ++ [p])%list with (pre ++ (s :: post) ++ [p])%list.
    rewrite app_assoc, index_steps_snoc, lookup_insert_ne by done.
    by apply IH.
Qed.

(** X18: the step lookup of a run.  An id is looked up to the last step of
    the list that carries it, so a step defined further down shadows an
    earlier step of the same id (the first step of the list included: the
    run starts at the step its id is looked up to); an id is found exactly
    when some step carries it, and what is found carries the id asked for. *)
Theorem later_steps_shadow_earlier_ones steps :
  (∀ pre s post,
     steps = (pre ++ s :: post)%list ->
     WorkflowStep.step_id s ∉ step_ids post ->
     index_steps steps !! WorkflowStep.step_id s = Some s)
  ∧ (∀ k, is_Some (index_steps steps !! k) ↔ k ∈ step_ids steps)
  ∧ (∀ k s, index_steps steps !! k = Some s -> s ∈ steps ∧ WorkflowStep.step_id s = k).
Proof.
  split_and!.
  - intros pre s post -> Hnot. by apply index_steps_last.
  - intros k. rewrite <- not_eq_None_Some, index_steps_None.
    split; [apply dec_stable | by intros H Hn].
  - intros k s Hs. split; [by eapply index_steps_elem | by eapply index_steps_key].
Qed.

(** ** The walk through the step graph *)

Lemma returns_app a b : returns (a ++ b) = (returns a ++ returns b)%list.
Proof. induction a as [| [] a IH]; cbn; congruence. Qed.

Lemma returns_final_events eid rl fin : returns (final_events eid rl fin) = [].
Proof. unfold final_events. destruct rl; try done. by case_bool_decide. Qed.

Lemma loop_trace_follows sbi eid hf l evs r :
  (∀ k s, sbi !! k = Some s -> WorkflowStep.step_id s = k) ->
  loop_trace sbi eid hf l evs r ->
  follows sbi (current_step_id l) (returns evs).
Proof.
  intros Hkey.
  induction 1 as
    [ l Hc | l Hc | l cur Hcur Ht Hs
    | l cur step res row Hcur Ht Hs Hrec Hb
    | l cur step res row Hcur Ht Hs Hrec Hb Hnext
    | l cur step res row evs r Hcur Ht Hs Hrec Hb Hnext Hlt IH ];
    try done.
  - pose proof (Hkey _ _ Hs) as Hk. cbn. rewrite Hk, Hs. done.
  - pose proof (Hkey _ _ Hs) as Hk. cbn. rewrite Hk, Hs. done.
  - pose proof (Hkey _ _ Hs) as Hk. rewrite returns_app. cbn. rewrite Hk, Hs. done.
Qed.

(** X19: a run walks the step graph.  The outcomes of a run, in the order
    in which they were produced, start at the id of the first step of the
    workflow; each is the outcome of the step its id is looked up to, and
    the next one belongs to the step named by [on_pass] of that step when
    the outcome passed and by [on_fail] when it did not. *)
Theorem a_run_follows_the_edges fuel workflow entity entity_type entity_id
    entity_name user_email trigger_context blocking w :
  let run := execute_workflow fuel workflow entity entity_type entity_id
               entity_name user_email trigger_context blocking w in
  follows (index_steps (ProcessWorkflow.steps workflow))
    (match ProcessWorkflow.steps workflow with
     | s :: _ => Some (WorkflowStep.step_id s)
     | [] => None
     end)
    (returns (new_events w run.2)).
Proof.
  intros run. subst run.
  destruct (execute_workflow_sound fuel workflow entity entity_type entity_id
              entity_name user_email trigger_context blocking w)
    as (evs & rl & fin & Htr & _ & _ & Hlt & _).
  cbn zeta in *. rewrite (new_events_app _ _ _ Htr).
  change (returns (Created ?r :: ?a)) with (returns a).
  rewrite returns_app, returns_final_events, app_nil_r.
  exact (loop_trace_follows _ _ _ _ _ _ (index_steps_key _) Hlt).
Qed.

(** ** The writes of a run *)

Lemma loop_trace_own_writes sbi eid hf l evs r :
  loop_trace sbi eid hf l evs r -> Forall (own_write eid) evs.
Proof.
  induction 1 as
    [ l Hc | l Hc | l cur Hcur Ht Hs
    | l cur step res row Hcur Ht Hs Hrec Hb
    | l cur step res row Hcur Ht Hs Hrec Hb Hnext
    | l cur step res row evs r Hcur Ht Hs Hrec Hb Hnext Hlt IH ];
    try apply Forall_nil_2.
  - repeat apply Forall_cons_2; try apply Forall_nil_2; first [by left | by right].
  - repeat apply Forall_cons_2; try apply Forall_nil_2; first [by left | by right].
  - apply Forall_app_2; [| exact IH].
    repeat apply Forall_cons_2; try apply Forall_nil_2; first [by left | by right].
Qed.

Lemma final_events_own_writes eid rl fin : Forall (own_write eid) (final_events eid rl fin).
Proof.
  unfold final_events. destruct rl; try apply Forall_nil_2.
  case_bool_decide; [| apply Forall_nil_2].
  apply Forall_cons_2; [by right | apply Forall_nil_2].
Qed.

Lemma replay_other eid evs (x : gmap string WorkflowExecutionDb.t) id :
  Forall (own_write eid) evs -> id ≠ eid -> replay evs x !! id = x !! id.
Proof.
  intros Hown Hne. revert x.
  induction Hown as [| ev evs Hev Hown IH]; intros x; [done |].
  change (replay (ev :: evs) x) with (replay evs (apply_event ev x)). rewrite IH.
  unfold own_write in Hev. destruct ev; cbn in *; try done.
  - destruct Hev as [Hev | Hev]; [done |]. injection Hev as Hev.
    apply lookup_insert_ne. congruence.
  - destruct Hev as [Hev | Hev]; [done |]. injection Hev as Hev.
    apply lookup_alter_ne. congruence.
  - destruct Hev as [Hev | Hev]; [done |]. injection Hev as Hev.
    apply lookup_alter_ne. congruence.
Qed.

(** X20: a run writes to its own execution only.  The execution it creates
    has an id no stored execution has; every write of the run (the creation,
    the step records, the status updates) is addressed to that id; so every
    other stored execution, and the stored workflows, are after the run what
    they were before. *)
Theorem a_run_writes_its_own_execution_only fuel workflow entity entity_type entity_id
    entity_name user_email trigger_context blocking w :
  let run := execute_workflow fuel workflow entity entity_type entity_id
               entity_name user_email trigger_context blocking w in
  let eid := fresh (dom (executions w)) in
  executions w !! eid = None
  ∧ Forall (own_write eid) (new_events w run.2)
  ∧ (∀ id, id ≠ eid -> executions run.2 !! id = executions w !! id)
  ∧ workflow_names run.2 = workflow_names w.
Proof.
  intros run eid. subst run.
  destruct (execute_workflow_sound fuel workflow entity entity_type entity_id
              entity_name user_email trigger_context blocking w)
    as (evs & rl & fin & Htr & Hex & Hn & Hlt & _).
  cbn zeta in *. fold eid in Htr, Hex, Hlt.
  rewrite (new_events_app _ _ _ Htr).
  assert (Hown : Forall (own_write eid)
                   (Created (created_row w (ProcessWorkflow.id workflow) trigger_context
                               user_email) :: evs ++ final_events eid rl fin)).
  { apply Forall_cons_2; [by right |].
    apply Forall_app_2; [by eapply loop_trace_own_writes | apply final_events_own_writes]. }
  split_and!.
  - apply not_elem_of_dom. apply is_fresh.
  - exact Hown.
  - intros id Hid. rewrite Hex. by apply (replay_other eid).
  - exact Hn.
Qed.

(** ** A branch that names no step *)




(** ** The run around the loop *)

Lemma execute_workflow_loop fuel workflow entity entity_type entity_id
    entity_name user_email trigger_context blocking w :
  let run := execute_workflow fuel workflow entity entity_type entity_id
               entity_name user_email trigger_context blocking w in
  let eid := fresh (dom (executions w)) in
  let loop :=
    while_loop fuel (index_steps (ProcessWorkflow.steps workflow)) eid
      (initial_locals w workflow entity_type entity_id entity_name user_email
         trigger_context)
      (loop_entry_world w (ProcessWorkflow.id workflow) trigger_context user_email
         entity) in
  match loop.1 with
  | Ok l =>
      heap run.2 = heap loop.2
      ∧ ∃ x y,
          executions loop.2 !! eid = Some y
          ∧ executions run.2 !! eid = Some x
          ∧ x = (if bool_decide (final_status l ≠ PAUSED)
                 then write_status (ExecutionStatus_value (final_status l)) None
                        (Some (success_count l)) (Some (failure_count l))
                        (error_message l) (Some (utcnow_isoformat (ticks loop.2))) y
                 else y)
          ∧ new_events w run.2
            = (new_events w loop.2
               ++ final_events eid (Ok l) (utcnow_isoformat (ticks loop.2)))%list
          ∧ run.1 = (_db_to_model x (ProcessWorkflow.name workflow) run.2).1
  | OutOfFuel => run = (OutOfFuel, loop.2)
  | Raise e => False
  end.
Proof.
  intros run eid loop. subst run.
  destruct (execute_workflow _ _ _ _ _ _ _ _ _ w) as [r w'] eqn:Hrun.
  cbn [fst snd].
  unfold execute_workflow in Hrun.
  unfold bind at 1 in Hrun. unfold workflow_execution_repo_create, emit in Hrun.
  cbn [fst snd] in Hrun.
  fold eid in Hrun. unfold bind at 1 in Hrun. unfold dict_copy in Hrun.
  cbn [heap log set_executions] in Hrun.
  unfold bind at 1 in Hrun.
  change (while_loop fuel _ eid _ _) with loop in Hrun.
  destruct (while_loop_sound (index_steps (ProcessWorkflow.steps workflow)) eid fuel
              (initial_locals w workflow entity_type entity_id entity_name user_email
                 trigger_context)
              (loop_entry_world w (ProcessWorkflow.id workflow) trigger_context
                 user_email entity))
    as (evs & Htr & Hex & Hn & Hlt).
  fold loop in Htr, Hex, Hn, Hlt.
  assert (Hrow : is_Some (executions loop.2 !! eid)).
  { rewrite Hex. apply replay_is_Some. cbn. rewrite lookup_insert_eq. done. }
  assert (Htr0 : ∃ evs0, trace loop.2 = (trace w ++ evs0)%list).
  { exists (Created (created_row w (ProcessWorkflow.id workflow) trigger_context
                      user_email) :: evs).
    rewrite Htr. cbn. by rewrite <- app_assoc. }
  destruct Htr0 as (evs0 & Htr0).
  clearbody loop.
  destruct loop as [[l | e |] w3]; cbn [fst snd] in *.
  - destruct Hrow as [y Hy].
    unfold final_events.
    destruct (bool_decide (final_status l ≠ PAUSED)) eqn:Hp.
    + unfold bind at 1 in Hrun. unfold bind at 1 in Hrun. unfold utcnow at 1 in Hrun.
      unfold workflow_execution_repo_update_status, emit in Hrun.
      unfold bind at 1 in Hrun. unfold workflow_execution_repo_get in Hrun.
      cbn [fst snd] in Hrun.
      set (w4 := log _ _) in Hrun.
      assert (Hx : executions w4 !! eid
                   = Some (write_status (ExecutionStatus_value (final_status l)) None
                             (Some (success_count l)) (Some (failure_count l))
                             (error_message l) (Some (utcnow_isoformat (ticks w3))) y)).
      { subst w4. cbn. rewrite lookup_alter_eq, Hy. done. }
      rewrite Hx in Hrun.
      match type of Hrun with
      | _db_to_model ?x ?n w4 = _ =>
          pose proof (stateless_db_to_model x n w4) as [Hw _]
      end.
      rewrite Hrun in Hw. cbn [fst snd] in Hw. subst w'.
      split; [done |]. eexists _, y. split_and!; try done.
      * subst w4. unfold new_events. cbn [trace log tick set_executions].
        rewrite Htr0, !drop_app_length. rewrite <- app_assoc, drop_app_length. done.
      * by rewrite Hrun.
    + unfold bind at 1 in Hrun. cbn [ret] in Hrun.
      unfold bind at 1 in Hrun. unfold workflow_execution_repo_get in Hrun.
      cbn [fst snd] in Hrun. rewrite Hy in Hrun.
      pose proof (stateless_db_to_model y (ProcessWorkflow.name workflow) w3) as [Hw _].
      rewrite Hrun in Hw. cbn [fst snd] in Hw. subst w'.
      split; [done |]. exists y, y. rewrite app_nil_r. split_and!; try done.
      by rewrite Hrun.
  - by apply loop_trace_no_raise with (e := e) in Hlt.
  - by injection Hrun as <- <-.
Qed.

(** ** Invariants of the loop *)

(** One pass through the loop body, with the dispatch it makes. *)
Lemma loop_body_step sbi eid current l w step :
  sbi !! current = Some step ->
  ∃ result w1 w2 w',
    heap w1 = heap w
    ∧ _execute_step step (context l) w1 = (Ok result, w2)
    ∧ heap w' = heap w2
    ∧ loop_body sbi eid current l w
      = (Ok (body_outcome (heap w') current l step result), w')
    ∧ dispatches (trace w') = S (dispatches (trace w)).
Proof.
  intros Hstep.
  destruct (loop_body sbi eid current l w) as [r w'] eqn:Hlb.
  unfold loop_body in Hlb. rewrite Hstep in Hlb.
  unfold bind, time_now, emit, workflow_execution_repo_add_step_execution,
    workflow_execution_repo_update_status, get_heap in Hlb.
  cbn [fst snd] in Hlb.
  match type of Hlb with
  | context [_execute_step step (context l) ?w1] =>
      destruct (execute_step_ok step (context l) w1)
        as (result & w2 & E & Ht & Hx & Hn & Hk);
      rewrite E in Hlb; exists result, w1, w2, w'
  end.
  cbn in Ht. split; [done |]. split; [exact E |].
  unfold body_outcome.
  destruct (StepResult.blocking result) eqn:Hb.
  - cbn in Hlb. injection Hlb as <- <-. cbn. split_and!; try done.
    rewrite Ht, !dispatches_app. cbn. lia.
  - destruct (opt_truthy (next_step_id step result)) eqn:Hnext;
      unfold next_step_id in Hnext; rewrite Hnext in Hlb.
    + cbn in Hlb. injection Hlb as <- <-. cbn. split_and!; try done.
      rewrite Ht, !dispatches_app. cbn. lia.
    + destruct (StepResult.passed result) eqn:Hp;
        cbn in Hlb; injection Hlb as <- <-; cbn;
        unfold next_step_id, after_step; rewrite ?Hp; split_and!; try done;
        rewrite Ht, !dispatches_app; cbn; lia.
Qed.

(** A property of the locals and the heap that every dispatch keeps holds
    when the loop is left, however it is left. *)
Lemma while_loop_invariant (P : locals -> gmap loc (gmap string value) -> Prop) sbi eid :
  (∀ cur step l w1 result w2 hf,
     sbi !! cur = Some step ->
     P l (heap w1) ->
     _execute_step step (context l) w1 = (Ok result, w2) ->
     P (body_outcome hf cur l step result).2 (heap w2)) ->
  (∀ l h cur,
     P l h ->
     P (Locals (context l) (success_count l) (failure_count l) (Some cur) FAILED
          (VStr ("Step not found: " ++ cur))) h) ->
  ∀ fuel l w,
    P l (heap w) ->
    ∃ l', P l' (heap (while_loop fuel sbi eid l w).2)
          ∧ ∀ l'', (while_loop fuel sbi eid l w).1 = Ok l'' -> l'' = l'.
Proof.
  intros Hstep Hmiss.
  induction fuel as [| n IH]; intros l w HP.
  - cbn [while_loop]. destruct (current_step_id l) as [cur |]; [| by exists l; split; [| intros ? [= <-]]].
    destruct (str_truthy cur); exists l; split; try done. by intros ? [= <-].
  - cbn [while_loop].
    destruct (current_step_id l) as [cur |] eqn:Hcur;
      [| by exists l; split; [| intros ? [= <-]]].
    destruct (str_truthy cur) eqn:Ht; [| by exists l; split; [| intros ? [= <-]]].
    destruct (sbi !! cur) as [step |] eqn:Hs.
    + destruct (loop_body_step sbi eid cur l w step Hs)
        as (result & w1 & w2 & w' & Hh1 & E & Hh2 & Hlb & _).
      unfold bind. rewrite Hlb.
      assert (HP' : P (body_outcome (heap w') cur l step result).2 (heap w')).
      { rewrite Hh2 at 2. eapply Hstep; [exact Hs | | exact E]. by rewrite Hh1. }
      destruct (body_outcome (heap w') cur l step result) as [[|] l1]; cbn [fst snd] in *.
      * by apply IH.
      * exists l1. split; [done |]. by intros ? [= <-].
    + unfold bind, loop_body. rewrite Hs. cbn.
      eexists. split; [by apply Hmiss |]. by intros ? [= <-].
Qed.

(** ** What a run does to the heap *)

Lemma execute_step_heap step c w :
  heap (_execute_step step c w).2 = heap w
  ∨ heap (_execute_step step c w).2
    = assign_tag_effect (heap w) (utcnow_isoformat (ticks w))
        (default ∅ (WorkflowStep.config step)) c
  ∨ heap (_execute_step step c w).2
    = remove_tag_effect (heap w) (default ∅ (WorkflowStep.config step)) c.
Proof.
  unfold _execute_step.
  destruct (HANDLERS_get (WorkflowStep.step_type step)) as [cls |]; [| by left].
  set (cfg := default ∅ (WorkflowStep.config step)).
  assert (Hh : heap (try_except (execute cls cfg c) on_exception w).2
               = heap (execute cls cfg c w).2).
  { unfold try_except. by destruct (execute cls cfg c w) as [[r | e |] w1]. }
  rewrite Hh.
  assert (Hcls : cls = AssignTagStepHandler ∨ cls = RemoveTagStepHandler
                 ∨ (cls ≠ AssignTagStepHandler ∧ cls ≠ RemoveTagStepHandler))
    by (destruct cls; first [by left | by right; left | by right; right]).
  destruct Hcls as [-> | [-> | [Ha Hr]]].
  - right. left. apply assign_tag_heap.
  - right. right. apply remove_tag_heap.
  - left. by rewrite (proj1 (stateless_execute cls cfg c Ha Hr w)).
Qed.

Lemma protected_insert h entity copy d0 t d :
  protected h entity copy d0 -> t ≠ entity -> t ≠ copy ->
  protected (<[t := d]> h) entity copy d0.
Proof.
  intros (Hd & He & Hc & Hne & Htags) Hte Htc. unfold protected.
  rewrite !deref_insert_ne, !lookup_insert_ne by done. done.
Qed.

Lemma store_tag_protected h entity copy d0 k v :
  protected h entity copy d0 -> protected (store_tag h copy k v) entity copy d0.
Proof.
  intros Hp. pose proof Hp as (Hd & He & Hc & Hne & Htags).
  destruct (decide (is_Some (deref h copy !! "tags"))) as [Hhas | Hhas].
  - rewrite store_tag_present by done. unfold dict_get.
    destruct (deref h copy !! "tags") as [[| str | t] |]; cbn [from_option id]; try done.
    destruct k as [s | l]; [| done].
    destruct Htags as [Hte Htc]. by apply protected_insert.
  - unfold store_tag. rewrite bool_decide_eq_false_2 by done. cbn zeta.
    set (l := fresh (dom h)).
    assert (Hle : l ≠ entity) by (by apply fresh_loc_ne).
    assert (Hlc : l ≠ copy) by (by apply fresh_loc_ne).
    rewrite deref_insert_eq, dict_get_insert_eq.
    set (h2 := <[copy := _]> (<[l := ∅]> h)).
    assert (Hp2 : protected h2 entity copy d0).
    { unfold protected, h2.
      rewrite deref_insert_ne, deref_insert_ne by done.
      rewrite (lookup_insert_ne _ copy entity), (lookup_insert_ne _ l entity) by done.
      rewrite deref_insert_eq, !lookup_insert_eq. done. }
    destruct k as [s | kl]; [| exact Hp2].
    by apply protected_insert.
Qed.

Lemma drop_tag_protected h entity copy d0 k :
  protected h entity copy d0 -> protected (drop_tag h copy k) entity copy d0.
Proof.
  intros Hp. pose proof Hp as (Hd & He & Hc & Hne & Htags).
  unfold drop_tag. case_bool_decide; [| done]. unfold dict_get.
  destruct (deref h copy !! "tags") as [[| str | t] |]; cbn [from_option id]; try done.
  destruct k as [s | l]; [| done].
  case_bool_decide; [| done].
  destruct Htags as [Hte Htc]. by apply protected_insert.
Qed.

Lemma execute_step_protected step c w entity d0 :
  protected (heap w) entity (StepContext.entity c) d0 ->
  protected (heap (_execute_step step c w).2) entity (StepContext.entity c) d0.
Proof.
  intros Hp.
  destruct (execute_step_heap step c w) as [-> | [-> | ->]]; [done | |].
  - unfold assign_tag_effect. destruct (as_key _ _); [| done].
    destruct (negb _); [done |]. by apply store_tag_protected.
  - unfold remove_tag_effect. destruct (as_key _ _); [| done].
    by apply drop_tag_protected.
Qed.

Lemma context_after_step hf cur l step result :
  StepContext.entity (context (body_outcome hf cur l step result).2)
  = StepContext.entity (context l).
Proof.
  unfold body_outcome.
  destruct (StepResult.blocking result); [done |].
  by destruct (opt_truthy _).
Qed.

(** X22: the copy protects the top level of the caller's entity.  When the
    caller's entity exists and its ['tags'] entry, if it is a dictionary, is
    a dictionary of its own, the caller's dictionary has after the run
    exactly the entries it had before, whatever the steps of the workflow
    did and also when the run never ends: handlers write to the copy and to
    the tag dictionary only (the collaborators being functions of their
    arguments). *)
Theorem the_copy_protects_the_top_level fuel workflow entity entity_type entity_id
    entity_name user_email trigger_context blocking w :
  let run := execute_workflow fuel workflow entity entity_type entity_id
               entity_name user_email trigger_context blocking w in
  is_Some (heap w !! entity) ->
  match deref (heap w) entity !! "tags" with
  | Some (VDict t) => t ≠ entity ∧ is_Some (heap w !! t)
  | _ => True
  end ->
  deref (heap run.2) entity = deref (heap w) entity.
Proof.
  intros run He Htags. subst run.
  pose proof (execute_workflow_loop fuel workflow entity entity_type entity_id
                entity_name user_email trigger_context blocking w) as Hloop.
  cbn zeta in Hloop.
  set (copy := fresh (dom (heap w))).
  set (d0 := deref (heap w) entity).
  set (l0 := initial_locals _ _ _ _ _ _ _) in *.
  set (w0 := loop_entry_world _ _ _ _ _) in *.
  assert (Hc : copy ≠ entity) by (by apply fresh_loc_ne).
  assert (H0 : StepContext.entity (context l0) = copy
               ∧ protected (heap w0) entity copy d0).
  { split; [done |]. unfold protected, w0, loop_entry_world. cbn [heap set_heap log set_executions].
    fold copy. rewrite deref_insert_ne, deref_insert_eq by done.
    rewrite lookup_insert_ne, lookup_insert_eq by done. split_and!; try done.
    fold d0. subst d0.
    destruct (deref (heap w) entity !! "tags") as [[| str | t] |]; try done.
    destruct Htags as [Hte Ht]. split; [done |].
    intros ->. by apply (fresh_loc_ne (heap w) copy Ht). }
  destruct (while_loop_invariant
              (fun l h => StepContext.entity (context l) = copy ∧ protected h entity copy d0)
              (index_steps (ProcessWorkflow.steps workflow))
              (fresh (dom (executions w)))) with (fuel := fuel) (l := l0) (w := w0)
    as (l' & [_ Hp] & _).
  - intros cur step l w1 result w2 hf Hs [Hent Hp] E.
    rewrite context_after_step. split; [done |].
    pose proof (execute_step_protected step (context l) w1 entity d0) as Hk.
    rewrite Hent, E in Hk. by apply Hk.
  - intros l h cur [Hent Hp]. done.
  - exact H0.
  - destruct Hp as (Hd & _).
    destruct (while_loop fuel _ _ l0 w0) as [[l | e |] w3]; cbn [fst snd] in *.
    + destruct Hloop as [-> _]. exact Hd.
    + done.
    + rewrite Hloop. exact Hd.
Qed.

(** ** The stored execution of a run *)

Lemma status_updates_app a b :
  status_updates (a ++ b) = (status_updates a + status_updates b)%nat.
Proof. induction a as [| [] a IH]; cbn; lia. Qed.

(** The row of the execution after the events of the loop. *)
Lemma loop_trace_row sbi eid hf l evs r :
  loop_trace sbi eid hf l evs r ->
  final_status l ≠ PAUSED ->
  ∀ (m : gmap string WorkflowExecutionDb.t) y0,
    m !! eid = Some y0 ->
    ∃ y, replay evs m !! eid = Some y
         ∧ WorkflowExecutionDb.id y = WorkflowExecutionDb.id y0
         ∧ WorkflowExecutionDb.workflow_id y = WorkflowExecutionDb.workflow_id y0
         ∧ WorkflowExecutionDb.trigger_context y = WorkflowExecutionDb.trigger_context y0
         ∧ WorkflowExecutionDb.triggered_by y = WorkflowExecutionDb.triggered_by y0
         ∧ WorkflowExecutionDb.finished_at y = WorkflowExecutionDb.finished_at y0
         ∧ WorkflowExecutionDb.error_message y = WorkflowExecutionDb.error_message y0
         ∧ WorkflowExecutionDb.step_executions y
           = (WorkflowExecutionDb.step_executions y0 ++ recorded_rows evs)%list
         ∧ ∀ l', r = Ok l' ->
             status_updates evs = (if bool_decide (final_status l' = PAUSED) then 1 else 0)
             ∧ (final_status l' = PAUSED ->
                WorkflowExecutionDb.status y = ExecutionStatus_value PAUSED)
             ∧ (final_status l' ≠ PAUSED ->
                WorkflowExecutionDb.status y = WorkflowExecutionDb.status y0).
Proof.
  induction 1 as
    [ l Hc | l Hc | l cur Hcur Ht Hs
    | l cur step res row Hcur Ht Hs Hrec Hb
    | l cur step res row Hcur Ht Hs Hrec Hb Hnext
    | l cur step res row evs r Hcur Ht Hs Hrec Hb Hnext Hlt IH ];
    intros Hst m y0 Hm.
  - exists y0. cbn. rewrite app_nil_r. split_and!; try done.
    intros l2 [= <-]. by rewrite bool_decide_eq_false_2.
  - exists y0. cbn. rewrite app_nil_r. split_and!; done.
  - exists y0. cbn. rewrite app_nil_r. split_and!; try done.
    intros l2 [= <-]. cbn. done.
  - eexists. cbn. rewrite lookup_alter_eq, lookup_alter_eq, Hm. cbn.
    split_and!; try done. intros l2 [= <-]. cbn. done.
  - eexists. cbn. rewrite lookup_alter_eq, Hm. cbn. split_and!; try done.
    intros l2 [= <-]. cbn. split_and!; try done.
    + by destruct (StepResult.passed res).
    + by destruct (StepResult.passed res).
  - rewrite replay_app.
    destruct (IH Hst (replay (step_events eid step res row) m) (append_step row y0))
      as (y & Hy & H1 & H2 & H3 & H4 & H5 & H6 & Hrows & Hok).
    { cbn. rewrite lookup_alter_eq, Hm. done. }
    exists y. rewrite recorded_rows_app, status_updates_app.
    cbn in *. rewrite Hrows, <- app_assoc. split_and!; done.
Qed.

Lemma ExecutionStatus_value_paused st :
  ExecutionStatus_value st = ExecutionStatus_value PAUSED -> st = PAUSED.
Proof. by destruct st. Qed.

(** The stored row of a run that has left its loop. *)
Lemma run_row_at_exit fuel workflow entity entity_type entity_id
    entity_name user_email trigger_context blocking w :
  let run := execute_workflow fuel workflow entity entity_type entity_id
               entity_name user_email trigger_context blocking w in
  let eid := fresh (dom (executions w)) in
  run.1 ≠ OutOfFuel ->
  ∃ l x rows finished_at,
    (while_loop fuel (index_steps (ProcessWorkflow.steps workflow)) eid
       (initial_locals w workflow entity_type entity_id entity_name user_email
          trigger_context)
       (loop_entry_world w (ProcessWorkflow.id workflow) trigger_context user_email
          entity)).1 = Ok l
    ∧ executions run.2 !! eid = Some x
    ∧ run.1 = (_db_to_model x (ProcessWorkflow.name workflow) run.2).1
    ∧ WorkflowExecutionDb.id x = eid
    ∧ WorkflowExecutionDb.workflow_id x = ProcessWorkflow.id workflow
    ∧ WorkflowExecutionDb.trigger_context x = (trigger_context_dumps <$> trigger_context)
    ∧ WorkflowExecutionDb.triggered_by x = user_email
    ∧ WorkflowExecutionDb.status x = ExecutionStatus_value (final_status l)
    ∧ WorkflowExecutionDb.finished_at x
      = (if bool_decide (final_status l = PAUSED) then None else Some finished_at)
    ∧ WorkflowExecutionDb.step_executions x = rows
    ∧ Forall (fun row => ∃ step result, recorded step result row) rows
    ∧ status_updates (new_events w run.2) = 1.
Proof.
  intros run eid Hfuel. subst run.
  pose proof (execute_workflow_loop fuel workflow entity entity_type entity_id
                entity_name user_email trigger_context blocking w) as Hloop.
  cbn zeta in Hloop. fold eid in Hloop.
  set (l0 := initial_locals _ _ _ _ _ _ _) in *.
  set (w0 := loop_entry_world _ _ _ _ _) in *.
  set (sbi := index_steps _) in *.
  destruct (while_loop_sound sbi eid fuel l0 w0) as (evs & Htr & Hex & _ & Hlt).
  set (row0 := created_row w (ProcessWorkflow.id workflow) trigger_context user_email).
  destruct (loop_trace_row _ _ _ _ _ _ Hlt ltac:(done) (executions w0) row0)
    as (y & Hy & H1 & H2 & H3 & H4 & H5 & H6 & Hrows & Hok).
  { unfold w0, loop_entry_world. cbn. fold eid. apply lookup_insert_eq. }
  assert (Hrec : Forall (fun row => ∃ step result, recorded step result row)
                   (recorded_rows evs)).
  { clear -Hlt. induction Hlt; cbn;
      repeat first [apply Forall_nil_2 | assumption
                   | apply Forall_cons_2; [by eexists _, _ |]]. }
  assert (Hnew : new_events w (while_loop fuel sbi eid l0 w0).2
                 = Created row0 :: evs).
  { unfold new_events. rewrite Htr. unfold w0, loop_entry_world.
    cbn [trace log set_heap set_executions]. fold row0.
    by rewrite <- app_assoc, drop_app_length. }
  rewrite Hnew in Hloop. rewrite <- Hex in Hy.
  fold l0 w0 sbi.
  destruct (while_loop fuel sbi eid l0 w0) as [[l | e |] w3]; cbn [fst snd] in *.
  - destruct Hloop as (_ & x & y' & Hy' & Hx & Hxy & Hev & Hrun).
    rewrite Hy in Hy'. injection Hy' as <-.
    destruct (Hok l eq_refl) as (Hcount & Hpaused & Hnot).
    exists l, x, (recorded_rows evs), (utcnow_isoformat (ticks w3)).
    rewrite Hev, status_updates_app.
    change (status_updates (Created row0 :: evs)) with (status_updates evs).
    rewrite Hcount. unfold final_events.
    destruct (decide (final_status l = PAUSED)) as [Hp | Hp].
    + rewrite (bool_decide_eq_false_2 (final_status l ≠ PAUSED)) in * by (by intros ?).
      rewrite bool_decide_eq_true_2 by done. subst x.
      rewrite Hp. split_and!; try done; try congruence. by apply Hpaused.
    + rewrite (bool_decide_eq_true_2 (final_status l ≠ PAUSED)) in * by done.
      rewrite bool_decide_eq_false_2 by done. subst x. cbn.
      split_and!; try done; congruence.
  - done.
  - by rewrite Hloop in Hfuel.
Qed.

(** ** From rows to models *)

Lemma StepExecutionStatus_of_inv s st :
  StepExecutionStatus_of s = inr st -> StepExecutionStatus_value st = s.
Proof.
  unfold StepExecutionStatus_of.
  destruct (String.eqb_spec s "succeeded") as [-> |]; [by intros [= <-] |].
  destruct (String.eqb_spec s "failed") as [-> |]; [by intros [= <-] | done].
Qed.

Lemma ExecutionStatus_of_inv s st :
  ExecutionStatus_of s = inr st -> ExecutionStatus_value st = s.
Proof.
  unfold ExecutionStatus_of.
  destruct (String.eqb_spec s "running") as [-> |]; [by intros [= <-] |].
  destruct (String.eqb_spec s "succeeded") as [-> |]; [by intros [= <-] |].
  destruct (String.eqb_spec s "failed") as [-> |]; [by intros [= <-] |].
  destruct (String.eqb_spec s "paused") as [-> |]; [by intros [= <-] | done].
Qed.

Lemma step_to_model_mirrors se w m :
  (step_to_model se w).1 = Ok m -> mirrors_step se m.
Proof.
  unfold step_to_model, bind, lift.
  destruct (StepExecutionStatus_of _) as [e | st] eqn:Hst; [done |]. cbn [ret].
  apply StepExecutionStatus_of_inv in Hst.
  match goal with
  | |- context [match ?c w with _ => _ end] => destruct (c w) as [[d | e |] w1]
  end; cbn; try done.
  intros [= <-]. done.
Qed.

Lemma mapM_Forall2 {A B} (f : A -> M B) (R : A -> B -> Prop) xs :
  (∀ x w y, (f x w).1 = Ok y -> R x y) ->
  ∀ w ys, (mapM f xs w).1 = Ok ys -> Forall2 R xs ys.
Proof.
  intros Hf. induction xs as [| x xs IH]; intros w ys; cbn [mapM].
  - intros [= <-]. constructor.
  - unfold bind at 1. destruct (f x w) as [[y | e |] w1] eqn:E; cbn; try done.
    unfold bind. destruct (mapM f xs w1) as [[zs | e |] w2] eqn:E'; cbn; try done.
    intros [= <-]. constructor.
    + apply (Hf x w). by rewrite E.
    + apply (IH w1). by rewrite E'.
Qed.

Lemma db_to_model_mirrors x name w model :
  (_db_to_model x name w).1 = Ok model ->
  (_db_to_model x name w).2 = w
  ∧ ExecutionStatus_value (WorkflowExecution.status model) = WorkflowExecutionDb.status x
  ∧ WorkflowExecution.id model = WorkflowExecutionDb.id x
  ∧ WorkflowExecution.workflow_id model = WorkflowExecutionDb.workflow_id x
  ∧ WorkflowExecution.workflow_name model = name
  ∧ WorkflowExecution.current_step_id model = WorkflowExecutionDb.current_step_id x
  ∧ WorkflowExecution.success_count model = WorkflowExecutionDb.success_count x
  ∧ WorkflowExecution.failure_count model = WorkflowExecutionDb.failure_count x
  ∧ WorkflowExecution.error_message model = WorkflowExecutionDb.error_message x
  ∧ WorkflowExecution.finished_at model = WorkflowExecutionDb.finished_at x
  ∧ WorkflowExecution.triggered_by model = WorkflowExecutionDb.triggered_by x
  ∧ Forall2 mirrors_step (WorkflowExecutionDb.step_executions x)
      (WorkflowExecution.step_executions model).
Proof.
  intros Hm. split; [apply stateless_db_to_model |].
  revert Hm. unfold _db_to_model. unfold bind at 1.
  match goal with
  | |- context [match ?m w with _ => _ end] => destruct (m w) as [[tc | e |] w1]
  end; cbn [fst]; try done.
  unfold bind at 1.
  destruct (mapM step_to_model _ w1) as [[ys | e |] w2] eqn:E; try done.
  unfold bind, lift.
  destruct (ExecutionStatus_of _) as [e | st] eqn:Hst; cbn; try done.
  intros [= <-]. cbn. split_and!; try done.
  - by apply ExecutionStatus_of_inv.
  - apply (mapM_Forall2 step_to_model mirrors_step _ step_to_model_mirrors w1).
    by rewrite E.
Qed.


(** X23: the model mirrors the row.  When [_db_to_model] returns, it has
    left the world alone and the execution it returns has the id, workflow
    id, current step, tallies, error message, finish time and trigger of the
    row, the workflow name it was given, and a status whose value is the
    stored status; its step executions are those of the row, as many and in
    the same order, each with the step id, outcome, error and duration of
    its row and a status whose value is the stored one. *)
Theorem the_model_mirrors_the_row x name w model :
  (_db_to_model x name w).1 = Ok model ->
  (_db_to_model x name w).2 = w
  ∧ ExecutionStatus_value (WorkflowExecution.status model) = WorkflowExecutionDb.status x
  ∧ WorkflowExecution.id model = WorkflowExecutionDb.id x
  ∧ WorkflowExecution.workflow_id model = WorkflowExecutionDb.workflow_id x
  ∧ WorkflowExecution.workflow_name model = name
  ∧ WorkflowExecution.current_step_id model = WorkflowExecutionDb.current_step_id x
  ∧ WorkflowExecution.success_count model = WorkflowExecutionDb.success_count x
  ∧ WorkflowExecution.failure_count model = WorkflowExecutionDb.failure_count x
  ∧ WorkflowExecution.error_message model = WorkflowExecutionDb.error_message x
  ∧ WorkflowExecution.finished_at model = WorkflowExecutionDb.finished_at x
  ∧ WorkflowExecution.triggered_by model = WorkflowExecutionDb.triggered_by x
  ∧ Forall2 mirrors_step (WorkflowExecutionDb.step_executions x)
      (WorkflowExecution.step_executions model).
Proof.
  intros Hm. split; [apply stateless_db_to_model |].
  revert Hm. unfold _db_to_model. unfold bind at 1.
  match goal with
  | |- context [match ?m w with _ => _ end] => destruct (m w) as [[tc | e |] w1]
  end; cbn [fst]; try done.
  unfold bind at 1.
  destruct (mapM step_to_model _ w1) as [[ys | e |] w2] eqn:E; try done.
  unfold bind, lift.
  destruct (ExecutionStatus_of _) as [e | st] eqn:Hst; cbn; try done.
  intros [= <-]. cbn. split_and!; try done.
  - by apply ExecutionStatus_of_inv.
  - apply (mapM_Forall2 step_to_model mirrors_step _ step_to_model_mirrors w1).
    by rewrite E.
Qed.


Lemma mapM_raises {A B} (f : A -> M B) xs x :
  (∀ y, stateless (f y)) ->
  x ∈ xs ->
  (∀ w, ∃ e, (f x w).1 = Raise e) ->
  ∀ w, ∃ e, (mapM f xs w).1 = Raise e.
Proof.
  intros Hf Hin Hx. induction xs as [| y xs IH]; intros w; [by apply elem_of_nil in Hin |].
  cbn [mapM]. unfold bind at 1.
  pose proof (Hf y w) as [Hw Hfuel].
  destruct (f y w) as [[b | e |] w1] eqn:E; cbn in *; [| by eexists | done].
  apply elem_of_cons in Hin as [-> | Hin].
  - destruct (Hx w) as [e He]. rewrite E in He. done.
  - unfold bind. destruct (IH Hin w1) as [e He].
    destruct (mapM f xs w1) as [[zs | e' |] w2]; cbn in *; try done. by eexists.
Qed.


(** X24: which decode errors [_db_to_model] swallows.  A stored trigger
    context that cannot be read, because [json.loads] or the construction of
    the [TriggerContext] raises [JSONDecodeError] or [TypeError], is dropped
    without a trace: the model is the one of the same row without trigger
    context.  An exception whose class has another name is raised to the
    caller, and so is every failure to read the stored [result_data] of a
    step: the conversion of the whole execution then raises. *)
Theorem only_trigger_context_errors_are_swallowed x name w :
  (∀ text e,
     WorkflowExecutionDb.trigger_context x = Some text ->
     str_truthy text = true ->
     trigger_context_loads text = inl e ->
     if decode_or_type_error e
     then _db_to_model x name w = _db_to_model (without_trigger_context x) name w
     else _db_to_model x name w = (Raise e, w))
  ∧ (∀ model,
       (_db_to_model (without_trigger_context x) name w).1 = Ok model ->
       WorkflowExecution.trigger_context model = None)
  ∧ (∀ se text e,
       se ∈ WorkflowExecutionDb.step_executions x ->
       WorkflowStepExecutionDb.result_data se = Some text ->
       str_truthy text = true ->
       json_loads text = inl e ->
       ∃ e', (_db_to_model x name w).1 = Raise e').
Proof.
  split_and!.
  - intros text e Htc Ht Hload. unfold _db_to_model. rewrite Htc, Ht, Hload.
    destruct (decode_or_type_error e); [| done].
    cbn [without_trigger_context WorkflowExecutionDb.trigger_context
         WorkflowExecutionDb.step_executions WorkflowExecutionDb.status]. done.
  - unfold _db_to_model. cbn [without_trigger_context WorkflowExecutionDb.trigger_context].
    unfold bind at 1. cbn [ret]. unfold bind at 1.
    destruct (mapM step_to_model _ w) as [[ys | e |] w2]; try done.
    unfold bind, lift. destruct (ExecutionStatus_of _); cbn; try done.
    by intros model [= <-].
  - intros se text e Hin Hdata Ht Hload.
    assert (Hse : ∀ w0, ∃ e', (step_to_model se w0).1 = Raise e').
    { intros w0. unfold step_to_model, bind, lift. rewrite Hdata, Ht, Hload.
      destruct (StepExecutionStatus_of _); cbn; by eexists. }
    unfold _db_to_model. unfold bind at 1.
    match goal with
    | |- context [match ?m w with _ => _ end] =>
        assert (Hm : stateless m) by (repeat stateless_step);
        pose proof (Hm w) as [Hw Hfuel];
        destruct (m w) as [[tc | e0 |] w1]
    end; cbn [fst snd] in *; [| by eexists | done].
    unfold bind at 1.
    destruct (mapM_raises step_to_model _ se stateless_step_to_model Hin Hse w1)
      as [e' He'].
    destruct (mapM step_to_model _ w1) as [[ys | e1 |] w2]; cbn in He'; try done.
    by eexists.
Qed.



(** X26: the status of a run is written exactly once.  A run that leaves
    its loop has made one status update: the pause, or else the closing
    write.  The stored execution has a finish time exactly when its status
    is not ['paused'], and so has the execution returned. *)
Theorem a_run_writes_its_status_once fuel workflow entity entity_type entity_id
    entity_name user_email trigger_context blocking w :
  let run := execute_workflow fuel workflow entity entity_type entity_id
               entity_name user_email trigger_context blocking w in
  let eid := fresh (dom (executions w)) in
  run.1 ≠ OutOfFuel ->
  status_updates (new_events w run.2) = 1
  ∧ ∃ x, executions run.2 !! eid = Some x
         ∧ (WorkflowExecutionDb.status x = ExecutionStatus_value PAUSED
            ↔ WorkflowExecutionDb.finished_at x = None)
         ∧ ∀ model, run.1 = Ok model ->
             (WorkflowExecution.status model = PAUSED
              ↔ WorkflowExecution.finished_at model = None).
Proof.
  intros run eid Hfuel. subst run.
  destruct (run_row_at_exit fuel workflow entity entity_type entity_id
              entity_name user_email trigger_context blocking w Hfuel)
    as (l & x & rows & fin & _ & Hx & Hrun & _ & _ & _ & _ & Hst & Hfin & _ & _ & Hone).
  split; [exact Hone |]. exists x. split; [exact Hx |].
  assert (Hiff : WorkflowExecutionDb.status x = ExecutionStatus_value PAUSED
                 ↔ WorkflowExecutionDb.finished_at x = None).
  { rewrite Hst, Hfin. case_bool_decide as Hp.
    - by rewrite Hp.
    - split; [| done]. intros Hv. by apply ExecutionStatus_value_paused in Hv. }
  split; [exact Hiff |].
  intros model Hm. rewrite Hrun in Hm.
  destruct (db_to_model_mirrors _ _ _ _ Hm)
    as (_ & Hs & _ & _ & _ & _ & _ & _ & _ & -> & _).
  rewrite <- Hiff, <- Hs. split; [by intros -> | apply ExecutionStatus_value_paused].
Qed.

(** X27: the execution returned is the one the run created.  Its id is
    the id of the row the run created, which no stored execution had; it
    names the workflow by id and name and the user who triggered the run,
    and its step executions mirror, one by one, the step records stored for
    that row. *)
Theorem the_returned_execution_is_the_created_one fuel workflow entity entity_type
    entity_id entity_name user_email trigger_context blocking w model :
  let run := execute_workflow fuel workflow entity entity_type entity_id
               entity_name user_email trigger_context blocking w in
  let eid := fresh (dom (executions w)) in
  run.1 = Ok model ->
  executions w !! eid = None
  ∧ WorkflowExecution.id model = eid
  ∧ WorkflowExecution.workflow_id model = ProcessWorkflow.id workflow
  ∧ WorkflowExecution.workflow_name model = ProcessWorkflow.name workflow
  ∧ WorkflowExecution.triggered_by model = user_email
  ∧ ∃ x, executions run.2 !! eid = Some x
         ∧ Forall2 mirrors_step (WorkflowExecutionDb.step_executions x)
             (WorkflowExecution.step_executions model).
Proof.
  intros run eid Hm. subst run.
  destruct (run_row_at_exit fuel workflow entity entity_type entity_id
              entity_name user_email trigger_context blocking w)
    as (l & x & rows & fin & _ & Hx & Hrun & Hid & Hwf & _ & Hby & _).
  { by rewrite Hm. }
  rewrite Hrun in Hm.
  destruct (db_to_model_mirrors _ _ _ _ Hm)
    as (_ & _ & -> & -> & -> & _ & _ & _ & _ & _ & -> & Hsteps).
  split_and!; try done.
  - apply not_elem_of_dom, is_fresh.
  - by exists x.
Qed.

(** ** Workflows without approvals, and without tag steps *)

Lemma execute_step_does_not_block step c w result w' :
  WorkflowStep.step_type step ≠ "approval" ->
  _execute_step step c w = (Ok result, w') ->
  StepResult.blocking result = false.
Proof.
  intros Htype. unfold _execute_step.
  destruct (HANDLERS_get (WorkflowStep.step_type step)) as [cls |] eqn:Hcls;
    [| by intros [= <- <-]].
  assert (Hne : cls ≠ ApprovalStepHandler).
  { intros ->. by apply HANDLERS_get_approval in Hcls. }
  revert w result w'.
  change (ensures (fun r => StepResult.blocking r = false)
            (try_except (execute cls (default ∅ (WorkflowStep.config step)) c)
               on_exception)).
  apply ensures_try_except; [by apply handlers_but_approval_do_not_block |].
  intros e. unfold on_exception. by apply ensures_ret.
Qed.

(** X28: a workflow without approval steps never pauses.  When no step of
    the workflow is of kind ['approval'], a run that leaves its loop ends in
    a status other than ['paused'] and with a finish time, in the stored
    execution and in the one returned. *)
Theorem workflows_without_approvals_never_pause fuel workflow entity entity_type
    entity_id entity_name user_email trigger_context blocking w :
  let run := execute_workflow fuel workflow entity entity_type entity_id
               entity_name user_email trigger_context blocking w in
  let eid := fresh (dom (executions w)) in
  Forall (fun s => WorkflowStep.step_type s ≠ "approval")
    (ProcessWorkflow.steps workflow) ->
  run.1 ≠ OutOfFuel ->
  ∃ x finished_at,
    executions run.2 !! eid = Some x
    ∧ WorkflowExecutionDb.status x ≠ ExecutionStatus_value PAUSED
    ∧ WorkflowExecutionDb.finished_at x = Some finished_at
    ∧ ∀ model, run.1 = Ok model ->
        WorkflowExecution.status model ≠ PAUSED
        ∧ WorkflowExecution.finished_at model = Some finished_at.
Proof.
  intros run eid Hsteps Hfuel. subst run.
  destruct (run_row_at_exit fuel workflow entity entity_type entity_id
              entity_name user_email trigger_context blocking w Hfuel)
    as (l & x & rows & fin & Hloop & Hx & Hrun & _ & _ & _ & _ & Hst & Hfin & _).
  fold eid in Hloop, Hx.
  destruct (while_loop_invariant (fun l _ => final_status l ≠ PAUSED)
              (index_steps (ProcessWorkflow.steps workflow)) eid) with
      (fuel := fuel)
      (l := initial_locals w workflow entity_type entity_id entity_name user_email
              trigger_context)
      (w := loop_entry_world w (ProcessWorkflow.id workflow) trigger_context
              user_email entity)
    as (l' & Hl' & Hsame).
  - intros cur step l1 w1 result w2 hf Hs Hp E.
    assert (Hb : StepResult.blocking result = false).
    { eapply execute_step_does_not_block; [| exact E].
      rewrite Forall_forall in Hsteps. apply Hsteps. by eapply index_steps_elem. }
    unfold body_outcome. rewrite Hb.
    destruct (opt_truthy _); cbn; [done |]. by destruct (StepResult.passed result).
  - done.
  - done.
  - rewrite <- (Hsame l Hloop) in Hl'.
    rewrite bool_decide_eq_false_2 in Hfin by done.
    assert (Hxs : WorkflowExecutionDb.status x ≠ ExecutionStatus_value PAUSED).
    { rewrite Hst. intros Hv. by apply ExecutionStatus_value_paused in Hv. }
    exists x, fin. split_and!; try done.
    intros model Hm. rewrite Hrun in Hm.
    destruct (db_to_model_mirrors _ _ _ _ Hm)
      as (_ & Hs & _ & _ & _ & _ & _ & _ & _ & -> & _).
    split; [| done]. intros Hp. apply Hxs. by rewrite <- Hs, Hp.
Qed.

Lemma execute_step_keeps_the_world step c w :
  WorkflowStep.step_type step ≠ "assign_tag" ->
  WorkflowStep.step_type step ≠ "remove_tag" ->
  (_execute_step step c w).2 = w.
Proof.
  intros Ha Hr. unfold _execute_step.
  destruct (HANDLERS_get_tags _ Ha Hr) as [Ha' Hr'].
  destruct (HANDLERS_get (WorkflowStep.step_type step)) as [cls |]; [| done].
  apply stateless_try_except.
  - apply stateless_execute; congruence.
  - intros e. apply stateless_ret.
Qed.

(** X29: a workflow without tag steps changes no dictionary.  When no step
    of the workflow is of kind ['assign_tag'] or ['remove_tag'], the heap
    after the run is the heap before it with the copy of the entity added:
    the caller's entity, the dictionaries it refers to and every other
    dictionary are what they were (the collaborators being functions of
    their arguments). *)
Theorem workflows_without_tag_steps_keep_the_heap fuel workflow entity entity_type
    entity_id entity_name user_email trigger_context blocking w :
  let run := execute_workflow fuel workflow entity entity_type entity_id
               entity_name user_email trigger_context blocking w in
  Forall (fun s => WorkflowStep.step_type s ≠ "assign_tag"
                   ∧ WorkflowStep.step_type s ≠ "remove_tag")
    (ProcessWorkflow.steps workflow) ->
  heap run.2 = <[fresh (dom (heap w)) := deref (heap w) entity]> (heap w).
Proof.
  intros run Hsteps. subst run.
  pose proof (execute_workflow_loop fuel workflow entity entity_type entity_id
                entity_name user_email trigger_context blocking w) as Hloop.
  cbn zeta in Hloop.
  set (l0 := initial_locals _ _ _ _ _ _ _) in *.
  set (w0 := loop_entry_world _ _ _ _ _) in *.
  destruct (while_loop_invariant (fun _ h => h = heap w0)
              (index_steps (ProcessWorkflow.steps workflow))
              (fresh (dom (executions w)))) with (fuel := fuel) (l := l0) (w := w0)
    as (l' & Hh & _).
  - intros cur step l w1 result w2 hf Hs Hh E.
    rewrite Forall_forall in Hsteps.
    destruct (Hsteps step (index_steps_elem _ _ _ Hs)) as [Ha Hr].
    pose proof (execute_step_keeps_the_world step (context l) w1 Ha Hr) as Hw.
    rewrite E in Hw. cbn in Hw. by subst w2.
  - done.
  - done.
  - destruct (while_loop fuel _ _ l0 w0) as [[l | e |] w3]; cbn [fst snd] in *.
    + destruct Hloop as [-> _]. exact Hh.
    + done.
    + rewrite Hloop. exact Hh.
Qed.

(** ** Workflows whose edges lead on *)








End MoreProofs.

(** * The further properties on concrete inputs *)

(** The approval step of the approval workflow: its outcome blocks. *)
Lemma only_approval_steps_block_witness :
  WorkflowStep.step_type approval_step = "approval"
  ∧ StepResult.passed approval_outcome = true
  ∧ StepResult.error approval_outcome = None.
Proof.
  apply (@only_approval_steps_block reference_externals approval_step caller_context
           caller_world approval_outcome caller_world).
  - vm_compute. reflexivity.
  - reflexivity.
Defined.

(** A [fail] step leaves the caller's world as it is. *)
Lemma only_tag_steps_write_the_entity_witness :
  (@_execute_step reference_externals fail_step caller_context caller_world).2
  = caller_world.
Proof.
  apply (@only_tag_steps_write_the_entity reference_externals fail_step caller_context
           caller_world).
  - vm_compute. discriminate.
  - vm_compute. discriminate.
Defined.

(** A validation step without configuration has no rule. *)
Lemma unconfigured_steps_fail_witness :
  @_execute_step reference_externals bare_validation_step caller_context caller_world
  = (Ok (failed_with "No rule configured"), caller_world).
Proof.
  apply (@unconfigured_steps_fail reference_externals bare_validation_step caller_context
           caller_world "validation" "No rule configured").
  - reflexivity.
  - intros m. reflexivity.
  - apply elem_of_cons. left. reflexivity.
  - reflexivity.
Defined.

(** An approval by the requester, in a run that nobody triggered: the step
    pauses the workflow and names no approver. *)
Lemma approval_with_named_approvers_pauses_witness :
  ∃ names result,
    @ApprovalStepHandler_execute reference_externals {[ "approvers" := VStr "requester" ]}
      anonymous_context caller_world = (Ok result, caller_world)
    ∧ StepResult.blocking result = true
    ∧ StepResult.message result
      = VStr ("Approval requested from: " ++ String.concat ", " names)
    ∧ names = [].
Proof.
  destruct (@approval_with_named_approvers_pauses reference_externals
              {[ "approvers" := VStr "requester" ]} anonymous_context caller_world
              "requester")
    as (names & Hrun & _ & _ & Hreq & _).
  - vm_compute. reflexivity.
  - reflexivity.
  - exists names. eexists. split; [exact Hrun |]. split; [reflexivity |].
    split; [reflexivity |]. exact (Hreq eq_refl).
Defined.

(** Two addresses and a trailing comma: three segments, the last one empty. *)
Lemma address_lists_keep_every_segment_witness :
  @_resolve_approvers reference_externals (VStr "a@x.com,b@x.com,") caller_context
    caller_world
  = (Ok [VStr "a@x.com"; VStr "b@x.com"; VStr ""], caller_world)
  ∧ count_commas "a@x.com,b@x.com," = 2.
Proof.
  destruct (@address_lists_keep_every_segment reference_externals "a@x.com,b@x.com,"
              caller_context caller_world) as (Hres & _ & _ & _).
  - vm_compute. reflexivity.
  - split; [exact Hres | reflexivity].
Defined.

(** A notification with a custom message and a known template: the custom
    message is the one reported. *)
Lemma notification_prefers_the_custom_message_witness :
  ∃ names,
    @NotificationStepHandler_execute reference_externals notification_config
      caller_context caller_world
    = (Ok (StepResult.mk true
             (VStr ("Notification sent to: " ++ String.concat ", " names))
             (Some (PDict [("recipients", DList (map VStr names));
                           ("template",
                            DVal (dict_get_default notification_config "template" ""));
                           ("message", DVal (dict_get notification_config "custom_message"))]))
             None false), caller_world).
Proof.
  destruct (@notification_prefers_the_custom_message reference_externals
              notification_config caller_context caller_world "team@x.com,lead@x.com")
    as (names & Hcustom & _).
  - vm_compute. reflexivity.
  - reflexivity.
  - vm_compute. discriminate.
  - exists names. apply Hcustom. vm_compute. reflexivity.
Defined.

(** The caller's entity has no owner: the notification passes and goes to
    nobody. *)
Lemma notification_to_the_owner_witness :
  ∃ message,
    (@NotificationStepHandler_execute reference_externals owner_notification_config
       caller_context caller_world).1
    = Ok (StepResult.mk true (VStr "Notification sent to: ")
            (Some (PDict [("recipients", DList []);
                          ("template", DVal (VStr ""));
                          ("message", DVal message)]))
            None false).
Proof.
  destruct (@notification_to_the_owner reference_externals owner_notification_config
              caller_context caller_world) as (message & Hnone & _).
  - vm_compute. reflexivity.
  - left. vm_compute. reflexivity.
  - exists message. rewrite Hnone; [reflexivity | vm_compute; reflexivity].
Defined.

(** An SQL script passes without being run. *)
Lemma only_python_scripts_are_executed_witness :
  (@ScriptStepHandler_execute reference_externals sql_config caller_context
     caller_world).1
  = Ok (StepResult.mk true (VStr "SQL execution not yet implemented")
          (Some (PDict [("sql", DVal (VStr "DROP TABLE orders"))])) None false).
Proof.
  rewrite (@only_python_scripts_are_executed reference_externals sql_config
             caller_context caller_world).
  - reflexivity.
  - vm_compute. reflexivity.
  - vm_compute. reflexivity.
Defined.


(** An inactive policy: the check passes. *)
Lemma policy_check_passes_iff_witness :
  ∃ result,
    (@PolicyCheckStepHandler_execute externals_with_policy policy_config caller_context
       caller_world).1 = Ok result
    ∧ StepResult.passed result = true.
Proof.
  destruct (@policy_check_passes_iff externals_with_policy policy_config caller_context
              caller_world)
    as (result & rest & Hrun & _ & _ & Hiff).
  - reflexivity.
  - reflexivity.
  - vm_compute. reflexivity.
  - exists result. split; [by rewrite Hrun |].
    apply Hiff. exists inactive_policy. split; [reflexivity | left; reflexivity].
Defined.

(** Without a delivery service the delivery step fails. *)
Lemma delivery_passes_iff_witness :
  ∃ result,
    (@DeliveryStepHandler_execute reference_externals ∅ caller_context caller_world).1
    = Ok result
    ∧ StepResult.error result = Some "Delivery service not initialized".
Proof.
  destruct (@delivery_passes_iff reference_externals ∅ caller_context caller_world)
    as (result & Hrun & _ & _ & Hnone & _).
  - reflexivity.
  - exists result. split; [by rewrite Hrun | apply Hnone; reflexivity].
Defined.

(** A validation against a rule engine that raises: the step fails with the
    message of the exception. *)
Lemma rule_steps_follow_the_engine_witness :
  ∃ result,
    (@ValidationStepHandler_execute reference_externals {[ "rule" := VStr "size > 0" ]}
       caller_context caller_world).1 = Ok result
    ∧ result = failed_with "no rule engine".
Proof.
  destruct (@rule_steps_follow_the_engine reference_externals
              {[ "rule" := VStr "size > 0" ]} caller_context caller_world)
    as (Hvalid & _).
  - reflexivity.
  - destruct Hvalid as (result & Hrun & _ & _ & Herr).
    + vm_compute. reflexivity.
    + exists result. split; [by rewrite Hrun |].
      apply (Herr (Raised "ValueError" "no rule engine")). reflexivity.
Defined.

(** The tag ['reviewed'] assigned to the caller's entity. *)
Lemma assign_tag_stores_the_tag_witness :
  ∃ v t,
    deref (heap reviewed_world) caller_entity !! "tags" = Some (VDict t)
    ∧ deref (heap reviewed_world) t !! "reviewed" = Some v
    ∧ StepResult.data assigned_outcome
      = Some (PDict [("key", DVal (VStr "reviewed")); ("value", DVal v)]).
Proof.
  destruct (@assign_tag_stores_the_tag reference_externals reviewed_config caller_context
              caller_world "reviewed" assigned_outcome reviewed_world)
    as (v & t & Hdata & Htags & Htag & _).
  - vm_compute. reflexivity.
  - vm_compute. eexists. reflexivity.
  - vm_compute. discriminate.
  - vm_compute. reflexivity.
  - reflexivity.
  - exists v, t. split; [exact Htags |]. split; [exact Htag | exact Hdata].
Defined.

(** The tag ['reviewed'] removed again: the tag dictionary has no such key. *)
Lemma remove_tag_clears_the_tag_witness :
  match deref (heap caller_world) caller_entity !! "tags" with
  | Some (VDict t) => deref (heap caller_world) t !! "reviewed" = None
  | _ => True
  end.
Proof.
  destruct (@remove_tag_clears_the_tag reference_externals remove_reviewed_config
              caller_context reviewed_world "reviewed" removed_outcome caller_world)
    as (Hgone & _).
  - vm_compute. reflexivity.
  - vm_compute. reflexivity.
  - reflexivity.
  - exact Hgone.
Defined.

(** Assigning and then removing ['reviewed'] gives the caller's tags back. *)
Lemma remove_undoes_assign_witness :
  ∃ result' w2,
    @RemoveTagStepHandler_execute reference_externals remove_reviewed_config
      caller_context reviewed_world = (Ok result', w2)
    ∧ StepResult.passed result' = true
    ∧ deref (heap w2) caller_tags = deref (heap caller_world) caller_tags.
Proof.
  destruct (@remove_undoes_assign reference_externals reviewed_config
              remove_reviewed_config caller_context caller_world "reviewed"
              assigned_outcome reviewed_world)
    as (result' & w2 & t & Hrun & Hp & _ & _ & Hback).
  - vm_compute. reflexivity.
  - vm_compute. reflexivity.
  - vm_compute. eexists. reflexivity.
  - vm_compute. discriminate.
  - vm_compute. reflexivity.
  - reflexivity.
  - exists result', w2. split; [exact Hrun |]. split; [exact Hp |].
    apply Hback; vm_compute; reflexivity.
Defined.

(** A value source the handler does not know, beside a literal value. *)
Lemma value_source_overrides_the_value_witness :
  @AssignTagStepHandler_execute reference_externals unknown_source_config caller_context
    caller_world
  = (Ok (failed_with "Could not resolve tag value"), caller_world).
Proof.
  apply (@value_source_overrides_the_value reference_externals unknown_source_config
           caller_context caller_world "reviewed").
  - vm_compute. reflexivity.
  - reflexivity.
  - vm_compute. reflexivity.
  - left. vm_compute. repeat split.
Defined.

(** Tags kept as a string: the key ['final'] occurs in it, so removing it
    fails. *)
Lemma tag_steps_need_a_tag_dictionary_witness :
  @RemoveTagStepHandler_execute reference_externals {[ "key" := VStr "final" ]}
    caller_context string_tags_world
  = (Ok (failed_with
           (@fault_message reference_externals (NoItemDeletion (VStr "reviewed,final")))),
     string_tags_world).
Proof.
  destruct (@tag_steps_need_a_tag_dictionary reference_externals
              {[ "key" := VStr "final" ]} caller_context string_tags_world "final"
              (VStr "reviewed,final")) as (_ & Hremove).
  - vm_compute. reflexivity.
  - reflexivity.
  - vm_compute. reflexivity.
  - intros t. discriminate.
  - exact Hremove.
Defined.


(** The tag workflow on the caller's entity: the entries of the caller's own
    dictionary are what they were. *)
Lemma the_copy_protects_the_top_level_witness :
  deref (heap (run_on_caller 1 assign_tag_workflow).2) caller_entity
  = deref (heap caller_world) caller_entity.
Proof.
  apply (@the_copy_protects_the_top_level reference_externals 1 assign_tag_workflow
           caller_entity "data_product" "dp-1" (Some "orders") (Some "u@x.com") None
           true caller_world).
  - vm_compute. eexists. reflexivity.
  - vm_compute. split; [discriminate | eexists; reflexivity].
Defined.

(** The model of a stored, paused execution. *)
Lemma the_model_mirrors_the_row_witness :
  (@_db_to_model reference_externals paused_row "approval" caller_world).1
  = Ok paused_model
  ∧ ExecutionStatus_value (WorkflowExecution.status paused_model)
    = WorkflowExecutionDb.status paused_row
  ∧ Forall2 mirrors_step (WorkflowExecutionDb.step_executions paused_row)
      (WorkflowExecution.step_executions paused_model).
Proof.
  assert (Hm : (@_db_to_model reference_externals paused_row "approval" caller_world).1
               = Ok paused_model) by (vm_compute; reflexivity).
  destruct (@the_model_mirrors_the_row reference_externals paused_row "approval"
              caller_world paused_model Hm)
    as (_ & Hs & _ & _ & _ & _ & _ & _ & _ & _ & _ & Hsteps).
  split; [exact Hm |]. split; [exact Hs | exact Hsteps].
Defined.


(** The approval workflow writes its status once, when it pauses. *)
Lemma a_run_writes_its_status_once_witness :
  status_updates (new_events caller_world (run_on_caller 1 approval_workflow).2) = 1.
Proof.
  apply (@a_run_writes_its_status_once reference_externals 1 approval_workflow
           caller_entity "data_product" "dp-1" (Some "orders") (Some "u@x.com") None
           true caller_world).
  vm_compute. discriminate.
Defined.

(** The failing workflow, run for the user [u@x.com]. *)
Lemma the_returned_execution_is_the_created_one_witness :
  ∃ model,
    (run_on_caller 1 fail_workflow).1 = Ok model
    ∧ WorkflowExecution.id model = "0"
    ∧ WorkflowExecution.workflow_id model = "wf-fail"
    ∧ WorkflowExecution.triggered_by model = Some "u@x.com".
Proof.
  assert (Hm : ∃ model, (run_on_caller 1 fail_workflow).1 = Ok model)
    by (eexists; vm_compute; reflexivity).
  destruct Hm as [model Hm].
  exists model. split; [exact Hm |].
  destruct (@the_returned_execution_is_the_created_one reference_externals 1
              fail_workflow caller_entity "data_product" "dp-1" (Some "orders")
              (Some "u@x.com") None true caller_world model Hm)
    as (_ & Hid & Hwf & _ & Hby & _).
  split; [exact Hid |]. split; [exact Hwf | exact Hby].
Defined.

(** The failing workflow has no approval step: it ends with a finish time. *)
Lemma workflows_without_approvals_never_pause_witness :
  ∃ x finished_at,
    executions (run_on_caller 1 fail_workflow).2 !! "0" = Some x
    ∧ WorkflowExecutionDb.status x ≠ "paused"
    ∧ WorkflowExecutionDb.finished_at x = Some finished_at.
Proof.
  destruct (@workflows_without_approvals_never_pause reference_externals 1 fail_workflow
              caller_entity "data_product" "dp-1" (Some "orders") (Some "u@x.com") None
              true caller_world)
    as (x & fin & Hx & Hs & Hfin & _).
  - repeat constructor. discriminate.
  - vm_compute. discriminate.
  - exists x, fin. split; [exact Hx |]. split; [exact Hs | exact Hfin].
Defined.

(** The failing workflow has no tag step: the heap gains the copy of the
    entity and nothing else. *)
Lemma workflows_without_tag_steps_keep_the_heap_witness :
  heap (run_on_caller 1 fail_workflow).2
  = <[fresh (dom (heap caller_world)) := deref (heap caller_world) caller_entity]>
      (heap caller_world).
Proof.
  apply (@workflows_without_tag_steps_keep_the_heap reference_externals 1 fail_workflow
           caller_entity "data_product" "dp-1" (Some "orders") (Some "u@x.com") None
           true caller_world).
  repeat constructor; discriminate.
Defined.

